(** * GHOST agent: store, queue drainer, transport failover, supervisor and throttler

    A shallow embedding of the parts of the GHOST endpoint agent that its
    specification makes promises about, followed by the theorems that settle
    those promises against the code.

    Conventions.
    - Go's [int], [int64] and [time.Duration] are [Z]; where the source can
      wrap around (the duration arithmetic of the supervisor) the wrap is
      written out with [wrap64].
    - Go's [error] is [option string]: [None] is [nil], [Some msg] carries
      [err.Error()].
    - A Go call that can panic or end the process returns an [Outcome].
    - The SQLite tables are lists of rows; the statements the source prepares
      are interpreted by the small relational helpers of [Module Sql]. *)

From Stdlib Require Import ZArith List String Ascii Bool Lia.
From Stdlib Require Import Sorting.Sorted Sorting.Permutation.
Import ListNotations.

Local Open Scope string_scope.
Local Open Scope list_scope.
Local Open Scope Z_scope.

Set Implicit Arguments.

(** ** Go runtime conventions *)

Definition error := option string.

(** What a Go call does: it returns, it panics, or a fatal log ends the
    process. *)
Inductive Outcome (A : Type) : Type :=
| Returns (a : A)
| Panics (msg : string)
| Fatal (msg : string).

Arguments Returns {A} a.
Arguments Panics {A} msg.
Arguments Fatal {A} msg.

Definition returned {A} (o : Outcome A) : bool :=
  match o with Returns _ => true | _ => false end.

Definition len {A} (l : list A) : Z := Z.of_nat (List.length l).

(** Package [strings]. *)
Module strings.

Fixpoint repeat_nat (s : string) (n : nat) : string :=
  match n with
  | O => ""
  | S n' => (s ++ repeat_nat s n')%string
  end.

(** [strings.Repeat] panics on a negative count. *)
Definition Repeat (s : string) (count : Z) : Outcome string :=
  if count <? 0 then Panics "strings: negative Repeat count"
  else Returns (repeat_nat s (Z.to_nat count)).

Fixpoint HasPrefix (s pre : string) : bool :=
  match pre, s with
  | EmptyString, _ => true
  | String c pre', String d s' => Ascii.eqb c d && HasPrefix s' pre'
  | String _ _, EmptyString => false
  end.

Fixpoint Contains (s substr : string) : bool :=
  HasPrefix s substr ||
  match s with
  | EmptyString => false
  | String _ s' => Contains s' substr
  end.

Definition lower (c : ascii) : ascii :=
  let n := nat_of_ascii c in
  if (Nat.leb 65 n && Nat.leb n 90)%bool then ascii_of_nat (n + 32) else c.

Fixpoint ToLower (s : string) : string :=
  match s with
  | EmptyString => EmptyString
  | String c s' => String (lower c) (ToLower s')
  end.

(** [strings.TrimSuffix s "/"]: one trailing slash is removed. *)
Fixpoint TrimSuffixSlash (s : string) : string :=
  match s with
  | EmptyString => EmptyString
  | String c EmptyString => if Ascii.eqb c "/" then EmptyString else s
  | String c s' => String c (TrimSuffixSlash s')
  end.

(** [strings.Trim s "/"]: every leading and trailing slash is removed. *)
Fixpoint TrimLeftSlash (s : string) : string :=
  match s with
  | EmptyString => EmptyString
  | String c s' => if Ascii.eqb c "/" then TrimLeftSlash s' else s
  end.

Fixpoint TrimRightSlash (s : string) : string :=
  match s with
  | EmptyString => EmptyString
  | String c s' =>
      match TrimRightSlash s' with
      | EmptyString => if Ascii.eqb c "/" then EmptyString else String c EmptyString
      | t => String c t
      end
  end.

Definition TrimSlash (s : string) : string :=
  TrimRightSlash (TrimLeftSlash s).

End strings.

(** ** Relational helpers for the statements the store prepares *)

Module Sql.

Section Table.
Variable Row : Type.
Variable key : Row -> Z.

(** [ORDER BY rowid] (ascending): insertion into the ordered result. *)
Fixpoint insert_row (r : Row) (l : list Row) : list Row :=
  match l with
  | [] => [r]
  | x :: l' => if key r <=? key x then r :: l else x :: insert_row r l'
  end.

Fixpoint order_by (l : list Row) : list Row :=
  match l with
  | [] => []
  | r :: l' => insert_row r (order_by l')
  end.

(** [ORDER BY rowid DESC]. *)
Definition order_by_desc (l : list Row) : list Row := rev (order_by l).

(** [LIMIT n]. *)
Definition limit (n : nat) (l : list Row) : list Row := firstn n l.

(** The scalar subquery [SELECT rowid ... LIMIT offset, 1]: the key of
    the row at position [offset] of the ordered result, [NULL] when the
    result is shorter. *)
Definition scalar_at (offset : nat) (l : list Row) : option Z :=
  option_map key (nth_error l offset).

(** [DELETE ... WHERE rowid <= v]: a comparison with [NULL] is never
    true, so nothing is deleted then. *)
Definition delete_where_le (v : option Z) (l : list Row) : list Row :=
  match v with
  | None => l
  | Some k => filter (fun r => negb (key r <=? k)) l
  end.

(** [DELETE ... WHERE rowid IN (args)]. *)
Definition key_in (args : list Z) (r : Row) : bool :=
  existsb (Z.eqb (key r)) args.

Definition delete_where_in (args : list Z) (l : list Row) : list Row :=
  filter (fun r => negb (key_in args r)) l.

Definition rows_affected (before after : list Row) : Z :=
  len before - len after.

(** The rowid SQLite gives a row inserted without one: 1 in an empty
    table, otherwise one more than the largest in use. *)
Definition max_key (x : Row) (l : list Row) : Z :=
  fold_right (fun r m => Z.max (key r) m) (key x) l.

Definition next_rowid (l : list Row) : Z :=
  match l with
  | [] => 1
  | x :: l' => max_key x l' + 1
  end.

End Table.

(** [x LIKE pat] over bytes: [%] matches any run, [_] one byte, other
    bytes match themselves without regard to ASCII case. *)
Fixpoint like_list (pat s : list ascii) {struct pat} : bool :=
  match pat with
  | [] => match s with [] => true | _ => false end
  | p :: pat' =>
      if Ascii.eqb p "%" then
        (fix any (s : list ascii) : bool :=
           like_list pat' s ||
           match s with [] => false | _ :: s' => any s' end) s
      else
        match s with
        | [] => false
        | c :: s' =>
            (Ascii.eqb p "_" || Ascii.eqb (strings.lower p) (strings.lower c))
            && like_list pat' s'
        end
  end.

Definition like (x pat : string) : bool :=
  like_list (list_ascii_of_string pat) (list_ascii_of_string x).

End Sql.

(** ** Package [time] *)

Module time.

Definition Duration := Z.

Definition wrap64 (z : Z) : Z :=
  (z + 2 ^ 63) mod 2 ^ 64 - 2 ^ 63.

Definition Millisecond : Duration := 1000000.
Definition Second : Duration := 1000000000.

(** A wall-clock instant without monotonic reading, as [time.Parse] and
    [Time.UTC] produce it: seconds since year 1 and nanoseconds within the
    second. *)
Record Time := { sec : Z; nsec : Z }.

Definition zero : Time := {| sec := 0; nsec := 0 |}.

(** [Time.addSec]: the sum saturates instead of overflowing. *)
Definition addSec (t : Time) (d : Z) : Time :=
  let sum := wrap64 (sec t + d) in
  if Bool.eqb (sec t <? sum) (0 <? d) then {| sec := sum; nsec := nsec t |}
  else if 0 <? d then {| sec := 2 ^ 63 - 1; nsec := nsec t |}
  else {| sec := - (2 ^ 63 - 1); nsec := nsec t |}.

(** [Time.Add]; Go's [/] and [%] truncate toward zero. *)
Definition Add (t : Time) (d : Duration) : Time :=
  let dsec := Z.quot d 1000000000 in
  let n := nsec t + Z.rem d 1000000000 in
  if 1000000000 <=? n then
    addSec {| sec := sec t; nsec := n - 1000000000 |} (dsec + 1)
  else if n <? 0 then
    addSec {| sec := sec t; nsec := n + 1000000000 |} (dsec - 1)
  else addSec {| sec := sec t; nsec := n |} dsec.

(** [t.After(u)]. *)
Definition After (t u : Time) : bool :=
  (sec u <? sec t) || ((sec t =? sec u) && (nsec u <? nsec t)).

(** [time.Second * time.Duration(n)]: an [int64] product. *)
Definition Seconds (n : Z) : Duration := wrap64 (Second * n).

(** The instant as a count of nanoseconds. *)
Definition nanos (t : Time) : Z := sec t * 1000000000 + nsec t.

End time.

(** ** The store ([Database]) *)

Module Store.

(** The [Plugin] struct: configuration fields and runtime fields live in
    one record, as in the source. *)
Record Plugin := {
  Name : string;
  Mode : string;
  LaunchFrequency : Z;
  UUID : string;
  WorkingDirectory : string;
  Command : string;
  Args : list string;
  ResourceFiles : list (string * string);
  CPULimit : Z;
  RetryFailure : bool;
  Status : string;
  StatusMessage : string;
  ProcessName : string;
  ProcessID : Z;
  LastStart : time.Time;
  LastExit : time.Time;
  CurrentManager : Z
}.

(** [Plugin{}] *)
Definition zeroPlugin : Plugin :=
  {| Name := ""; Mode := ""; LaunchFrequency := 0; UUID := "";
     WorkingDirectory := ""; Command := ""; Args := [];
     ResourceFiles := []; CPULimit := 0; RetryFailure := false;
     Status := ""; StatusMessage := ""; ProcessName := ""; ProcessID := 0;
     LastStart := time.zero; LastExit := time.zero; CurrentManager := 0 |}.

(** A row of table [plugins].  The two instants are kept as instants: the
    source writes them with [Format(time.RFC3339Nano)] and reads them back
    with [time.Parse] of the same layout. *)
Record PluginRow := {
  uuid : string;
  name : string;
  mode : string;
  process_name : string;
  process_id : Z;
  current_manager : Z;
  status : string;
  status_message : string;
  last_exit : time.Time;
  last_start : time.Time;
  plugin_rowid : Z
}.

(** A row of table [message_queue]. *)
Record QueueEntry := {
  post_string : string;
  post_uri : string;
  rowid : Z
}.

(** The database behind the [*sql.DB] handle.  [fault] is the condition of
    the connection: while it is [Some e] every [Prepare] returns [e].  A
    table that was never created holds no rows, and every operation issues
    its [CREATE TABLE IF NOT EXISTS] first, so absence and emptiness are
    not told apart; [rolling_queue] records whether the trigger of that
    name exists. *)
Record Database := {
  DbName : string;
  fault : error;
  plugins : list PluginRow;
  message_queue : list QueueEntry;
  rolling_queue : bool
}.

Definition set_message_queue (db : Database) (q : list QueueEntry) : Database :=
  {| DbName := DbName db; fault := fault db; plugins := plugins db;
     message_queue := q; rolling_queue := rolling_queue db |}.

Definition set_plugins (db : Database) (t : list PluginRow) : Database :=
  {| DbName := DbName db; fault := fault db; plugins := t;
     message_queue := message_queue db; rolling_queue := rolling_queue db |}.

Definition set_rolling_queue (db : Database) (b : bool) : Database :=
  {| DbName := DbName db; fault := fault db; plugins := plugins db;
     message_queue := message_queue db; rolling_queue := b |}.

Definition Prepare (db : Database) : error := fault db.

(** The retention cap of the trigger. *)
Definition rolling_limit : nat := Z.to_nat 20000.

(** Body of trigger [rolling_queue]:
    [DELETE FROM message_queue WHERE rowid <=
       (SELECT rowid FROM message_queue ORDER BY rowid DESC LIMIT 20000, 1)]. *)
Definition rolling_queue_body (q : list QueueEntry) : list QueueEntry :=
  Sql.delete_where_le rowid
    (Sql.scalar_at rowid rolling_limit (Sql.order_by_desc rowid q)) q.

Definition MessageQueueCreateTable (db : Database) : Database * error :=
  match Prepare db with
  | Some e => (db, Some e)
  | None =>
      (* CREATE TABLE IF NOT EXISTS message_queue *)
      match Prepare db with
      | Some e => (db, Some e)
      | None =>
          (* CREATE TRIGGER IF NOT EXISTS rolling_queue *)
          (set_rolling_queue db true, None)
      end
  end.

(** The parsing loop of [MessageQueueSelectURI]. *)
Fixpoint scan_queue (rows : list QueueEntry) (outMsgs : list string)
         (rowIds : list Z) : list string * list Z :=
  match rows with
  | [] => (outMsgs, rowIds)
  | r :: rest =>
      let outMsgs' :=
        if String.eqb (post_string r) "" then outMsgs
        else outMsgs ++ [post_string r] in
      let rowIds' :=
        if rowid r =? 0 then rowIds else rowIds ++ [rowid r] in
      scan_queue rest outMsgs' rowIds'
  end.

(** The rows of [SELECT rowid, post_string FROM message_queue
    ORDER BY ROWID LIMIT 100]. *)
Definition select_oldest (q : list QueueEntry) : list QueueEntry :=
  Sql.limit 100 (Sql.order_by rowid q).

Definition MessageQueueSelectURI (db : Database) (uri : string)
  : Database * (list string * list Z * error) :=
  match MessageQueueCreateTable db with
  | (db1, Some e) => (db1, ([], [], Some e))
  | (db1, None) =>
      match Prepare db1 with
      | Some e => (db1, ([], [], Some e))
      | None =>
          let '(outMsgs, rowIds) :=
            scan_queue (select_oldest (message_queue db1)) [] [] in
          (db1, (outMsgs, rowIds, None))
      end
  end.

Definition max_int64 : Z := 2 ^ 63 - 1.

(** [INSERT INTO message_queue(post_string, post_uri) VALUES(?, ?)] and
    the trigger that fires after it.  When the largest rowid is already
    the largest [int64], SQLite probes for a free rowid at random before
    it gives up; the model reports the giving up. *)
Definition MessageQueueInsert (db : Database) (postString postURI : string)
  : Database * error :=
  match MessageQueueCreateTable db with
  | (db1, Some e) => (db1, Some e)
  | (db1, None) =>
      match Prepare db1 with
      | Some e => (db1, Some e)
      | None =>
          let q := message_queue db1 in
          let id := Sql.next_rowid rowid q in
          if max_int64 <? id then (db1, Some "database or disk is full")
          else
            let q1 := q ++ [{| post_string := postString;
                               post_uri := postURI; rowid := id |}] in
            let q2 := if rolling_queue db1 then rolling_queue_body q1
                      else q1 in
            (set_message_queue db1 q2, None)
      end
  end.

(** [MessageQueueDelete]: the statement text is built with
    [strings.Repeat(",?", len(rowIds)-1)] before it is prepared. *)
Definition MessageQueueDelete (db : Database) (rowIds : list Z)
  : Outcome (Database * (Z * error)) :=
  match MessageQueueCreateTable db with
  | (db1, Some e) => Returns (db1, (0, Some e))
  | (db1, None) =>
      match strings.Repeat ",?" (len rowIds - 1) with
      | Panics m => Panics m
      | Fatal m => Fatal m
      | Returns marks =>
          let stmtStr := ("DELETE FROM message_queue WHERE rowid IN (?"
                            ++ marks ++ ")")%string in
          match Prepare db1 with
          | Some e => Returns (db1, (0, Some e))
          | None =>
              let q := message_queue db1 in
              let q' := Sql.delete_where_in rowid rowIds q in
              Returns (set_message_queue db1 q',
                       (Sql.rows_affected q q', None))
          end
      end
  end.

(** [Vacuum] reclaims space and leaves the rows alone. *)
Definition Vacuum (db : Database) : Database * error :=
  (db, Prepare db).

Definition PluginCreateTable (db : Database) : Database * error :=
  (db, Prepare db).

Definition row_of_plugin (p : Plugin) (id : Z) : PluginRow :=
  {| uuid := UUID p; name := Name p; mode := Mode p;
     process_name := ProcessName p; process_id := ProcessID p;
     current_manager := CurrentManager p; status := Status p;
     status_message := StatusMessage p; last_exit := LastExit p;
     last_start := LastStart p; plugin_rowid := id |}.

(** [PluginInsert]: [UPDATE plugins SET ... WHERE uuid=?] followed by
    [INSERT OR IGNORE]; column [uuid] is [UNIQUE], so the insert is
    ignored exactly when a row with that uuid exists. *)
Definition PluginInsert (db : Database) (p : Plugin) : Database * error :=
  match PluginCreateTable db with
  | (db1, Some e) => (db1, Some e)
  | (db1, None) =>
      match Prepare db1 with
      | Some e => (db1, Some e)
      | None =>
          let t := plugins db1 in
          let updated :=
            map (fun r => if String.eqb (uuid r) (UUID p)
                          then row_of_plugin p (plugin_rowid r) else r) t in
          let t' :=
            if existsb (fun r => String.eqb (uuid r) (UUID p)) t
            then updated
            else updated ++ [row_of_plugin p (Sql.next_rowid plugin_rowid t)] in
          (set_plugins db1 t', None)
      end
  end.

(** What [rows.Scan] fills in for [PluginSelectUUID]; the fields that are
    not columns keep their zero value. *)
Definition plugin_of_row (r : PluginRow) : Plugin :=
  {| Name := name r; Mode := mode r; LaunchFrequency := 0; UUID := uuid r;
     WorkingDirectory := ""; Command := ""; Args := [];
     ResourceFiles := []; CPULimit := 0; RetryFailure := false;
     Status := status r; StatusMessage := status_message r;
     ProcessName := process_name r; ProcessID := process_id r;
     LastStart := last_start r; LastExit := last_exit r;
     CurrentManager := current_manager r |}.

Definition set_CurrentManager (p : Plugin) (m : Z) : Plugin :=
  {| Name := Name p; Mode := Mode p; LaunchFrequency := LaunchFrequency p;
     UUID := UUID p; WorkingDirectory := WorkingDirectory p;
     Command := Command p; Args := Args p;
     ResourceFiles := ResourceFiles p; CPULimit := CPULimit p;
     RetryFailure := RetryFailure p; Status := Status p;
     StatusMessage := StatusMessage p; ProcessName := ProcessName p;
     ProcessID := ProcessID p; LastStart := LastStart p;
     LastExit := LastExit p; CurrentManager := m |}.

Definition set_Status (p : Plugin) (s msg : string) : Plugin :=
  {| Name := Name p; Mode := Mode p; LaunchFrequency := LaunchFrequency p;
     UUID := UUID p; WorkingDirectory := WorkingDirectory p;
     Command := Command p; Args := Args p;
     ResourceFiles := ResourceFiles p; CPULimit := CPULimit p;
     RetryFailure := RetryFailure p; Status := s;
     StatusMessage := msg; ProcessName := ProcessName p;
     ProcessID := ProcessID p; LastStart := LastStart p;
     LastExit := LastExit p; CurrentManager := CurrentManager p |}.

Definition set_LastExit (p : Plugin) (t : time.Time) : Plugin :=
  {| Name := Name p; Mode := Mode p; LaunchFrequency := LaunchFrequency p;
     UUID := UUID p; WorkingDirectory := WorkingDirectory p;
     Command := Command p; Args := Args p;
     ResourceFiles := ResourceFiles p; CPULimit := CPULimit p;
     RetryFailure := RetryFailure p; Status := Status p;
     StatusMessage := StatusMessage p; ProcessName := ProcessName p;
     ProcessID := ProcessID p; LastStart := LastStart p;
     LastExit := t; CurrentManager := CurrentManager p |}.

Definition set_LastStart (p : Plugin) (t : time.Time) : Plugin :=
  {| Name := Name p; Mode := Mode p; LaunchFrequency := LaunchFrequency p;
     UUID := UUID p; WorkingDirectory := WorkingDirectory p;
     Command := Command p; Args := Args p;
     ResourceFiles := ResourceFiles p; CPULimit := CPULimit p;
     RetryFailure := RetryFailure p; Status := Status p;
     StatusMessage := StatusMessage p; ProcessName := ProcessName p;
     ProcessID := ProcessID p; LastStart := t;
     LastExit := LastExit p; CurrentManager := CurrentManager p |}.

Definition set_ProcessName (p : Plugin) (n : string) : Plugin :=
  {| Name := Name p; Mode := Mode p; LaunchFrequency := LaunchFrequency p;
     UUID := UUID p; WorkingDirectory := WorkingDirectory p;
     Command := Command p; Args := Args p;
     ResourceFiles := ResourceFiles p; CPULimit := CPULimit p;
     RetryFailure := RetryFailure p; Status := Status p;
     StatusMessage := StatusMessage p; ProcessName := n;
     ProcessID := ProcessID p; LastStart := LastStart p;
     LastExit := LastExit p; CurrentManager := CurrentManager p |}.

Definition set_ProcessID (p : Plugin) (pid : Z) : Plugin :=
  {| Name := Name p; Mode := Mode p; LaunchFrequency := LaunchFrequency p;
     UUID := UUID p; WorkingDirectory := WorkingDirectory p;
     Command := Command p; Args := Args p;
     ResourceFiles := ResourceFiles p; CPULimit := CPULimit p;
     RetryFailure := RetryFailure p; Status := Status p;
     StatusMessage := StatusMessage p; ProcessName := ProcessName p;
     ProcessID := pid; LastStart := LastStart p;
     LastExit := LastExit p; CurrentManager := CurrentManager p |}.

(** [PluginSelectUUID]: the first row with that uuid, or the zero plugin. *)
Definition PluginSelectUUID (db : Database) (id : string)
  : Database * (Plugin * error) :=
  match PluginCreateTable db with
  | (db1, Some e) => (db1, (zeroPlugin, Some e))
  | (db1, None) =>
      match Prepare db1 with
      | Some e => (db1, (zeroPlugin, Some e))
      | None =>
          match filter (fun r => String.eqb (uuid r) id) (plugins db1) with
          | [] => (db1, (zeroPlugin, None))
          | r :: _ =>
              let p := plugin_of_row r in
              if String.eqb (UUID p) "" then
                (* returned before the time strings are parsed *)
                (db1, (set_LastStart (set_LastExit p time.zero) time.zero, None))
              else (db1, (p, None))
          end
      end
  end.

(** [PluginSelectStatus]: [WHERE status LIKE '%' + status + '%']; the
    select list has no [current_manager], and rows with an empty uuid are
    skipped. *)
Definition PluginSelectStatus (db : Database) (st : string)
  : Database * (list Plugin * error) :=
  match PluginCreateTable db with
  | (db1, Some e) => (db1, ([], Some e))
  | (db1, None) =>
      match Prepare db1 with
      | Some e => (db1, ([], Some e))
      | None =>
          let rows := filter (fun r => Sql.like (status r) ("%" ++ st ++ "%")%string)
                             (plugins db1) in
          let found := map (fun r => set_CurrentManager (plugin_of_row r) 0) rows in
          (db1, (filter (fun p => negb (String.eqb (UUID p) "")) found, None))
      end
  end.

End Store.

(** ** Transport ([Sender]) *)

Module comms.

(** The fields of [Sender] that select the endpoint.  Keys, certificate
    and logger are fixed at bootstrap; they reach the model through the
    environment below. *)
Record Sender := {
  ControllerURL : string;
  Proxy : string;
  ClientUUID : string
}.

Definition set_ControllerURL (s : Sender) (u : string) : Sender :=
  {| ControllerURL := u; Proxy := Proxy s; ClientUUID := ClientUUID s |}.

Definition set_Proxy (s : Sender) (p : string) : Sender :=
  {| ControllerURL := ControllerURL s; Proxy := p; ClientUUID := ClientUUID s |}.

(** An outgoing request as the transport sees it. *)
Record Request := {
  Method : string;
  URL : string;
  ProxyURL : option string;
  Body : string
}.

(** What [httpClient.Do] and [ioutil.ReadAll] hand back. *)
Inductive BodyRead :=
| ReadError (e : string)
| BodyBytes (b : string).

Inductive DoResult :=
| DoError (e : string)
| Response (StatusCode : Z) (Status : string) (body : BodyRead).

(** Everything outside the process that the transport consults.  [W] is
    the state of the outside world; a request may change it and the answer
    may depend on it. *)
Record Env (W : Type) := {
  (** the error of [http.NewRequest] for a URL, if any *)
  NewRequest_error : string -> error;
  Do : W -> Request -> W * DoResult;
  (** [json.Unmarshal] into a [map[string]string]: the entries, or the
      error text *)
  Unmarshal : string -> list (string * string) + string;
  (** [json.Marshal] of the envelope map *)
  Marshal_envelope : string -> string -> string * error;
  (** [base64(SignData(message))]; a private key that cannot be decoded is
      fatal in the source, the model takes the key as decodable *)
  Sign : string -> string;
  (** the signature check against the pinned certificate, taken as
      decodable *)
  VerifyResponse : string -> string -> bool
}.

Arguments NewRequest_error {W} _ _.
Arguments Do {W} _ _ _.
Arguments Unmarshal {W} _ _.
Arguments Marshal_envelope {W} _ _ _.
Arguments Sign {W} _ _.
Arguments VerifyResponse {W} _ _ _.

(** [m[k]] on a [map[string]string]: the zero value when absent. *)
Fixpoint lookup (m : list (string * string)) (k : string) : string :=
  match m with
  | [] => ""
  | (k', v) :: m' => if String.eqb k' k then v else lookup m' k
  end.

(** The proxy the transport is given for the current [Proxy] setting. *)
Definition transport_proxy (p : string) : option string :=
  if negb (String.eqb p "") && negb (String.eqb (strings.ToLower p) "none")
  then Some p else None.

Definition nil_dereference : string :=
  "runtime error: invalid memory address or nil pointer dereference".

Section WithEnv.
Variable W : Type.
Variable env : Env W.

(** [Send]: sign, POST, check the status, verify the answer. *)
Definition Send (w : W) (s : Sender) (message uri : string)
  : Outcome (W * (string * error)) :=
  match Marshal_envelope env (Sign env message) message with
  | (_, Some e) => Returns (w, ("", Some e))
  | (payloadJSON, None) =>
      let url := (strings.TrimSlash (ControllerURL s) ++ "/"
                    ++ strings.TrimSlash uri ++ "/")%string in
      match NewRequest_error env url with
      | Some _ => (* the error is dropped and the nil request is used *)
          Panics nil_dereference
      | None =>
          let req := {| Method := "POST"; URL := url;
                        ProxyURL := transport_proxy (Proxy s);
                        Body := payloadJSON |} in
          match Do env w req with
          | (w1, DoError e) =>
              Returns (w1, ("", Some ("NETWORK ERROR: " ++ e)%string))
          | (w1, Response code st (ReadError e)) =>
              Returns (w1, ("", Some ("Unable to read body response: " ++ e)%string))
          | (w1, Response code st (BodyBytes b)) =>
              if negb (code =? 200) then
                Returns (w1, ("", Some ("Received bad status: " ++ st)%string))
              else
                match Unmarshal env b with
                | inr e =>
                    Returns (w1, ("", Some ("Unable to unmarshal payload map: " ++ e)%string))
                | inl payloadMap =>
                    if VerifyResponse env (lookup payloadMap "jsonString")
                                      (lookup payloadMap "SIGNATURE")
                    then Returns (w1, (lookup payloadMap "jsonString", None))
                    else Returns (w1, ("", Some "unable to verify response signature"))
                end
          end
      end
  end.

(** The lines [UpdateConnection] writes to the log. *)
Inductive LogLine :=
| Testing (url proxy : string)
| Updating (url proxy : string).

Definition State : Type := W * Sender * list LogLine.

(** [TestConnection]: GET [/core/conntest/]; success is a decodable
    answer whose [status] is [success]. *)
Definition TestConnection (w : W) (s : Sender) : Outcome (W * Sender * bool) :=
  let s1 := set_ControllerURL s (strings.TrimSuffixSlash (ControllerURL s)) in
  let url := (ControllerURL s1 ++ "/core/conntest/")%string in
  match NewRequest_error env url with
  | Some e => Fatal ("Error creating request: " ++ e)%string
  | None =>
      let req := {| Method := "GET"; URL := url;
                    ProxyURL := transport_proxy (Proxy s1); Body := "" |} in
      match Do env w req with
      | (w1, DoError _) => Returns (w1, s1, false)
      | (w1, Response _ _ body) =>
          (* the error of ReadAll is dropped; what was read is decoded *)
          let b := match body with ReadError _ => "" | BodyBytes b => b end in
          match Unmarshal env b with
          | inr _ => Returns (w1, s1, false)
          | inl respMap =>
              Returns (w1, s1, String.eqb (lookup respMap "status") "success")
          end
      end
  end.

(** Every test of [UpdateConnection] has the same shape: a debug line,
[TestConnection], and on success an info line before [return true]. *)
Definition test_and_log (st : State) : Outcome (State * bool) :=
  let '(w, s, log) := st in
  let log1 := log ++ [Testing (ControllerURL s) (Proxy s)] in
  match TestConnection w s with
  | Fatal m => Fatal m
  | Panics m => Panics m
  | Returns (w2, s2, true) =>
  Returns ((w2, s2, log1 ++ [Updating (ControllerURL s2) (Proxy s2)]), true)
  | Returns (w2, s2, false) => Returns ((w2, s2, log1), false)
  end.

(** The inner loop of [UpdateConnection] over the proxy list. *)
Fixpoint try_proxies (proxyList : list string) (st : State)
  : Outcome (State * bool) :=
  match proxyList with
  | [] => Returns (st, false)
  | P :: rest =>
      let '(w, s, log) := st in
      match test_and_log (w, set_Proxy s P, log) with
      | Returns (st1, false) => try_proxies rest st1
      | r => r
      end
  end.

(** The test without proxy, made when the selected proxy is a real one. *)
Definition try_direct (st : State) : Outcome (State * bool) :=
  let '(w, s, log) := st in
  if negb (String.eqb (Proxy s) "")
     && negb (String.eqb (strings.ToLower (Proxy s)) "none")
  then test_and_log (w, set_Proxy s "", log)
  else Returns (st, false).

(** The outer loop over the controller list. *)
Fixpoint try_controllers (proxyList controllerList : list string) (st : State)
  : Outcome (State * bool) :=
  match controllerList with
  | [] => Returns (st, false)
  | C :: rest =>
      let '(w, s, log) := st in
      (* test with default Proxy first *)
      match test_and_log (w, set_ControllerURL s C, log) with
      | Returns (st2, false) =>
          (* test with no Proxy if not default *)
          match try_direct st2 with
          | Returns (st5, false) =>
              (* run through the Proxy list *)
              match try_proxies proxyList st5 with
              | Returns (st6, false) => try_controllers proxyList rest st6
              | r => r
              end
          | r => r
          end
      | r => r
      end
  end.

Definition UpdateConnection (proxyList controllerList : list string) (st : State)
  : Outcome (State * bool) :=
  let '(_, s, _) := st in
  let oldProxy := Proxy s in
  let oldcontrollerURL := ControllerURL s in
  match try_controllers proxyList controllerList st with
  | Returns ((w', s', log'), false) =>
      Returns ((w', set_ControllerURL (set_Proxy s' oldProxy) oldcontrollerURL, log'),
               false)
  | r => r
  end.

End WithEnv.

End comms.

(** ** Plugin methods of package [client] *)

Module client.

Import Store.

(** The parts of [Client] the plugin methods read and write. *)
Record Client := {
  Offline : bool;
  LocalDb : Database
}.

Definition set_LocalDb (c : Client) (db : Database) : Client :=
  {| Offline := Offline c; LocalDb := db |}.

(** The process table, as [ps.FindProcess] reads it: pid and executable
    name of each live process, or the error of reading it. *)
Record OS := {
  processes : list (Z * string);
  ps_error : error
}.

Fixpoint find_pid (l : list (Z * string)) (pid : Z) : option (Z * string) :=
  match l with
  | [] => None
  | (q, exe) :: l' => if q =? pid then Some (q, exe) else find_pid l' pid
  end.

(** [ps.FindProcess]: the process, [nil] when there is none, or an error. *)
Definition FindProcess (os : OS) (pid : Z) : option (Z * string) * error :=
  match ps_error os with
  | Some e => (None, Some e)
  | None => (find_pid (processes os) pid, None)
  end.

Section Marshal.

(** [json.Marshal] of a [Plugin]. *)
Variable Marshal_plugin : Plugin -> string * error.

(** [UpdateStatus]: write the record, then queue a copy for the controller
    with [current_manager] cleared. *)
Definition UpdateStatus (c : Client) (p : Plugin) : Client * error :=
  match PluginInsert (LocalDb c) p with
  | (db1, Some e) => (set_LocalDb c db1, Some e)
  | (db1, None) =>
      let c1 := set_LocalDb c db1 in
      if negb (Offline c1) then
        let pluginToSend := set_CurrentManager p 0 in
        match Marshal_plugin pluginToSend with
        | (_, Some e) => (c1, Some e)
        | (msgBytes, None) =>
            let '(db2, err) := MessageQueueInsert (LocalDb c1) msgBytes "/core/pluginlog/" in
            (set_LocalDb c1 db2, err)
        end
      else (c1, None)
  end.

(** [QueuePluginLog]: queue the copy only; table [plugins] is not touched. *)
Definition QueuePluginLog (c : Client) (p : Plugin) : Client * error :=
  if negb (Offline c) then
    let pluginToSend := set_CurrentManager p 0 in
    match Marshal_plugin pluginToSend with
    | (_, Some e) => (c, Some e)
    | (msgBytes, None) =>
        let '(db2, err) := MessageQueueInsert (LocalDb c) msgBytes "/core/pluginlog/" in
        (set_LocalDb c db2, err)
    end
  else (c, None).

(** [IsRunning]: the stored record says running, names a process, and a
    live process with that pid has that executable name. *)
Definition IsRunning (c : Client) (os : OS) (p : Plugin) : Client * (bool * error) :=
  match PluginSelectUUID (LocalDb c) (UUID p) with
  | (db1, (_, Some e)) => (set_LocalDb c db1, (false, Some e))
  | (db1, (storedPlugin, None)) =>
      let c1 := set_LocalDb c db1 in
      if negb (String.eqb (Status storedPlugin) "running") then (c1, (false, None))
      else if (ProcessID storedPlugin =? 0) || String.eqb (ProcessName storedPlugin) ""
      then (c1, (false, None))
      else
        match FindProcess os (ProcessID storedPlugin) with
        | (None, _) => (c1, (false, None))
        | (Some _, Some _) => (c1, (false, None))
        | (Some (_, exe), None) =>
            if negb (String.eqb exe (ProcessName storedPlugin)) then (c1, (false, None))
            else (c1, (true, None))
        end
  end.

(** One turn of the polling loop of [ResumePlugin]: reload the record, ask
    [IsRunning], and decide whether to keep waiting.  The reloaded record
    replaces [p]. *)
Definition ResumePlugin_poll (c : Client) (os : OS) (currentPID : Z) (p : Plugin)
  : Client * Plugin * bool :=
  match PluginSelectUUID (LocalDb c) (UUID p) with
  | (db1, (p1, Some _)) => (set_LocalDb c db1, p1, false)
  | (db1, (p1, None)) =>
      match IsRunning (set_LocalDb c db1) os p1 with
      | (c2, (_, Some _)) => (c2, p1, false)
      | (c2, (isRunning, None)) =>
          (c2, p1, isRunning && (currentPID =? ProcessID p1))
      end
  end.

(** What [ResumePlugin] does once the loop is left, with [p] as the loop
    left it: cancel the throttler when [p.CPULimit > 0], then queue one
    telemetry message.  The boolean tells whether a value was sent on
    [quit]. *)
Definition ResumePlugin_exit (c : Client) (now : time.Time) (p : Plugin)
  : Client * bool :=
  let quit_sent := 0 <? CPULimit p in
  let p1 := set_Status p (Status p) "exited after monitoring resumed" in
  let p2 := set_LastExit p1 now in
  let p3 := set_Status p2 "exited after monitoring resumed" (StatusMessage p2) in
  let '(c1, _) := QueuePluginLog c p3 in
  (c1, quit_sent).

(** The exit path of [LaunchBinary], after [cmd.Wait] returned [waitErr]. *)
Definition LaunchBinary_exit (c : Client) (now : time.Time) (p : Plugin)
  (waitErr : error) (errMsg : string) : Client * bool :=
  let quit_sent := 0 <? CPULimit p in
  let p1 := match waitErr with
   | Some e => set_Status p "error" (e ++ " : " ++ errMsg)%string
   | None => set_Status p "complete" "complete"
   end in
  let p2 := set_ProcessID (set_LastExit p1 now) 0 in
  let '(c1, _) := UpdateStatus c p2 in
  (c1, quit_sent).

End Marshal.

End client.

(** ** Queue drainer ([MessageQueueManager]) *)

Module drainer.

Import Store.

Inductive Pause := SleepPollTime | SleepOneSecond.

Definition bad_status (e : string) : bool :=
  strings.Contains e "500 Internal Server Error"
  || strings.Contains e "400 Bad Request".

Section WithEnv.
Variable W : Type.
Variable env : comms.Env W.

(** [json.Marshal] of the message list. *)
Variable Marshal_strings : list string -> string * error.

(** The deletion every branch of the loop uses; its count and its error
    are only logged. *)
Definition remove_messages (db : Database) (rowIds : list Z) : Outcome Database :=
  match MessageQueueDelete db rowIds with
  | Returns (db', _) => Returns db'
  | Panics m => Panics m
  | Fatal m => Fatal m
  end.

(** One turn of the loop of [MessageQueueManager], up to and including the
    choice of the sleep. *)
Definition drain_once (w : W) (s : comms.Sender) (db : Database)
  : Outcome (W * Database * Pause) :=
  let '(db1, (messages, rowIds, _)) := MessageQueueSelectURI db "/core/pluginlog/" in
  if len messages =? 0 then
    let '(db2, _) := Vacuum db1 in Returns (w, db2, SleepPollTime)
  else
    match Marshal_strings messages with
    | (_, Some _) =>
        match remove_messages db1 rowIds with
        | Returns db2 => Returns (w, db2, SleepPollTime)
        | Panics m => Panics m
        | Fatal m => Fatal m
        end
    | (msgBytes, None) =>
        match comms.Send env w s msgBytes "/core/pluginlog/" with
        | Panics m => Panics m
        | Fatal m => Fatal m
        | Returns (w1, (_, err)) =>
            let after : Outcome Database :=
              match err with
              | Some e => if bad_status e then remove_messages db1 rowIds
                          else Returns db1
              | None => remove_messages db1 rowIds
              end in
            match after with
            | Panics m => Panics m
            | Fatal m => Fatal m
            | Returns db2 =>
                if 100 <=? len messages then Returns (w1, db2, SleepOneSecond)
                else let '(db3, _) := Vacuum db2 in Returns (w1, db3, SleepPollTime)
            end
        end
    end.

End WithEnv.

End drainer.

(** ** Supervisor ([PluginManager]) *)

Module supervisor.

Import Store client.

(** What one turn of the loop over the configured plugins decides. *)
Inductive Decision :=
| Launch          (* launchPlugin *)
| Resume          (* resumeManaging *)
| Neither         (* both flags stay false *)
| Continue.       (* [continue]: the rest of the turn is skipped *)

(** The mode blocks set the two flags in turn; [None] stands for
    [continue]. *)
Definition oneshot_block (plugin p : Plugin) (flags : bool * bool)
  : option (bool * bool) :=
  if String.eqb (Mode plugin) "oneshot" then
    if String.eqb (Status p) "" then Some (true, snd flags)
    else if String.eqb (Status p) "error" then
      if RetryFailure plugin then Some (true, snd flags) else None
    else Some flags
  else Some flags.

Definition persistent_block (running : bool * error) (currentManager : Z)
  (plugin p : Plugin) (flags : bool * bool) : option (bool * bool) :=
  if String.eqb (Mode plugin) "persistent" then
    match running with
    | (_, Some _) => None
    | (false, None) => Some (true, snd flags)
    | (true, None) =>
        if negb (CurrentManager p =? currentManager) then Some (fst flags, true)
        else Some flags
    end
  else Some flags.

Definition periodic_block (running : bool * error) (now : time.Time)
  (currentManager : Z) (plugin p : Plugin) (flags : bool * bool)
  : option (bool * bool) :=
  if String.eqb (Mode plugin) "periodic" then
    match running with
    | (_, Some _) => None
    | (false, None) =>
        if time.After now
    (time.Add (LastExit p) (time.Seconds (LaunchFrequency plugin)))
        then Some (true, snd flags) else Some flags
    | (true, None) =>
        if negb (CurrentManager p =? currentManager) then Some (fst flags, true)
        else Some flags
    end
  else Some flags.

(** The first half of a turn: load the stored record and decide. *)
Definition decide (c : Client) (os : OS) (now : time.Time) (currentManager : Z)
  (plugin : Plugin) : Decision :=
  match PluginSelectUUID (LocalDb c) (UUID plugin) with
  | (_, (_, Some _)) => Continue
  | (db1, (p, None)) =>
      let c1 := set_LocalDb c db1 in
      let plugin := set_ProcessID plugin (ProcessID p) in
      let running := snd (IsRunning c1 os plugin) in
      match oneshot_block plugin p (false, false) with
      | None => Continue
      | Some f1 =>
 match persistent_block running currentManager plugin p f1 with
 | None => Continue
 | Some f2 =>
     match periodic_block running now currentManager plugin p f2 with
     | None => Continue
     | Some (true, _) => Launch
     | Some (false, true) => Resume
     | Some (false, false) => Neither
     end
 end
      end
  end.

(** The inner search for the uuid among the configured plugins. *)
Definition found_in (config : list Plugin) (runningPlugin : Plugin) : bool :=
  existsb (fun plugin => String.eqb (UUID plugin) (UUID runningPlugin)) config.

(** The kill of the removal branch; it reads the record [p] of the turn.
    The result is the pid that [process.Kill] is called on, if any. *)
Definition kill_target (os : OS) (p runningPlugin : Plugin) : option Z :=
  if negb (ProcessID runningPlugin =? 0) then
    match fst (FindProcess os (ProcessID p)) with
    | None => None
    | Some (pid, exe) =>
        if String.eqb exe (ProcessName p) then
          (* os.FindProcess finds what ps.FindProcess just found *)
          Some pid
        else None
    end
  else None.

(** The loop over the records with status running.  [kills] collects the
    pids killed, in order. *)
Fixpoint collect (config : list Plugin) (os : OS) (p : Plugin)
  (runningPlugins : list Plugin) (c : Client) (kills : list Z)
  : Client * list Z :=
  match runningPlugins with
  | [] => (c, kills)
  | runningPlugin :: rest =>
      if negb (found_in config runningPlugin) then
 let kills' := match kill_target os p runningPlugin with
               | Some pid => kills ++ [pid]
               | None => kills
               end in
 let r := set_Status runningPlugin "complete" "removed from configuration" in
 let '(db1, _) := PluginInsert (LocalDb c) r in
 collect config os p rest (set_LocalDb c db1) kills'
      else collect config os p rest c kills
  end.

(** The second half of a turn: list the running records and remove those
    that are not configured.  [p] is the record loaded for the plugin of
    this turn. *)
Definition garbage_collect (config : list Plugin) (os : OS) (p : Plugin) (c : Client)
  : Client * list Z :=
  match PluginSelectStatus (LocalDb c) "running" with
  | (db1, (_, Some _)) => (set_LocalDb c db1, [])
  | (db1, (runningPlugins, None)) =>
      collect config os p runningPlugins (set_LocalDb c db1) []
  end.

End supervisor.

(** ** Throttler ([MonitorCpu]) *)

Module throttle.

(** Calls made on the throttled process, with their success. *)
Inductive Call :=
| SuspendCall (ok : bool)
| SleepCall (d : time.Duration)
| ResumeCall (ok : bool).

(** The float arithmetic of the throttler is kept abstract. *)
Record FloatOps := {
  F : Type;
  of_int : Z -> F;
  fmul : F -> F -> F;
  fdiv : F -> F -> F;
  fsub : F -> F -> F;
  fis_zero : F -> bool;
  f_lit : string -> F;        (* a float literal, by its source text *)
  to_duration : F -> time.Duration
}.

Definition wrap32u (z : Z) : Z := z mod 2 ^ 32.

(** plugins_darwin.go *)
Module darwin.

Record Throttle := {
  TargetCpu : Z;
  NumCPU : Z;
  sleepDuration : time.Duration
}.

(** What the process library answers during one call of [ThrottleCpu]. *)
Record Tick (fl : FloatOps) := {
  percent : F fl * error;
  suspend_err : error;
  resume_err : error
}.

Arguments percent {fl} _.
Arguments suspend_err {fl} _.
Arguments resume_err {fl} _.

Section WithFloats.
Variable fl : FloatOps.
Variable runtime_NumCPU : Z.

Definition ThrottleCpu (t : Throttle) (k : Tick fl) : Throttle * list Call * error :=
  let numCPU := if NumCPU t =? 0 then runtime_NumCPU else NumCPU t in
  let sleep0 := if sleepDuration t =? 0 then time.Millisecond * 1 else sleepDuration t in
  let t1 := {| TargetCpu := TargetCpu t; NumCPU := numCPU; sleepDuration := sleep0 |} in
  match percent k with
  | (_, Some e) => (t1, [], Some e)
  | (pct, None) =>
      let currentCpu := fdiv fl pct (of_int fl numCPU) in
      let currentCpu := if fis_zero fl currentCpu then f_lit fl "1.0" else currentCpu in
      let currentCpu := fmul fl (f_lit fl "1.2") currentCpu in
      let ratio := fdiv fl currentCpu (of_int fl (TargetCpu t)) in
      let sleep1 :=
        to_duration fl
          (fmul fl (of_int fl (time.wrap64 (sleep0 + time.Millisecond))) ratio) in
      let t2 := {| TargetCpu := TargetCpu t; NumCPU := numCPU; sleepDuration := sleep1 |} in
      match suspend_err k with
      | Some e => (t2, [SuspendCall false], Some e)
      | None =>
          match resume_err k with
          | Some e => (t2, [SuspendCall true; SleepCall sleep1; ResumeCall false], Some e)
          | None => (t2, [SuspendCall true; SleepCall sleep1; ResumeCall true], None)
          end
      end
  end.

(** The loop of [MonitorCpu]: each element of [ticks] is one pass through
    the [default] branch; when the list is used up the value sent on [quit]
    is received and the function returns [nil]. *)
Fixpoint monitor_loop (t : Throttle) (ticks : list (Tick fl)) (calls : list Call)
  : list Call * error :=
  match ticks with
  | [] => (* case <-quit: return nil *) (calls, None)
  | k :: rest =>
      let '(t1, made, _) := ThrottleCpu t k in
      (* time.Sleep(200ms) *)
      monitor_loop t1 rest (calls ++ made)
  end.

Definition MonitorCpu (ticks : list (Tick fl)) (pid : Z) (cpuLimit : Z)
  : list Call * error :=
  monitor_loop {| TargetCpu := cpuLimit; NumCPU := runtime_NumCPU; sleepDuration := 0 |}
               ticks [].

End WithFloats.
End darwin.

(** plugins_windows.go *)
Module windows.

Record Throttle (fl : FloatOps) := {
  TargetCpu : F fl;
  sleepDuration : time.Duration;
  prevProcTime : F fl;
  prevTickCount : Z
}.

Arguments TargetCpu {fl} _.
Arguments sleepDuration {fl} _.
Arguments prevProcTime {fl} _.
Arguments prevTickCount {fl} _.

(** What the system answers during one call of [ThrottleCpu]: the error of
    reading or converting the process times, or the kernel plus user time
    in milliseconds, and the tick count. *)
Record Tick (fl : FloatOps) := {
  proc_time : F fl + string;
  tick_count : Z
}.

Arguments proc_time {fl} _.
Arguments tick_count {fl} _.

Section WithFloats.
Variable fl : FloatOps.
Variable runtime_NumCPU : Z.

Definition ThrottleCpu (tt : Throttle fl) (k : Tick fl)
  : Throttle fl * list Call * error :=
  match proc_time k with
  | inr e => (tt, [], Some e)
  | inl currProcTime =>
      let currTickCount := wrap32u (tick_count k) in
      let sleep1 :=
        if negb (fis_zero fl (prevProcTime tt)) then
          let cpuPercent :=
            fdiv fl
              (fmul fl
                 (fdiv fl (fsub fl currProcTime (prevProcTime tt))
                          (of_int fl (wrap32u (currTickCount - prevTickCount tt))))
                 (of_int fl 100))
              (of_int fl runtime_NumCPU) in
          let cpuPercent := fmul fl (f_lit fl "1.2") cpuPercent in
          let ratio := fdiv fl cpuPercent (TargetCpu tt) in
          to_duration fl
            (fmul fl (of_int fl (time.wrap64 (sleepDuration tt + time.Millisecond))) ratio)
        else sleepDuration tt in
      let tt1 := {| TargetCpu := TargetCpu tt; sleepDuration := sleep1;
                    prevProcTime := currProcTime; prevTickCount := currTickCount |} in
      (* the results of NtSuspendProcess and NtResumeProcess are not looked at *)
      (tt1, [SuspendCall true; SleepCall sleep1; ResumeCall true], None)
  end.

Fixpoint monitor_loop (tt : Throttle fl) (ticks : list (Tick fl)) (calls : list Call)
  : list Call * error :=
  match ticks with
  | [] => (* case <-quit: return nil *) (calls, None)
  | k :: rest =>
      let '(tt1, made, _) := ThrottleCpu tt k in
      monitor_loop tt1 rest (calls ++ made)
  end.

(** [open_err] is the error of [OpenProcess]; with it [MonitorCpu] returns
    before the loop. *)
Definition MonitorCpu (open_err : error) (ticks : list (Tick fl)) (pid : Z) (cpuLimit : Z)
  : list Call * error :=
  match open_err with
  | Some e => ([], Some e)
  | None =>
      monitor_loop {| TargetCpu := of_int fl cpuLimit;
                      sleepDuration := time.Millisecond * 10;
                      prevProcTime := of_int fl 0; prevTickCount := 0 |}
                   ticks []
  end.

End WithFloats.
End windows.

End throttle.

(** ** Vocabulary of the statements and the inputs of the examples *)

Module Spec.

Import Store.

Definition nonempty (s : string) : bool := negb (String.eqb s "").
Definition nonzero (z : Z) : bool := negb (z =? 0).

(** The messages and rowids a select returns. *)
Definition selected (db : Database) (uri : string) : list string * list Z :=
  fst (snd (MessageQueueSelectURI db uri)).

Definition select_error (db : Database) (uri : string) : error :=
  snd (snd (MessageQueueSelectURI db uri)).

Definition queue3 : Database :=
  {| DbName := "ghost.db"; fault := None; plugins := [];
     message_queue :=
       [ {| post_string := "b"; post_uri := "/core/other/"; rowid := 7 |};
         {| post_string := ""; post_uri := "/core/pluginlog/"; rowid := 3 |};
         {| post_string := "a"; post_uri := "/core/pluginlog/"; rowid := 5 |} ];
     rolling_queue := true |}.

(** *** The drainer *)

Section DrainVocabulary.
Variable W : Type.
Variable env : comms.Env W.
Variable Marshal_strings : list string -> string * error.

Definition pluginlog : string := "/core/pluginlog/".

(** The status code of the answer to the POST that [Send] makes, when
    there is an answer. *)
Definition posted_status (w : W) (s : comms.Sender) (message uri : string) : option Z :=
  match comms.Marshal_envelope env (comms.Sign env message) message with
  | (_, Some _) => None
  | (payloadJSON, None) =>
      match comms.Do env w
              {| comms.Method := "POST";
                 comms.URL := (strings.TrimSlash (comms.ControllerURL s) ++ "/"
                                 ++ strings.TrimSlash uri ++ "/")%string;
                 comms.ProxyURL := comms.transport_proxy (comms.Proxy s);
                 comms.Body := payloadJSON |} with
      | (_, comms.Response code _ _) => Some code
      | (_, comms.DoError _) => None
      end
  end.

(** [Send] returned without error. *)
Definition post_succeeded (w : W) (s : comms.Sender) (message uri : string) : Prop :=
  exists w1 resp, comms.Send env w s message uri = Returns (w1, (resp, None)).

(** No rowid of the batch is left in the table. *)
Definition batch_deleted (rowIds : list Z) (db' : Database) : Prop :=
  forall id, In id rowIds -> ~ In id (map rowid (message_queue db')).

(** The drainer's rule as the specification words it: the rowids of the
    batch are deleted exactly when the POST succeeded or was answered with
    status 400 or 500, and otherwise the table is left as it was. *)
Definition drain_rule_by_status_code (w : W) (s : comms.Sender) (db : Database) : Prop :=
  forall msgBytes w1 db' pause,
    Marshal_strings (fst (selected db pluginlog)) = (msgBytes, None) ->
    drainer.drain_once env Marshal_strings w s db = Returns (w1, db', pause) ->
    (batch_deleted (snd (selected db pluginlog)) db'
     <-> (post_succeeded w s msgBytes pluginlog
          \/ posted_status w s msgBytes pluginlog = Some 400
          \/ posted_status w s msgBytes pluginlog = Some 500))
    /\ (~ batch_deleted (snd (selected db pluginlog)) db' ->
        message_queue db' = message_queue db).

End DrainVocabulary.

(** A controller that answers every request with status 500 and the
    reason phrase in capitals. *)
Definition env_upper_500 : comms.Env unit :=
  {| comms.NewRequest_error := fun _ => None;
     comms.Do := fun w _ =>
       (w, comms.Response 500 "500 INTERNAL SERVER ERROR" (comms.BodyBytes ""));
     comms.Unmarshal := fun _ => inr "unexpected end of JSON input";
     comms.Marshal_envelope := fun sig msg => (msg, None);
     comms.Sign := fun _ => "";
     comms.VerifyResponse := fun _ _ => false |}.

(** A controller that answers every request with the standard status line
    of code 500. *)
Definition env_std_500 : comms.Env unit :=
  {| comms.NewRequest_error := fun _ => None;
     comms.Do := fun w _ =>
       (w, comms.Response 500 "500 Internal Server Error" (comms.BodyBytes ""));
     comms.Unmarshal := fun _ => inr "unexpected end of JSON input";
     comms.Marshal_envelope := fun sig msg => (msg, None);
     comms.Sign := fun _ => "";
     comms.VerifyResponse := fun _ _ => false |}.

Definition marshal_list (l : list string) : string * error :=
  (("[" ++ String.concat "," l ++ "]")%string, None).

Definition sender0 : comms.Sender :=
  {| comms.ControllerURL := "https://controller.example/";
     comms.Proxy := ""; comms.ClientUUID := "c-1" |}.

(** *** Endpoint failover *)

Section ConnVocabulary.
Variable W : Type.
Variable env : comms.Env W.

Definition conntest_request (s : comms.Sender) : comms.Request :=
  {| comms.Method := "GET";
     comms.URL := (comms.ControllerURL s ++ "/core/conntest/")%string;
     comms.ProxyURL := comms.transport_proxy (comms.Proxy s);
     comms.Body := "" |}.

Definition body_text (b : comms.BodyRead) : string :=
  match b with comms.ReadError _ => "" | comms.BodyBytes t => t end.

(** The conntest check for the pair held by [s], made in world [w], was
    answered with a [status] of [success] and left the world at [w']. *)
Definition conntest_success (w w' : W) (s : comms.Sender) : Prop :=
  exists code st body m,
    comms.Do env w (conntest_request s) = (w', comms.Response code st body)
    /\ comms.Unmarshal env (body_text body) = inl m
    /\ comms.lookup m "status" = "success".


End ConnVocabulary.

(** The sender as [TestConnection] leaves it. *)
Definition trimmed (s : comms.Sender) : comms.Sender :=
  comms.set_ControllerURL s (strings.TrimSuffixSlash (comms.ControllerURL s)).

(** The pairs the log says were tested, in order. *)
Fixpoint tested (log : list comms.LogLine) : list (string * string) :=
  match log with
  | [] => []
  | comms.Testing u p :: log' => (u, p) :: tested log'
  | comms.Updating _ _ :: log' => tested log'
  end.

Definition real_proxy (p : string) : bool :=
  negb (String.eqb p "") && negb (String.eqb (strings.ToLower p) "none").

(** The proxies to try against one controller, [cur] being the proxy
    selected when its turn comes: the selected proxy, then no proxy (unless
    the selected one already is none), then each proxy of the list. *)
Definition candidates (cur : string) (proxyList : list string) : list string :=
  cur :: (if real_proxy cur then [""] else []) ++ proxyList.

(** The pairs to try, controller by controller in list order.  The proxy
    selected when a later controller's turn comes is the one tried last. *)
Fixpoint plan (cur : string) (proxyList controllerList : list string)
  : list (string * string) :=
  match controllerList with
  | [] => []
  | C :: rest =>
      map (pair C) (candidates cur proxyList)
      ++ plan (List.last (candidates cur proxyList) cur) proxyList rest
  end.

(** Controller URLs are compared without their trailing slashes. *)
Definition norm (l : list (string * string)) : list (string * string) :=
  map (fun cp => (strings.TrimRightSlash (fst cp), snd cp)) l.


(** No controller can be reached. *)
Definition env_down : comms.Env unit :=
  {| comms.NewRequest_error := fun _ => None;
     comms.Do := fun w _ => (w, comms.DoError "connection refused");
     comms.Unmarshal := fun _ => inr "unexpected end of JSON input";
     comms.Marshal_envelope := fun sig msg => (msg, None);
     comms.Sign := fun _ => "";
     comms.VerifyResponse := fun _ _ => true |}.

Definition sender_old : comms.Sender :=
  {| comms.ControllerURL := "https://old/"; comms.Proxy := "http://P0";
     comms.ClientUUID := "c-1" |}.

(** *** Supervisor *)

Definition marshal_plugin (p : Plugin) : string * error :=
  (("{plugin_uuid:" ++ UUID p ++ ",status:" ++ Status p ++ "}")%string, None).

Definition t0 : time.Time := {| time.sec := 63000000000; time.nsec := 0 |}.

(** Plugin A is configured; plugin B is not. *)
Definition pluginA : Plugin :=
  {| Name := "a"; Mode := "persistent"; LaunchFrequency := 0; UUID := "uuid-a";
     WorkingDirectory := "a"; Command := "a.exe"; Args := [];
     ResourceFiles := []; CPULimit := 10; RetryFailure := false;
     Status := ""; StatusMessage := ""; ProcessName := ""; ProcessID := 0;
     LastStart := time.zero; LastExit := time.zero; CurrentManager := 0 |}.

Definition rowA : PluginRow :=
  {| uuid := "uuid-a"; name := "a"; mode := "persistent";
     process_name := "a.exe"; process_id := 100; current_manager := 1;
     status := "running"; status_message := "running";
     last_exit := time.zero; last_start := t0; plugin_rowid := 1 |}.

Definition rowB : PluginRow :=
  {| uuid := "uuid-b"; name := "b"; mode := "persistent";
     process_name := "b.exe"; process_id := 200; current_manager := 1;
     status := "running"; status_message := "running";
     last_exit := time.zero; last_start := t0; plugin_rowid := 2 |}.

Definition db_AB : Database :=
  {| DbName := "ghost.db"; fault := None; plugins := [rowA; rowB];
     message_queue := []; rolling_queue := true |}.

Definition client_AB : client.Client :=
  {| client.Offline := false; client.LocalDb := db_AB |}.

Definition os_AB : client.OS :=
  {| client.processes := [(1, "agent"); (100, "a.exe"); (200, "b.exe")];
     client.ps_error := None |}.

(** A periodic plugin whose launch frequency, in nanoseconds, does not fit
    an [int64]. *)
Definition pluginP : Plugin :=
  {| Name := "p"; Mode := "periodic"; LaunchFrequency := 9223372037; UUID := "uuid-p";
     WorkingDirectory := "p"; Command := "p.exe"; Args := [];
     ResourceFiles := []; CPULimit := 0; RetryFailure := false;
     Status := ""; StatusMessage := ""; ProcessName := ""; ProcessID := 0;
     LastStart := time.zero; LastExit := time.zero; CurrentManager := 0 |}.

Definition rowP : PluginRow :=
  {| uuid := "uuid-p"; name := "p"; mode := "periodic";
     process_name := "p.exe"; process_id := 0; current_manager := 1;
     status := "complete"; status_message := "complete";
     last_exit := t0; last_start := t0; plugin_rowid := 1 |}.

Definition client_P : client.Client :=
  {| client.Offline := true;
     client.LocalDb :=
       {| DbName := "ghost.db"; fault := None; plugins := [rowP];
          message_queue := []; rolling_queue := true |} |}.

(** One second after the exit recorded in [rowP]. *)
Definition t1 : time.Time := {| time.sec := 63000000001; time.nsec := 0 |}.

(** A well-formed instant: nanoseconds within the second, seconds within
    the years [time.Parse] accepts. *)
Definition wf_time (t : time.Time) : Prop :=
  0 <= time.nsec t < 1000000000 /\ 0 <= time.sec t < 2 ^ 40.

(** *** Throttler *)

(** A run of complete throttle cycles: a successful suspend is followed by
    the sleep and a resume call; a failed suspend stands alone. *)
Inductive cycles : list throttle.Call -> Prop :=
| cycles_nil : cycles []
| cycles_failed (l : list throttle.Call) :
    cycles l -> cycles (throttle.SuspendCall false :: l)
| cycles_full (d : time.Duration) (ok : bool) (l : list throttle.Call) :
    cycles l ->
    cycles (throttle.SuspendCall true :: throttle.SleepCall d
              :: throttle.ResumeCall ok :: l).

(** The last call made on the process is a resume. *)
Definition ends_with_resume (calls : list throttle.Call) : Prop :=
  exists pre ok, calls = pre ++ [throttle.ResumeCall ok].

Definition unit_floats : throttle.FloatOps :=
  {| throttle.F := unit;
     throttle.of_int := fun _ => tt;
     throttle.fmul := fun _ _ => tt;
     throttle.fdiv := fun _ _ => tt;
     throttle.fsub := fun _ _ => tt;
     throttle.fis_zero := fun _ => false;
     throttle.f_lit := fun _ => tt;
     throttle.to_duration := fun _ => 1000000 |}.

End Spec.


(** ** Well-formed tables and further inputs *)

Module Inv.

Import Store.

(** The state of table [message_queue] that inserts produce: rowids from 1
    up, strictly increasing in table order. *)
Definition queue_wf (q : list QueueEntry) : Prop :=
  StronglySorted (fun a b => rowid a < rowid b) q
  /\ Forall (fun e => 1 <= rowid e) q.

(** Column [uuid] of table [plugins] is [UNIQUE]. *)
Definition plugins_wf (t : list PluginRow) : Prop := NoDup (map uuid t).

Definition queue_sorted3 : Database :=
  {| DbName := "ghost.db"; fault := None; plugins := [];
     message_queue :=
       [ {| post_string := "m1"; post_uri := "/core/pluginlog/"; rowid := 3 |};
         {| post_string := ""; post_uri := "/core/pluginlog/"; rowid := 5 |};
         {| post_string := "m3"; post_uri := "/core/pluginlog/"; rowid := 7 |} ];
     rolling_queue := true |}.

(** Only rows without payload. *)
Definition queue_blank : Database :=
  {| DbName := "ghost.db"; fault := None; plugins := [];
     message_queue :=
       [ {| post_string := ""; post_uri := "/core/pluginlog/"; rowid := 1 |};
         {| post_string := ""; post_uri := "/core/pluginlog/"; rowid := 2 |} ];
     rolling_queue := true |}.

(** A controller that accepts every POST with a verified answer. *)
Definition env_accepts : comms.Env unit :=
  {| comms.NewRequest_error := fun _ => None;
     comms.Do := fun w _ => (w, comms.Response 200 "200 OK" (comms.BodyBytes "ok"));
     comms.Unmarshal := fun _ => inl [("jsonString", "{}"); ("SIGNATURE", "c2ln")];
     comms.Marshal_envelope := fun sig msg => (msg, None);
     comms.Sign := fun _ => "";
     comms.VerifyResponse := fun _ _ => true |}.

End Inv.

(** ** Vocabulary for the plugin table *)

Module PluginSpec.

Import Store.

(** What is read back of a plugin that was written: the columns, with the
    fields that are not columns at their zero value. *)
Definition persisted (p : Plugin) : Plugin := plugin_of_row (row_of_plugin p 0).

Definition has_uuid (id : string) (r : PluginRow) : bool := String.eqb (uuid r) id.

(** The [UPDATE ... WHERE uuid=?] of [PluginInsert]. *)
Definition upsert_rows (p : Plugin) (t : list PluginRow) : list PluginRow :=
  map (fun r => if String.eqb (uuid r) (UUID p)
                then row_of_plugin p (plugin_rowid r) else r) t.

(** The record the supervisor's sweep writes for a row it removes. *)
Definition swept (r : PluginRow) : PluginRow :=
  {| uuid := uuid r; name := name r; mode := mode r;
     process_name := process_name r; process_id := process_id r;
     current_manager := 0; status := "complete";
     status_message := "removed from configuration";
     last_exit := last_exit r; last_start := last_start r;
     plugin_rowid := plugin_rowid r |}.

(** The rows the sweep removes: status like [%running%], a uuid, and no
    configured plugin of that uuid. *)
Definition to_sweep (config : list Plugin) (r : PluginRow) : bool :=
  Sql.like (status r) "%running%"
  && negb (String.eqb (uuid r) "")
  && negb (existsb (fun plugin => String.eqb (UUID plugin) (uuid r)) config).

Definition pluginQ : Plugin :=
  {| Name := "q"; Mode := "oneshot"; LaunchFrequency := 0; UUID := "uuid-q";
     WorkingDirectory := "q"; Command := "q.exe"; Args := ["-x"];
     ResourceFiles := []; CPULimit := 25; RetryFailure := true;
     Status := "running"; StatusMessage := "running"; ProcessName := "q.exe";
     ProcessID := 300; LastStart := Spec.t0; LastExit := time.zero;
     CurrentManager := 7 |}.

End PluginSpec.

(** ** Vocabulary for the supervisor *)

Module SupervisorSpec.

Import Store client.

(** The record the turn loads for a configured plugin. *)
Definition stored (c : Client) (plugin : Plugin) : Plugin :=
  fst (snd (PluginSelectUUID (LocalDb c) (UUID plugin))).

(** The answer of [IsRunning] for it. *)
Definition is_running (c : Client) (os : OS) (plugin : Plugin) : bool :=
  fst (snd (IsRunning c os plugin)).

(** A persistent plugin adopted from an agent with another pid. *)
Definition pluginA_stored_foreign : Client :=
  {| Offline := false;
     LocalDb :=
       {| DbName := "ghost.db"; fault := None;
          plugins := [Spec.rowA]; message_queue := []; rolling_queue := true |} |}.

(** A periodic plugin that exited at [t0] and runs every ten seconds. *)
Definition pluginP10 : Plugin :=
  {| Name := "p"; Mode := "periodic"; LaunchFrequency := 10; UUID := "uuid-p";
     WorkingDirectory := "p"; Command := "p.exe"; Args := [];
     ResourceFiles := []; CPULimit := 0; RetryFailure := false;
     Status := ""; StatusMessage := ""; ProcessName := ""; ProcessID := 0;
     LastStart := time.zero; LastExit := time.zero; CurrentManager := 0 |}.

(** Five and eleven seconds after [t0]. *)
Definition t5 : time.Time := {| time.sec := 63000000005; time.nsec := 0 |}.
Definition t11 : time.Time := {| time.sec := 63000000011; time.nsec := 0 |}.

End SupervisorSpec.

Module SweepSpec.

Import Store client supervisor.

(** What [PluginSelectStatus] makes of a row. *)
Definition conv (r : PluginRow) : Plugin := set_CurrentManager (plugin_of_row r) 0.

(** The record written for a removed plugin. *)
Definition done (rp : Plugin) : Plugin :=
  set_Status rp "complete" "removed from configuration".

(** The effect of one pass of the removal loop on one row. *)
Definition sweep_step (config : list Plugin) (rp : Plugin) (r : PluginRow) : PluginRow :=
  if found_in config rp then r
  else if String.eqb (uuid r) (UUID rp)
       then row_of_plugin (done rp) (plugin_rowid r) else r.

Fixpoint sweep_all (config : list Plugin) (L : list Plugin) (r : PluginRow) : PluginRow :=
  match L with
  | [] => r
  | rp :: L' => sweep_all config L' (sweep_step config rp r)
  end.

Definition running_row (r : PluginRow) : bool :=
  Sql.like (status r) "%running%" && negb (String.eqb (uuid r) "").

End SweepSpec.

(** ** Transport, continued: [Get] and [GetResource] *)

Module transport.

Import comms.

Section WithEnv.
Variable W : Type.
Variable env : Env W.

(** [fmt.Sprintf("%s/%s/", strings.Trim(ControllerURL, "/"), strings.Trim(uri, "/"))] *)
Definition request_url (s : Sender) (uri : string) : string :=
  (strings.TrimSlash (ControllerURL s) ++ "/" ++ strings.TrimSlash uri ++ "/")%string.

Definition post_request (s : Sender) (uri payloadJSON : string) : Request :=
  {| Method := "POST"; URL := request_url s uri;
     ProxyURL := transport_proxy (Proxy s); Body := payloadJSON |}.

Definition get_request (s : Sender) (uri : string) : Request :=
  {| Method := "GET"; URL := request_url s uri;
     ProxyURL := transport_proxy (Proxy s); Body := "" |}.

(** What [Send] and [Get] both do with the result of [httpClient.Do]: read
    the body, insist on status 200, decode the envelope and verify its
    signature. *)
Definition answer (r : W * DoResult) : W * (string * error) :=
  match r with
  | (w1, DoError e) => (w1, ("", Some ("NETWORK ERROR: " ++ e)%string))
  | (w1, Response code st (ReadError e)) =>
      (w1, ("", Some ("Unable to read body response: " ++ e)%string))
  | (w1, Response code st (BodyBytes b)) =>
      if negb (code =? 200) then
        (w1, ("", Some ("Received bad status: " ++ st)%string))
      else
        match Unmarshal env b with
        | inr e => (w1, ("", Some ("Unable to unmarshal payload map: " ++ e)%string))
        | inl payloadMap =>
            if VerifyResponse env (lookup payloadMap "jsonString")
                              (lookup payloadMap "SIGNATURE")
            then (w1, (lookup payloadMap "jsonString", None))
            else (w1, ("", Some "unable to verify response signature"))
        end
  end.

(** [Get]: an unsigned GET whose answer is verified like that of [Send].
    A URL that cannot be made into a request is fatal here. *)
Definition Get (w : W) (s : Sender) (uri : string) : Outcome (W * (string * error)) :=
  match NewRequest_error env (request_url s uri) with
  | Some e => Fatal ("Error creating request: " ++ e)%string
  | None => Returns (answer (Do env w (get_request s uri)))
  end.

(** [base64.StdEncoding.DecodeString]: the bytes or the error text. *)
Variable DecodeString : string -> string + string.

(** [GetResource]: [Send] of an empty message to [/core/resource/<hash>/],
    then the [content] entry of the answer, base-64 decoded. *)
Definition GetResource (w : W) (s : Sender) (resourceHash : string)
  : Outcome (W * (string * error)) :=
  let uri := ("/core/resource/" ++ resourceHash ++ "/")%string in
  match Send env w s "" uri with
  | Panics m => Panics m
  | Fatal m => Fatal m
  | Returns (w1, (_, Some e)) => Returns (w1, ("", Some e))
  | Returns (w1, (respString, None)) =>
      match Unmarshal env respString with
      | inr e => Returns (w1, ("", Some e))
      | inl respMap =>
          match DecodeString (lookup respMap "content") with
          | inr e => Returns (w1, ("", Some e))
          | inl content => Returns (w1, (content, None))
          end
      end
  end.

End WithEnv.

(** A world that counts the requests made. *)
Definition env_resource : Env nat :=
  {| NewRequest_error := fun _ => None;
     Do := fun n _ => (S n, Response 200 "200 OK" (BodyBytes "envelope"));
     Unmarshal := fun b =>
       if String.eqb b "envelope"
       then inl [("jsonString", "inner"); ("SIGNATURE", "c2ln")]
       else if String.eqb b "inner" then inl [("content", "aGk=")]
       else inr "invalid character";
     Marshal_envelope := fun sig msg => (msg, None);
     Sign := fun _ => "";
     VerifyResponse := fun js _ => String.eqb js "inner" |}.

Definition decode_hi (s : string) : string + string :=
  if String.eqb s "aGk=" then inl "hi" else inr "illegal base64 data".

End transport.

(** ** Proxy discovery ([FindProxies]) *)

Module proxies.

(** [s[:n]]: panics when [n] exceeds the length. *)
Definition slice_to (s : string) (n : nat) : Outcome string :=
  if Nat.leb n (String.length s) then Returns (String.substring 0 n s)
  else Panics "runtime error: slice bounds out of range".

Definition http_prefix (Proxy : string) : string := ("http://" ++ Proxy)%string.

(** The body of the formatting loop of the POSIX [FindProxies] for one
    key of the map; [None] stands for [continue]. *)
Definition format_posix (Proxy : string) : Outcome (option string) :=
  if Nat.eqb (String.length Proxy) 0 then Returns None
  else if Nat.ltb (String.length Proxy) 7 then Returns (Some (http_prefix Proxy))
  else
    match slice_to Proxy 7 with
    | Panics m => Panics m
    | Fatal m => Fatal m
    | Returns p7 =>
        if negb (String.eqb p7 "http://") then
          (* the right operand of [&&] is evaluated *)
          match slice_to Proxy 8 with
          | Panics m => Panics m
          | Fatal m => Fatal m
          | Returns p8 =>
              if negb (String.eqb p8 "https://") then Returns (Some (http_prefix Proxy))
              else Returns (Some Proxy)
          end
        else Returns (Some Proxy)
    end.

(** The keys of the map the four variables are put into, as a list without
    repetition. *)
Fixpoint dedupe (l : list string) : list string :=
  match l with
  | [] => []
  | x :: l' => if existsb (String.eqb x) l' then dedupe l' else x :: dedupe l'
  end.

(** The loop over the keys, in the order [keys] the runtime ranges over
    them. *)
Fixpoint format_all (keys : list string) (proxies : list string)
  : Outcome (list string) :=
  match keys with
  | [] => Returns proxies
  | Proxy :: rest =>
      match format_posix Proxy with
      | Panics m => Panics m
      | Fatal m => Fatal m
      | Returns None => format_all rest proxies
      | Returns (Some p) => format_all rest (proxies ++ [p])
      end
  end.

(** The POSIX [FindProxies].  [getenv] is the environment; [range] is the
    order in which the runtime ranges over a map's keys, which Go leaves
    unspecified. *)
Definition FindProxies (getenv : string -> string) (range : list string -> list string)
  : Outcome (list string) :=
  format_all
    (range (dedupe [getenv "http_proxy"; getenv "https_proxy";
                    getenv "HTTP_PROXY"; getenv "HTTPS_PROXY"]))
    [].

(** The formatting loop of the Windows [FindProxies] for one key. *)
Definition format_windows (Proxy : string) : Outcome string :=
  if Nat.ltb (String.length Proxy) 7 then Returns (http_prefix Proxy)
  else
    match slice_to Proxy 7 with
    | Panics m => Panics m
    | Fatal m => Fatal m
    | Returns p7 =>
        if negb (String.eqb p7 "http://") then Returns (http_prefix Proxy)
        else Returns Proxy
    end.

(** The values of the four variables the POSIX [FindProxies] reads. *)
Definition env_values (getenv : string -> string) : list string :=
  [getenv "http_proxy"; getenv "https_proxy"; getenv "HTTP_PROXY"; getenv "HTTPS_PROXY"].

Definition prefixed (r : string) : Prop :=
  strings.HasPrefix r "http://" = true \/ strings.HasPrefix r "https://" = true.

Definition nonblank (v : string) : bool := negb (Nat.eqb (String.length v) 0).

(** A value the POSIX formatting gets through: anything but a string of
    exactly seven bytes other than [http://]. *)
Definition passes (v : string) : Prop :=
  String.length v <> 7%nat \/ v = "http://".

(** An environment with a seven-byte proxy. *)
Definition env_seven (name : string) : string :=
  if String.eqb name "http_proxy" then "px:8080" else "".

Definition env_posix (name : string) : string :=
  if String.eqb name "http_proxy" then "proxy.corp:3128"
  else if String.eqb name "HTTPS_PROXY" then "https://secure.corp:3129"
  else "".

End proxies.

(** ** The key store *)

Module keystore.

Import Store.

(** A row of table [key_store]; column [key] is [UNIQUE]. *)
Record KeyRow := {
  key : string;
  data : string;
  key_rowid : Z
}.

(** The database with its third table. *)
Record KDatabase := {
  base : Database;
  key_store : list KeyRow
}.

Definition set_key_store (db : KDatabase) (t : list KeyRow) : KDatabase :=
  {| base := base db; key_store := t |}.

Definition KeyStoreCreateTable (db : KDatabase) : error := Prepare (base db).

Definition has_key (k : string) (r : KeyRow) : bool := String.eqb (key r) k.

(** [KeyStoreInsert]: [UPDATE key_store SET data=? WHERE key=?], then
    [INSERT OR IGNORE]; returns the error of the second [Exec]. *)
Definition KeyStoreInsert (db : KDatabase) (k d : string) : KDatabase * error :=
  match KeyStoreCreateTable db with
  | Some e => (db, Some e)
  | None =>
      match Prepare (base db) with
      | Some e => (db, Some e)
      | None =>
          let updated :=
            map (fun r => if has_key k r
                          then {| key := key r; data := d; key_rowid := key_rowid r |}
                          else r) (key_store db) in
          match Prepare (base db) with
          | Some e => (set_key_store db updated, Some e)
          | None =>
              let t' :=
                if existsb (has_key k) (key_store db) then updated
                else updated ++ [{| key := k; data := d;
                                    key_rowid := Sql.next_rowid key_rowid (key_store db) |}] in
              (set_key_store db t', None)
          end
      end
  end.

(** [KeyStoreDelete]: true when exactly one row was removed.  As in the
    rest of the store, [Exec] on a prepared statement is taken to succeed;
    the source reads [result.RowsAffected()] without looking at the error of
    [Exec]. *)
Definition KeyStoreDelete (db : KDatabase) (k : string) : KDatabase * (bool * error) :=
  match KeyStoreCreateTable db with
  | Some e => (db, (false, Some e))
  | None =>
      match Prepare (base db) with
      | Some e => (db, (false, Some e))
      | None =>
          let t' := filter (fun r => negb (has_key k r)) (key_store db) in
          let n := Sql.rows_affected (key_store db) t' in
          (set_key_store db t', (n =? 1, None))
      end
  end.

(** [KeyStoreSelect]: the data of the first row with that key, or the
    empty string. *)
Definition KeyStoreSelect (db : KDatabase) (k : string) : string * error :=
  match KeyStoreCreateTable db with
  | Some e => ("", Some e)
  | None =>
      match Prepare (base db) with
      | Some e => ("", Some e)
      | None =>
          match filter (has_key k) (key_store db) with
          | [] => ("", None)
          | r :: _ => (data r, None)
          end
      end
  end.

(** [KeyStoreGetSubkeys]: [WHERE key LIKE prefix + '%'].  The statement has
    no [ORDER BY]; the model lists the keys in table order, and the facts
    proved about it speak of membership only. *)
Definition KeyStoreGetSubkeys (db : KDatabase) (prefix : string) : list string * error :=
  match KeyStoreCreateTable db with
  | Some e => ([], Some e)
  | None =>
      match Prepare (base db) with
      | Some e => ([], Some e)
      | None =>
          (map key (filter (fun r => Sql.like (key r) (prefix ++ "%")%string)
                           (key_store db)), None)
      end
  end.

(** The [UPDATE key_store SET data=? WHERE key=?] of [KeyStoreInsert]. *)
Definition updated_rows (k d : string) (t : list KeyRow) : list KeyRow :=
  map (fun r => if has_key k r
                then {| key := key r; data := d; key_rowid := key_rowid r |}
                else r) t.

(** Column [key] is [UNIQUE]. *)
Definition keys_wf (t : list KeyRow) : Prop := NoDup (map key t).

(** A prefix without the wildcards of [LIKE]. *)
Definition no_wildcard (p : string) : bool :=
  forallb (fun c => negb (Ascii.eqb c "%" || Ascii.eqb c "_"))
          (list_ascii_of_string p).

Definition kdb0 : KDatabase :=
  {| base := Spec.queue3;
     key_store :=
       [ {| key := "client/uuid"; data := "c-1"; key_rowid := 1 |};
         {| key := "client/hostname"; data := "host"; key_rowid := 2 |};
         {| key := "initialized"; data := "true"; key_rowid := 3 |} ] |}.

End keystore.

(** ** The life of a plugin process ([SetError], [LaunchBinary], [ResumePlugin]) *)

Module lifecycle.

Import Store client.

(** [fmt.Sprintf("Plugin %v(%v): %v", p.Name, p.UUID, strings.Join(msg, ": "))] *)
Definition error_text (p : Plugin) (msg : list string) : string :=
  ("Plugin " ++ Name p ++ "(" ++ UUID p ++ "): " ++ String.concat ": " msg)%string.

(** The message of a nil dereference: [ps.FindProcess] answers [nil, nil]
    when no process has the pid, and [proc.Executable()] is then called on
    a nil interface. *)
Definition nil_dereference : string :=
  "runtime error: invalid memory address or nil pointer dereference".

Section Marshal.

Variable Marshal_plugin : Plugin -> string * error.

(** [SetError]: status [error] with the formatted text, [LastExit] now,
    then [UpdateStatus], whose error is dropped. *)
Definition SetError (c : Client) (now : time.Time) (p : Plugin) (msg : list string)
  : Client :=
  let p1 := set_Status p "error" (error_text p msg) in
  let p2 := set_LastExit p1 now in
  fst (UpdateStatus Marshal_plugin c p2).

(** [LaunchBinary] from the return of [cmd.Start] with process id [pid] to
    the first [UpdateStatus].  The plugin in the result is [p] as the rest
    of the function sees it; [None] when the function has returned. *)
Definition LaunchBinary_started (c : Client) (os : OS) (now : time.Time)
  (manager pid : Z) (p : Plugin) : Outcome (Client * option Plugin) :=
  let p1 := set_ProcessID (set_Status p "running" "running") pid in
  match FindProcess os pid with
  | (_, Some e) =>
      Returns (SetError c now p1 ["unable to get plugin process information"; e], None)
  | (None, None) => Panics nil_dereference
  | (Some (_, exe), None) =>
      let p2 := set_ProcessName p1 exe in
      let p3 := set_LastStart p2 now in
      let p4 := set_CurrentManager p3 manager in
      Returns (fst (UpdateStatus Marshal_plugin c p4), Some p4)
  end.

(** [ResumePlugin] up to its [UpdateStatus]. *)
Definition ResumePlugin_begin (c : Client) (os : OS) (now : time.Time)
  (manager : Z) (p : Plugin) : Outcome (Client * option Plugin) :=
  let p1 := set_Status p "running" "resuming control" in
  let p2 := set_CurrentManager p1 manager in
  match FindProcess os (ProcessID p2) with
  | (_, Some e) =>
      Returns (SetError c now p2 ["unable to get plugin process information"; e], None)
  | (None, None) => Panics nil_dereference
  | (Some (_, exe), None) =>
      let p3 := set_ProcessName p2 exe in
      Returns (fst (UpdateStatus Marshal_plugin c p3), Some p3)
  end.

End Marshal.

(** Plugin A as the supervisor hands it to [ResumePlugin]. *)
Definition pluginA_live : Plugin := set_ProcessID Spec.pluginA 100.

(** A process table that cannot be read. *)
Definition os_unreadable : OS :=
  {| processes := []; ps_error := Some "permission denied" |}.

End lifecycle.
(** * Properties *)

(** ** Facts about the relational helpers *)

Section SqlFacts.
Variable Row : Type.
Variable key : Row -> Z.

Abbreviation asc := (fun a b : Row => key a <= key b).

Lemma insert_row_perm (r : Row) (l : list Row) :
  Permutation (Sql.insert_row key r l) (r :: l).
Proof.
  induction l as [|x l IH]; simpl.
  - apply Permutation_refl.
  - destruct (key r <=? key x).
    + apply Permutation_refl.
    + eapply perm_trans; [apply perm_skip, IH | apply perm_swap].
Qed.

Lemma order_by_perm (l : list Row) : Permutation (Sql.order_by key l) l.
Proof.
  induction l as [|x l IH]; simpl.
  - constructor.
  - eapply perm_trans; [apply insert_row_perm | apply perm_skip, IH].
Qed.

Lemma order_by_length (l : list Row) :
  List.length (Sql.order_by key l) = List.length l.
Proof. apply Permutation_length, order_by_perm. Qed.

Lemma insert_row_sorted (r : Row) (l : list Row) :
  StronglySorted asc l -> StronglySorted asc (Sql.insert_row key r l).
Proof.
  induction 1 as [|x l Hs IH Hall]; simpl.
  - repeat constructor.
  - destruct (key r <=? key x) eqn:E.
    + apply Z.leb_le in E. constructor.
      * constructor; assumption.
      * constructor; [assumption|].
        eapply Forall_impl; [|exact Hall]. simpl; intros; lia.
    + apply Z.leb_gt in E. constructor; [exact IH|].
      eapply Permutation_Forall.
      * apply Permutation_sym, insert_row_perm.
      * constructor; [lia | exact Hall].
Qed.

Lemma order_by_sorted (l : list Row) : StronglySorted asc (Sql.order_by key l).
Proof.
  induction l; simpl; [constructor | apply insert_row_sorted; assumption].
Qed.

Lemma sorted_split (l1 l2 : list Row) :
  StronglySorted asc (l1 ++ l2) ->
  forall a b, In a l1 -> In b l2 -> key a <= key b.
Proof.
  induction l1 as [|x l1 IH]; simpl; intros Hs a b Ha Hb; [contradiction|].
  apply StronglySorted_inv in Hs. destruct Hs as [Hs Hall].
  destruct Ha as [<-|Ha].
  - rewrite Forall_forall in Hall. apply Hall, in_or_app. now right.
  - now apply IH.
Qed.

Lemma filter_perm (f : Row -> bool) (l l' : list Row) :
  Permutation l l' -> Permutation (filter f l) (filter f l').
Proof.
  induction 1; simpl.
  - constructor.
  - destruct (f x); [apply perm_skip|]; assumption.
  - destruct (f x), (f y); try apply Permutation_refl. apply perm_swap.
  - eapply perm_trans; eassumption.
Qed.

Lemma filter_nil_iff (f : Row -> bool) (l : list Row) :
  (forall x, In x l -> f x = false) -> filter f l = [].
Proof.
  induction l as [|x l IH]; simpl; intros H; [reflexivity|].
  rewrite (H x (or_introl eq_refl)). apply IH. intros; apply H; now right.
Qed.

(** After the trigger's delete at most [n] rows remain, whatever the table
    held. *)
Lemma delete_offset_length (n : nat) (q : list Row) :
  (List.length
     (Sql.delete_where_le key
        (Sql.scalar_at key n (Sql.order_by_desc key q)) q) <= n)%nat.
Proof.
  unfold Sql.scalar_at, Sql.order_by_desc.
  destruct (nth_error (rev (Sql.order_by key q)) n) as [pivot|] eqn:E; simpl.
  - destruct (nth_error_split _ _ E) as (l1 & l2 & Hrev & Hlen).
    set (f := fun r => negb (key r <=? key pivot)).
    assert (Hp : Permutation (filter f q) (filter f (l1 ++ pivot :: l2))).
    { apply filter_perm. rewrite <- Hrev.
      eapply perm_trans; [apply Permutation_sym, order_by_perm | apply Permutation_rev]. }
    rewrite (Permutation_length Hp), filter_app, length_app.
    assert (Hord : Sql.order_by key q = rev l2 ++ [pivot] ++ rev l1).
    { rewrite <- (rev_involutive (Sql.order_by key q)), Hrev, rev_app_distr.
      simpl. rewrite <- app_assoc. reflexivity. }
    assert (Hnil : filter f (pivot :: l2) = []).
    { apply filter_nil_iff. intros x Hx. unfold f.
      apply negb_false_iff, Z.leb_le.
      destruct Hx as [<-|Hx]; [lia|].
      pose proof (order_by_sorted q) as Hs. rewrite Hord in Hs.
      apply (sorted_split _ _ Hs).
      - now apply in_rev in Hx.
      - simpl. now left. }
    rewrite Hnil. simpl. rewrite Nat.add_0_r, <- Hlen. apply filter_length_le.
  - apply nth_error_None in E. rewrite length_rev, order_by_length in E. exact E.
Qed.

(** What the delete removes is older than what it keeps. *)
Lemma delete_where_le_oldest (v : option Z) (q : list Row) (d e : Row) :
  In d q -> ~ In d (Sql.delete_where_le key v q) ->
  In e (Sql.delete_where_le key v q) -> key d < key e.
Proof.
  destruct v as [k|]; simpl; intros Hd Hnd He; [|contradiction].
  apply filter_In in He. destruct He as [_ He].
  apply negb_true_iff, Z.leb_gt in He.
  destruct (key d <=? k) eqn:E.
  - apply Z.leb_le in E. lia.
  - exfalso. apply Hnd, filter_In. split; [assumption|]. now rewrite E.
Qed.

Lemma max_key_ge (x : Row) (l : list Row) :
  key x <= Sql.max_key key x l /\ forall r, In r l -> key r <= Sql.max_key key x l.
Proof.
  unfold Sql.max_key. induction l as [|y l [IH1 IH2]]; simpl.
  - split; [lia | contradiction].
  - split; [lia|]. intros r [<-|Hr]; [lia|]. specialize (IH2 r Hr). lia.
Qed.

(** The rowid of an inserted row is larger than every rowid in use. *)
Lemma next_rowid_fresh (l : list Row) (r : Row) :
  In r l -> key r < Sql.next_rowid key l.
Proof.
  destruct l as [|x l]; simpl; [contradiction|].
  destruct (max_key_ge x l) as [H1 H2].
  intros [<-|Hr]; [lia|]. specialize (H2 r Hr). lia.
Qed.

Lemma insert_row_last (x n : Row) (l : list Row) :
  key x <= key n ->
  Sql.insert_row key x (l ++ [n]) = Sql.insert_row key x l ++ [n].
Proof.
  intros Hx. induction l as [|y l IH]; simpl.
  - apply Z.leb_le in Hx. now rewrite Hx.
  - destruct (key x <=? key y); [reflexivity|]. now rewrite IH.
Qed.

(** A row whose rowid exceeds all others is the last of the ordered
    result. *)
Lemma order_by_last (n : Row) (l : list Row) :
  (forall r, In r l -> key r < key n) ->
  Sql.order_by key (l ++ [n]) = Sql.order_by key l ++ [n].
Proof.
  induction l as [|x l IH]; simpl; intros H; [reflexivity|].
  rewrite IH by (intros; apply H; now right).
  apply insert_row_last. specialize (H x (or_introl eq_refl)). lia.
Qed.

End SqlFacts.

(** ** The message queue *)

Section QueueFacts.
Import Store Spec.

Lemma scan_queue_spec (rows : list QueueEntry) (outMsgs : list string) (rowIds : list Z) :
  scan_queue rows outMsgs rowIds =
  (outMsgs ++ filter nonempty (map post_string rows),
   rowIds ++ filter nonzero (map rowid rows)).
Proof.
  revert outMsgs rowIds.
  induction rows as [|r rows IH]; intros; simpl.
  - now rewrite !app_nil_r.
  - rewrite IH. unfold nonempty, nonzero.
    destruct (String.eqb (post_string r) ""), (rowid r =? 0); simpl;
      rewrite <- ?app_assoc; reflexivity.
Qed.

Lemma select_oldest_length (q : list QueueEntry) :
  (List.length (select_oldest q) <= 100)%nat.
Proof. unfold select_oldest, Sql.limit. apply firstn_le_length. Qed.

Lemma select_oldest_incl (q : list QueueEntry) (r : QueueEntry) :
  In r (select_oldest q) -> In r q.
Proof.
  unfold select_oldest, Sql.limit. intros H.
  apply (Permutation_in _ (order_by_perm rowid q)).
  rewrite <- (firstn_skipn 100 (Sql.order_by rowid q)).
  apply in_or_app. now left.
Qed.

Lemma select_oldest_sorted (q : list QueueEntry) :
  StronglySorted (fun a b => rowid a <= rowid b) (select_oldest q).
Proof.
  unfold select_oldest, Sql.limit.
  pose proof (order_by_sorted rowid q) as Hs.
  rewrite <- (firstn_skipn 100 (Sql.order_by rowid q)) in Hs.
  revert Hs. generalize (firstn 100 (Sql.order_by rowid q)) as l1.
  induction l1 as [|x l1 IH]; simpl; intros Hs; [constructor|].
  apply StronglySorted_inv in Hs. destruct Hs as [Hs Hall].
  constructor; [now apply IH|].
  apply Forall_app in Hall. tauto.
Qed.

(** Every row left out of the batch is at least as young as every row in
    it. *)
Lemma select_oldest_oldest (q : list QueueEntry) (r r' : QueueEntry) :
  In r (select_oldest q) -> In r' q -> ~ In r' (select_oldest q) ->
  rowid r <= rowid r'.
Proof.
  unfold select_oldest, Sql.limit. intros Hr Hr' Hn.
  pose proof (order_by_sorted rowid q) as Hs.
  rewrite <- (firstn_skipn 100 (Sql.order_by rowid q)) in Hs.
  apply (sorted_split _ _ _ Hs); [assumption|].
  apply (Permutation_in _ (Permutation_sym (order_by_perm rowid q))) in Hr'.
  rewrite <- (firstn_skipn 100 (Sql.order_by rowid q)) in Hr'.
  apply in_app_or in Hr'. tauto.
Qed.

Lemma MessageQueueSelectURI_ok (db : Database) (uri : string) :
  fault db = None ->
  MessageQueueSelectURI db uri =
  (set_rolling_queue db true,
   (filter nonempty (map post_string (select_oldest (message_queue db))),
    filter nonzero (map rowid (select_oldest (message_queue db))), None)).
Proof.
  intros Hf. unfold MessageQueueSelectURI, MessageQueueCreateTable, Prepare.
  rewrite Hf. simpl. rewrite Hf. rewrite scan_queue_spec. reflexivity.
Qed.

Lemma MessageQueueSelectURI_fault (db : Database) (uri e : string) :
  fault db = Some e ->
  MessageQueueSelectURI db uri = (db, ([], [], Some e)).
Proof.
  intros Hf. unfold MessageQueueSelectURI, MessageQueueCreateTable, Prepare.
  now rewrite Hf.
Qed.

Lemma filter_map_length {A B} (f : B -> bool) (g : A -> B) (l : list A) :
  (List.length (filter f (map g l)) <= List.length l)%nat.
Proof.
  eapply Nat.le_trans; [apply filter_length_le | now rewrite length_map].
Qed.

Lemma selected_ok (db : Database) (uri : string) :
  fault db = None ->
  selected db uri =
  (filter nonempty (map post_string (select_oldest (message_queue db))),
   filter nonzero (map rowid (select_oldest (message_queue db)))).
Proof. intros Hf. unfold selected. now rewrite MessageQueueSelectURI_ok. Qed.

Lemma select_no_error (db : Database) (uri : string) :
  select_error db uri = None -> fault db = None.
Proof.
  unfold select_error. destruct (fault db) as [e|] eqn:Hf; [|reflexivity].
  rewrite (MessageQueueSelectURI_fault db uri Hf). discriminate.
Qed.

(** C3.  [MessageQueueSelectURI] answers the same for every [uri]; it
    returns at most 100 messages and 100 rowids; and when it reports no
    error they are read, in ascending rowid order, off the batch of the
    (at most 100) rows with the smallest rowids of the whole table: the
    rowids of the batch (a rowid of 0 is skipped) and its payloads (an empty
    payload is skipped). *)
Theorem MessageQueueSelectURI_oldest_unfiltered (db : Database) (uri : string) :
  let batch := select_oldest (message_queue db) in
  (forall uri', MessageQueueSelectURI db uri' = MessageQueueSelectURI db uri)
  /\ (List.length (fst (selected db uri)) <= 100)%nat
  /\ (List.length (snd (selected db uri)) <= 100)%nat
  /\ (List.length batch <= 100)%nat
  /\ (forall r, In r batch -> In r (message_queue db))
  /\ StronglySorted (fun a b => rowid a <= rowid b) batch
  /\ (forall r r', In r batch -> In r' (message_queue db) -> ~ In r' batch ->
                   rowid r <= rowid r')
  /\ (select_error db uri = None ->
      selected db uri = (filter nonempty (map post_string batch),
                         filter nonzero (map rowid batch))).
Proof.
  intros batch. subst batch.
  pose proof (select_oldest_length (message_queue db)) as Hlen.
  split; [reflexivity|].
  unfold selected, select_error.
  destruct (fault db) as [e|] eqn:Hf.
  - rewrite (MessageQueueSelectURI_fault db uri Hf). simpl.
    repeat split; try lia; auto using select_oldest_incl, select_oldest_sorted.
    + apply select_oldest_oldest.
    + discriminate.
  - rewrite (MessageQueueSelectURI_ok db uri Hf). simpl.
    repeat split; auto using select_oldest_incl, select_oldest_sorted.
    + eapply Nat.le_trans; [apply filter_map_length | exact Hlen].
    + eapply Nat.le_trans; [apply filter_map_length | exact Hlen].
    + apply select_oldest_oldest.
Qed.

Lemma MessageQueueSelectURI_oldest_unfiltered_witness :
  select_error queue3 "/core/pluginlog/" = None
  /\ selected queue3 "/core/pluginlog/" = (["a"; "b"], [3; 5; 7]).
Proof.
  split; [reflexivity|].
  destruct (MessageQueueSelectURI_oldest_unfiltered queue3 "/core/pluginlog/")
    as (_ & _ & _ & _ & _ & _ & _ & H).
  rewrite (H eq_refl). reflexivity.
Defined.

(** C10.  When the select succeeds, the returned messages are the
    non-empty payloads of the batch, so a batch row with an empty payload
    contributes no message; its rowid (when not 0) is nevertheless among the
    returned rowids; and when no rowid of the batch is 0 the message list is
    strictly shorter than the rowid list. *)
Theorem MessageQueueSelectURI_drops_empty_payload
        (db : Database) (uri : string) (r : QueueEntry) :
  select_error db uri = None ->
  In r (select_oldest (message_queue db)) ->
  post_string r = "" ->
  rowid r <> 0 ->
  fst (selected db uri) =
    map post_string
        (filter (fun e => nonempty (post_string e)) (select_oldest (message_queue db)))
  /\ ~ In "" (fst (selected db uri))
  /\ In (rowid r) (snd (selected db uri))
  /\ (Forall (fun e => rowid e <> 0) (select_oldest (message_queue db)) ->
      (List.length (fst (selected db uri)) < List.length (snd (selected db uri)))%nat).
Proof.
  intros Herr Hin Hempty Hrow.
  rewrite (selected_ok db uri (select_no_error db uri Herr)). simpl. clear Herr.
  set (batch := select_oldest (message_queue db)) in *.
  repeat split.
  - clearbody batch. clear. induction batch as [|x l IH]; simpl; [reflexivity|].
    destruct (nonempty (post_string x)); simpl; now rewrite IH.
  - intros H. apply filter_In in H. destruct H as [_ H]. discriminate.
  - apply filter_In. split; [now apply in_map|].
    unfold nonzero. apply negb_true_iff, Z.eqb_neq. exact Hrow.
  - intros Hall.
    assert (Hids : filter nonzero (map rowid batch) = map rowid batch).
    { clearbody batch. clear - Hall. induction Hall as [|x l Hx _ IH]; simpl; [reflexivity|].
      unfold nonzero at 1. apply Z.eqb_neq in Hx. rewrite Hx. simpl. now rewrite IH. }
    rewrite Hids, length_map.
    clearbody batch. clear - Hin Hempty.
    induction batch as [|x l IH]; simpl in *; [contradiction|].
    destruct Hin as [->|Hin].
    + rewrite Hempty. simpl.
      pose proof (filter_map_length nonempty post_string l). lia.
    + specialize (IH Hin). destruct (nonempty (post_string x)); simpl; lia.
Qed.

Lemma MessageQueueSelectURI_drops_empty_payload_witness :
  selected queue3 "/core/pluginlog/" = (["a"; "b"], [3; 5; 7])
  /\ In 3 (snd (selected queue3 "/core/pluginlog/"))
  /\ (List.length (fst (selected queue3 "/core/pluginlog/"))
      < List.length (snd (selected queue3 "/core/pluginlog/")))%nat.
Proof.
  pose proof (@MessageQueueSelectURI_drops_empty_payload queue3 "/core/pluginlog/"
                {| post_string := ""; post_uri := "/core/pluginlog/"; rowid := 3 |}
                eq_refl) as H.
  destruct H as (_ & _ & Hin & Hlen).
  - cbv. left. reflexivity.
  - reflexivity.
  - discriminate.
  - split; [reflexivity|]. split; [exact Hin|].
    apply Hlen. repeat constructor; discriminate.
Defined.

End QueueFacts.

Section QueueWrites.
Import Store Spec.

Lemma rolling_limit_succ : exists n, rolling_limit = S n.
Proof.
  destruct rolling_limit as [|n] eqn:E.
  - unfold rolling_limit in E. lia.
  - now exists n.
Qed.

Lemma MessageQueueInsert_ok (db : Database) (postString postURI : string) :
  fault db = None ->
  Sql.next_rowid rowid (message_queue db) <= max_int64 ->
  MessageQueueInsert db postString postURI =
  (set_message_queue (set_rolling_queue db true)
     (rolling_queue_body
        (message_queue db ++
           [{| post_string := postString; post_uri := postURI;
               rowid := Sql.next_rowid rowid (message_queue db) |}])),
   None).
Proof.
  intros Hf Hid. unfold MessageQueueInsert, MessageQueueCreateTable, Prepare.
  rewrite Hf. simpl. rewrite Hf.
  apply Z.ltb_ge in Hid. rewrite Hid. reflexivity.
Qed.

(** A successful insert ran on a healthy connection and below the rowid
    ceiling. *)
Lemma MessageQueueInsert_inv (db db' : Database) (postString postURI : string) :
  MessageQueueInsert db postString postURI = (db', None) ->
  fault db = None /\ Sql.next_rowid rowid (message_queue db) <= max_int64.
Proof.
  unfold MessageQueueInsert, MessageQueueCreateTable, Prepare.
  destruct (fault db) eqn:Hf; [discriminate|]. simpl. rewrite Hf.
  destruct (max_int64 <? _) eqn:E; [discriminate|].
  intros _. apply Z.ltb_ge in E. auto.
Qed.

(** The newest row survives the trigger. *)
Lemma rolling_queue_body_keeps_new (q : list QueueEntry) (new : QueueEntry) :
  (forall r, In r q -> rowid r < rowid new) ->
  In new (rolling_queue_body (q ++ [new])).
Proof.
  intros Hnew. unfold rolling_queue_body, Sql.scalar_at, Sql.order_by_desc.
  destruct rolling_limit_succ as [n ->].
  rewrite (order_by_last rowid new q Hnew), rev_app_distr.
  change (rev [new] ++ rev (Sql.order_by rowid q)) with (new :: rev (Sql.order_by rowid q)).
  change (nth_error (new :: rev (Sql.order_by rowid q)) (S n))
    with (nth_error (rev (Sql.order_by rowid q)) n).
  destruct (nth_error (rev (Sql.order_by rowid q)) n) as [pivot|] eqn:E; simpl.
  - apply filter_In. split; [apply in_or_app; right; now left|].
    apply negb_true_iff, Z.leb_gt, Hnew.
    apply nth_error_In in E. apply in_rev in E.
    apply (Permutation_in _ (order_by_perm rowid q) E).
  - apply in_or_app; right; now left.
Qed.

Lemma MessageQueueInsert_failed (db : Database) (postString postURI : string) :
  snd (MessageQueueInsert db postString postURI) <> None ->
  message_queue (fst (MessageQueueInsert db postString postURI)) = message_queue db.
Proof.
  unfold MessageQueueInsert, MessageQueueCreateTable, Prepare.
  destruct (fault db) eqn:Hf; simpl; [reflexivity|].
  rewrite Hf. destruct (max_int64 <? _); simpl; [reflexivity|congruence].
Qed.

(** C4.  After a successful [MessageQueueInsert] the table holds at most
    20,000 rows, whatever it held before; the inserted row has a rowid above
    every rowid that was in use and is in the table; the table is the old
    table with the new row appended, less the rows the trigger removed, in
    the old order; and every removed row has a smaller rowid than every row
    kept.  An insert that reports an error leaves the table as it was, so a
    table within the cap stays within the cap after every insert. *)
Theorem MessageQueueInsert_rolling_cap
        (db : Database) (postString postURI : string) :
  let db' := fst (MessageQueueInsert db postString postURI) in
  let err := snd (MessageQueueInsert db postString postURI) in
  let new := {| post_string := postString; post_uri := postURI;
                rowid := Sql.next_rowid rowid (message_queue db) |} in
  (err = None ->
   len (message_queue db') <= 20000
   /\ (forall r, In r (message_queue db) -> rowid r < rowid new)
   /\ In new (message_queue db')
   /\ (exists keep, message_queue db' = filter keep (message_queue db ++ [new]))
   /\ (forall d e, In d (message_queue db ++ [new]) -> ~ In d (message_queue db') ->
                   In e (message_queue db') -> rowid d < rowid e))
  /\ (err <> None -> message_queue db' = message_queue db)
  /\ (len (message_queue db) <= 20000 -> len (message_queue db') <= 20000).
Proof.
  intros db' err new.
  assert (Hok : err = None ->
    len (message_queue db') <= 20000
    /\ (forall r, In r (message_queue db) -> rowid r < rowid new)
    /\ In new (message_queue db')
    /\ (exists keep, message_queue db' = filter keep (message_queue db ++ [new]))
    /\ (forall d e, In d (message_queue db ++ [new]) -> ~ In d (message_queue db') ->
                    In e (message_queue db') -> rowid d < rowid e)).
  { subst db' err. intros H.
    destruct (MessageQueueInsert db postString postURI) as [db1 e1] eqn:E.
    simpl in H. subst e1.
    destruct (MessageQueueInsert_inv _ _ _ E) as [Hf Hid].
    rewrite (MessageQueueInsert_ok db postString postURI Hf Hid) in E.
    injection E as <-. simpl. fold new.
    assert (Hfresh : forall r, In r (message_queue db) -> rowid r < rowid new).
    { intros r Hr. simpl. now apply next_rowid_fresh. }
    split; [|split; [|split; [|split]]].
    - pose proof (delete_offset_length rowid rolling_limit (message_queue db ++ [new])) as Hl.
      unfold len, rolling_queue_body. unfold rolling_limit in Hl at 2. lia.
    - exact Hfresh.
    - now apply rolling_queue_body_keeps_new.
    - unfold rolling_queue_body, Sql.delete_where_le.
      destruct (Sql.scalar_at _ _ _) as [k|].
      + eexists. reflexivity.
      + exists (fun _ => true). clear.
        induction (message_queue db ++ [new]); simpl; congruence.
    - intros d e. apply delete_where_le_oldest. }
  split; [exact Hok|]. split.
  - apply MessageQueueInsert_failed.
  - intros Hcap. destruct err eqn:E.
    + subst db'. rewrite MessageQueueInsert_failed; [exact Hcap|].
      fold err. rewrite E. discriminate.
    + now apply Hok.
Qed.

Lemma MessageQueueInsert_rolling_cap_witness :
  MessageQueueInsert queue3 "c" "/core/pluginlog/"
  = (set_message_queue queue3
       (message_queue queue3 ++
          [{| post_string := "c"; post_uri := "/core/pluginlog/"; rowid := 8 |}]), None)
  /\ len (message_queue (fst (MessageQueueInsert queue3 "c" "/core/pluginlog/"))) <= 20000.
Proof.
  split; [vm_compute; reflexivity|].
  destruct (MessageQueueInsert_rolling_cap queue3 "c" "/core/pluginlog/") as [H _].
  apply H. vm_compute. reflexivity.
Defined.

(** The cap is an invariant of the store: once the trigger has fired, no
    operation of the queue brings the table above it. *)
Lemma MessageQueueDelete_shrinks (db db' : Database) (rowIds : list Z) (n : Z) (e : error) :
  MessageQueueDelete db rowIds = Returns (db', (n, e)) ->
  len (message_queue db') <= len (message_queue db).
Proof.
  unfold MessageQueueDelete, MessageQueueCreateTable, Prepare.
  destruct (fault db) eqn:Hf.
  - intros H; injection H as <- _ _. lia.
  - simpl. destruct (strings.Repeat _ _); try discriminate.
    rewrite Hf. intros H; injection H as <- _ _. simpl.
    unfold Sql.delete_where_in, len.
    pose proof (filter_length_le (fun r => negb (Sql.key_in rowid rowIds r)) (message_queue db)).
    lia.
Qed.

(** C1 (the failing input).  On a healthy connection [MessageQueueDelete]
    with an empty rowid list panics: the repeat count [len(rowIds)-1] is
    negative. *)
Theorem MessageQueueDelete_empty_panics
        (nm : string) (t : list PluginRow) (q : list QueueEntry) (trig : bool) :
  MessageQueueDelete
    {| DbName := nm; fault := None; plugins := t; message_queue := q;
       rolling_queue := trig |} []
  = Panics "strings: negative Repeat count".
Proof. reflexivity. Qed.

(** With at least one rowid the delete returns, and removes exactly the
    named rows. *)
Lemma MessageQueueDelete_returns (db : Database) (rowIds : list Z) :
  rowIds <> [] ->
  exists db' n e, MessageQueueDelete db rowIds = Returns (db', (n, e))
    /\ (fault db = None ->
        e = None /\ message_queue db' = Sql.delete_where_in rowid rowIds (message_queue db)).
Proof.
  intros Hne. unfold MessageQueueDelete, MessageQueueCreateTable, Prepare.
  destruct (fault db) eqn:Hf.
  - do 3 eexists. split; [reflexivity|discriminate].
  - simpl. unfold strings.Repeat.
    assert (Hlen : (len rowIds - 1 <? 0) = false).
    { apply Z.ltb_ge. destruct rowIds; [congruence|]. unfold len. simpl List.length. lia. }
    rewrite Hlen, Hf. do 3 eexists. split; [reflexivity|]. intros _. split; reflexivity.
Qed.

End QueueWrites.

(** ** The drainer *)

Section DrainFacts.
Import Store Spec.
Variable W : Type.
Variable env : comms.Env W.
Variable Marshal_strings : list string -> string * error.

Lemma Contains_app_r (a b sub : string) :
  strings.Contains b sub = true -> strings.Contains (a ++ b) sub = true.
Proof.
  intros H. induction a as [|c a IH]; simpl; [exact H|].
  rewrite IH. apply orb_true_r.
Qed.

(** A status line that carries the standard phrase of code 400 or 500 makes
    the error of [Send] one the drainer treats as a rejection. *)
Lemma bad_status_of_status_line (st : string) :
  drainer.bad_status st = true ->
  drainer.bad_status ("Received bad status: " ++ st) = true.
Proof.
  unfold drainer.bad_status. intros H.
  apply orb_true_iff in H. apply orb_true_iff.
  destruct H as [H|H]; [left|right]; now apply Contains_app_r.
Qed.

Lemma delete_where_in_gone (rowIds : list Z) (q : list QueueEntry) (id : Z) :
  In id rowIds -> ~ In id (map rowid (Sql.delete_where_in rowid rowIds q)).
Proof.
  intros Hid Hin. apply in_map_iff in Hin. destruct Hin as (r & <- & Hr).
  apply filter_In in Hr. destruct Hr as [_ Hr].
  apply negb_true_iff in Hr. unfold Sql.key_in in Hr.
  assert (existsb (Z.eqb (rowid r)) rowIds = true).
  { apply existsb_exists. exists (rowid r). split; [assumption | apply Z.eqb_refl]. }
  congruence.
Qed.

Lemma remove_messages_ok (db : Database) (rowIds : list Z) :
  fault db = None -> rowIds <> [] ->
  drainer.remove_messages db rowIds =
  Returns (set_message_queue (set_rolling_queue db true)
             (Sql.delete_where_in rowid rowIds (message_queue db))).
Proof.
  intros Hf Hne. unfold drainer.remove_messages, MessageQueueDelete,
    MessageQueueCreateTable, Prepare, strings.Repeat.
  rewrite Hf. simpl.
  assert (Hlen : (len rowIds - 1 <? 0) = false).
  { apply Z.ltb_ge. destruct rowIds; [congruence|]. unfold len. simpl List.length. lia. }
  rewrite Hlen, Hf. reflexivity.
Qed.

(** X30.  What a turn of the drainer does with its batch.  Take a turn on a
    healthy store whose batch has a message and a rowid, with the messages
    marshalled and [Send] returning.  The turn returns; every rowid of the batch is deleted
    when [Send] reported no error or an error whose text contains
    [500 Internal Server Error] or [400 Bad Request]; for any other error
    the table is left as it was and the next select returns the same batch.
    An answer whose status line contains one of the two phrases produces
    such an error text. *)
Lemma drain_once_deletes_by_error_text
        (w w1 : W) (s : comms.Sender) (db : Database)
        (msgBytes resp : string) (err : error) :
  fault db = None ->
  fst (selected db pluginlog) <> [] ->
  snd (selected db pluginlog) <> [] ->
  Marshal_strings (fst (selected db pluginlog)) = (msgBytes, None) ->
  comms.Send env w s msgBytes pluginlog = Returns (w1, (resp, err)) ->
  exists db' pause,
    drainer.drain_once env Marshal_strings w s db = Returns (w1, db', pause)
    /\ (err = None \/ (exists e, err = Some e /\ drainer.bad_status e = true) ->
        message_queue db' =
          Sql.delete_where_in rowid (snd (selected db pluginlog)) (message_queue db)
        /\ batch_deleted (snd (selected db pluginlog)) db')
    /\ ((exists e, err = Some e /\ drainer.bad_status e = false) ->
        message_queue db' = message_queue db
        /\ selected db' pluginlog = selected db pluginlog)
    /\ (forall st, drainer.bad_status st = true ->
                   drainer.bad_status ("Received bad status: " ++ st) = true).
Proof.
  intros Hf Hmsgs Hids Hm Hsend.
  unfold drainer.drain_once.
  pose proof (selected_ok db pluginlog Hf) as Hsel.
  unfold selected in Hsel, Hmsgs, Hids, Hm |- *.
  fold pluginlog.
  destruct (MessageQueueSelectURI db pluginlog) as [db1 [[messages rowIds] serr]] eqn:E.
  rewrite (MessageQueueSelectURI_ok db pluginlog Hf) in E.
  injection E as <- <- <- <-.
  simpl in Hmsgs, Hids, Hm, Hsel |- *.
  set (messages := filter nonempty _) in *.
  set (rowIds := filter nonzero _) in *.
  assert (Hlen : (len messages =? 0) = false).
  { apply Z.eqb_neq. unfold len. destruct messages; [congruence|]. simpl List.length. lia. }
  rewrite Hlen, Hm, Hsend.
  assert (Hrm : drainer.remove_messages (set_rolling_queue db true) rowIds =
                Returns (set_message_queue (set_rolling_queue db true)
                           (Sql.delete_where_in rowid rowIds (message_queue db)))).
  { rewrite remove_messages_ok by assumption. reflexivity. }
  assert (Hafter :
    exists db2,
      match err with
      | Some e => if drainer.bad_status e
                  then drainer.remove_messages (set_rolling_queue db true) rowIds
                  else Returns (set_rolling_queue db true)
      | None => drainer.remove_messages (set_rolling_queue db true) rowIds
      end = Returns db2
      /\ (err = None \/ (exists e, err = Some e /\ drainer.bad_status e = true) ->
          message_queue db2 = Sql.delete_where_in rowid rowIds (message_queue db))
      /\ ((exists e, err = Some e /\ drainer.bad_status e = false) ->
          db2 = set_rolling_queue db true)).
  { destruct err as [e|].
    - destruct (drainer.bad_status e) eqn:Eb.
      + eexists. split; [exact Hrm|]. split; [reflexivity|].
        intros (e' & He' & Hb). congruence.
      + eexists. split; [reflexivity|]. split; [|reflexivity].
        intros [H|(e' & He' & Hb)]; congruence.
    - eexists. split; [exact Hrm|]. split; [reflexivity|].
      intros (e' & He' & _). discriminate. }
  destruct Hafter as (db2 & -> & Hdel & Hkeep).
  assert (Htail :
    (err = None \/ (exists e, err = Some e /\ drainer.bad_status e = true) ->
     message_queue db2 = Sql.delete_where_in rowid rowIds (message_queue db)
     /\ batch_deleted rowIds db2)
    /\ ((exists e, err = Some e /\ drainer.bad_status e = false) ->
        message_queue db2 = message_queue db
        /\ fst (snd (MessageQueueSelectURI db2 pluginlog)) = (messages, rowIds))
    /\ (forall st, drainer.bad_status st = true ->
                   drainer.bad_status ("Received bad status: " ++ st) = true)).
  { split; [|split].
    - intros H. specialize (Hdel H). split; [exact Hdel|].
      intros id Hid. rewrite Hdel. now apply delete_where_in_gone.
    - intros H. rewrite (Hkeep H). split; [reflexivity|].
      rewrite MessageQueueSelectURI_ok by assumption. reflexivity.
    - apply bad_status_of_status_line. }
  destruct (100 <=? len messages).
  - exists db2, drainer.SleepOneSecond. split; [reflexivity | exact Htail].
  - exists db2, drainer.SleepPollTime. split; [reflexivity | exact Htail].
Qed.

End DrainFacts.

Section DrainExamples.
Import Store Spec.

Lemma drain_once_deletes_by_error_text_example :
  exists db' pause,
    drainer.drain_once env_std_500 marshal_list tt sender0 queue3 = Returns (tt, db', pause)
    /\ message_queue db' = [].
Proof.
  destruct (@drain_once_deletes_by_error_text unit env_std_500 marshal_list
              tt tt sender0 queue3 "[a,b]" ""
              (Some "Received bad status: 500 Internal Server Error"))
    as (db' & pause & Hrun & Hdel & _).
  - reflexivity.
  - vm_compute. discriminate.
  - vm_compute. discriminate.
  - reflexivity.
  - reflexivity.
  - exists db', pause. split; [exact Hrun|].
    destruct Hdel as [Hq _].
    + right. eexists. split; reflexivity.
    + rewrite Hq. reflexivity.
Defined.

(** C2 (the failing input).  A controller answers the POST with status 500
    and the reason phrase in capitals.  The error text of [Send] then
    contains neither phrase the drainer looks for, the turn leaves the store
    as it was, and the rule "deleted exactly when the POST succeeded or was
    answered with 400 or 500" does not hold of the turn. *)
Theorem drain_rule_by_status_code_fails :
  posted_status env_upper_500 tt sender0 "[a,b]" pluginlog = Some 500
  /\ drainer.drain_once env_upper_500 marshal_list tt sender0 queue3
     = Returns (tt, queue3, drainer.SleepPollTime)
  /\ ~ drain_rule_by_status_code env_upper_500 marshal_list tt sender0 queue3.
Proof.
  split; [reflexivity|]. split; [reflexivity|].
  intros H.
  destruct (H "[a,b]" tt queue3 drainer.SleepPollTime eq_refl eq_refl) as [[_ Hdel] _].
  apply (Hdel (or_intror (or_intror eq_refl)) 3).
  - vm_compute. now left.
  - vm_compute. right. now left.
Qed.

End DrainExamples.

(** ** Endpoint failover *)

Section ConnFacts.
Import Spec.
Import comms.
Variable W : Type.
Variable env : Env W.

Lemma TestConnection_cases (w : W) (s : Sender) :
  (exists m, TestConnection env w s = Fatal m
             /\ NewRequest_error env (ControllerURL (trimmed s) ++ "/core/conntest/") <> None)
  \/ (exists w' b, TestConnection env w s = Returns (w', trimmed s, b)
                   /\ (b = true -> conntest_success env w w' (trimmed s))).
Proof.
  unfold TestConnection. fold (trimmed s).
  destruct (NewRequest_error env _) as [e|] eqn:En.
  - left. eexists. split; [reflexivity|discriminate].
  - right.
    change {| Method := "GET"; URL := (ControllerURL (trimmed s) ++ "/core/conntest/")%string;
              ProxyURL := transport_proxy (Proxy (trimmed s)); Body := "" |}
      with (conntest_request (trimmed s)).
    destruct (Do env w (conntest_request (trimmed s))) as [w1 [e|code st body]] eqn:Ed.
    + exists w1, false. split; [reflexivity|discriminate].
    + change (match body with ReadError _ => "" | BodyBytes b => b end) with (body_text body).
      destruct (Unmarshal env (body_text body)) as [m|e] eqn:Eu.
      * eexists w1, _. split; [reflexivity|].
        intros Hb. apply String.eqb_eq in Hb.
        exists code, st, body, m. auto.
      * exists w1, false. split; [reflexivity|discriminate].
Qed.

Lemma TrimRightSlash_TrimSuffixSlash (u : string) :
  strings.TrimRightSlash (strings.TrimSuffixSlash u) = strings.TrimRightSlash u.
Proof.
  induction u as [|c u IH]; [reflexivity|].
  destruct u as [|c' u'].
  - simpl. destruct (Ascii.eqb c "/") eqn:E; simpl; [reflexivity|]. now rewrite E.
  - change (strings.TrimSuffixSlash (String c (String c' u')))
      with (String c (strings.TrimSuffixSlash (String c' u'))).
    change (strings.TrimRightSlash (String c (strings.TrimSuffixSlash (String c' u'))))
      with (match strings.TrimRightSlash (strings.TrimSuffixSlash (String c' u')) with
            | EmptyString => if Ascii.eqb c "/" then EmptyString else String c EmptyString
            | t => String c t
            end).
    rewrite IH. reflexivity.
Qed.

Lemma last_cons {A} (l : list A) (a d : A) : List.last (a :: l) d = List.last l a.
Proof.
  revert a d. induction l as [|x l IH]; intros a d; [reflexivity|].
  change (List.last (a :: x :: l) d) with (List.last (x :: l) d).
  now rewrite (IH x d), (IH x a).
Qed.

Lemma tested_app (a b : list LogLine) : tested (a ++ b) = tested a ++ tested b.
Proof.
  induction a as [|[u p|u p] a IH]; simpl; [reflexivity| |]; now rewrite IH.
Qed.

Lemma norm_app (a b : list (string * string)) : norm (a ++ b) = norm a ++ norm b.
Proof. apply map_app. Qed.

Abbreviation strip := strings.TrimRightSlash.

Arguments test_and_log : simpl never.
Arguments try_direct : simpl never.

Lemma test_and_log_cases (w : W) (s : Sender) (log : list LogLine) :
  (exists m, test_and_log env (w, s, log) = Fatal m
             /\ NewRequest_error env (ControllerURL (trimmed s) ++ "/core/conntest/") <> None)
  \/ (exists w' log',
        test_and_log env (w, s, log) = Returns ((w', trimmed s, log'), true)
        /\ tested log' = tested log ++ [(ControllerURL s, Proxy s)]
        /\ conntest_success env w w' (trimmed s))
  \/ (exists w',
        test_and_log env (w, s, log)
        = Returns ((w', trimmed s, log ++ [Testing (ControllerURL s) (Proxy s)]), false)).
Proof.
  unfold test_and_log.
  destruct (TestConnection_cases w s) as [(m & -> & Hm)|(w' & [|] & -> & Hs)].
  - left. eauto.
  - right; left. do 2 eexists. split; [reflexivity|]. split; [|now apply Hs].
    rewrite !tested_app. simpl. now rewrite app_nil_r.
  - right; right. eauto.
Qed.

(** The inner loop: the proxies are tried in list order until one
    succeeds. *)
Lemma try_proxies_spec (proxyList : list string) :
  forall (w : W) (s : Sender) (log : list LogLine) w' s' log' b,
    try_proxies env proxyList (w, s, log) = Returns ((w', s', log'), b) ->
    ClientUUID s' = ClientUUID s
    /\ strip (ControllerURL s') = strip (ControllerURL s)
    /\ (b = true -> exists w0, conntest_success env w0 w' s')
    /\ exists done rest,
        proxyList = done ++ rest
        /\ norm (tested log')
           = norm (tested log) ++ map (pair (strip (ControllerURL s))) done
        /\ (b = false -> rest = [] /\ Proxy s' = List.last proxyList (Proxy s)).
Proof.
  induction proxyList as [|P rest IH]; intros w s log w' s' log' b H.
  - simpl in H. injection H as <- <- <- <-.
    repeat split; try discriminate.
    exists [], []. simpl. rewrite app_nil_r. repeat split; reflexivity.
  - simpl in H.
    destruct (test_and_log_cases w (set_Proxy s P) log)
      as [(m & Hm & _)|[(w2 & log2 & Hr & Hlog2 & Hs)|(w2 & Hr)]];
      rewrite ?Hm, ?Hr in H; simpl in H; [discriminate| |].
    + injection H as <- <- <- <-.
      repeat split; try reflexivity.
      * unfold trimmed. simpl. apply TrimRightSlash_TrimSuffixSlash.
      * intros _. now exists w.
      * exists [P], rest. split; [reflexivity|]. split; [|discriminate].
        rewrite Hlog2, norm_app. reflexivity.
    + apply IH in H. destruct H as (Hu & Hurl & Hsucc & done & rest' & Hsplit & Hlog & Hlast).
      split; [exact Hu|]. split.
      { rewrite Hurl. unfold trimmed. simpl. apply TrimRightSlash_TrimSuffixSlash. }
      split; [exact Hsucc|].
      exists (P :: done), rest'. split; [simpl; congruence|]. split.
      * rewrite Hlog, !tested_app, !norm_app. simpl.
        unfold trimmed. simpl. rewrite TrimRightSlash_TrimSuffixSlash.
        rewrite <- app_assoc. reflexivity.
      * intros Hb. destruct (Hlast Hb) as [Hnil Hp]. split; [exact Hnil|].
        rewrite Hp. unfold trimmed. simpl Proxy. symmetry. apply last_cons.
Qed.

Lemma last_app {A} (a b : list A) (d : A) :
  List.last (a ++ b) d = List.last b (List.last a d).
Proof.
  revert d. induction a as [|x a IH]; intros d; [reflexivity|].
  change ((x :: a) ++ b) with (x :: a ++ b).
  now rewrite !last_cons, IH.
Qed.

Lemma norm_map_pair (C : string) (l : list string) :
  norm (map (pair C) l) = map (pair (strip C)) l.
Proof. unfold norm. rewrite map_map. reflexivity. Qed.

Lemma try_direct_spec (w : W) (s : Sender) (log : list LogLine) w' s' log' b :
  try_direct env (w, s, log) = Returns ((w', s', log'), b) ->
  ClientUUID s' = ClientUUID s
  /\ strip (ControllerURL s') = strip (ControllerURL s)
  /\ (b = true -> exists w0, conntest_success env w0 w' s')
  /\ exists done rest,
      (if real_proxy (Proxy s) then [""] else []) = done ++ rest
      /\ norm (tested log')
         = norm (tested log) ++ map (pair (strip (ControllerURL s))) done
      /\ (b = false ->
          rest = [] /\ Proxy s' = if real_proxy (Proxy s) then "" else Proxy s).
Proof.
  unfold try_direct. fold (real_proxy (Proxy s)).
  destruct (real_proxy (Proxy s)).
  - destruct (test_and_log_cases w (set_Proxy s "") log)
      as [(m & Hm & _)|[(w2 & log2 & Hr & Hlog2 & Hs)|(w2 & Hr)]];
      rewrite ?Hm, ?Hr; intros H; [discriminate| |]; injection H as <- <- <- <-.
    + repeat split; try reflexivity.
      * unfold trimmed. simpl. apply TrimRightSlash_TrimSuffixSlash.
      * intros _. now exists w.
      * exists [""], []. split; [reflexivity|]. split; [|discriminate].
        rewrite Hlog2, norm_app. reflexivity.
    + repeat split; try reflexivity; try discriminate.
      * unfold trimmed. simpl. apply TrimRightSlash_TrimSuffixSlash.
      * exists [""], []. split; [reflexivity|]. split; [|auto].
        rewrite tested_app, norm_app. reflexivity.
  - intros H. injection H as <- <- <- <-.
    repeat split; try reflexivity; try discriminate.
    exists [], []. simpl. rewrite app_nil_r. auto.
Qed.

(** The outer loop: the log grows by a prefix of the plan, the whole plan
    when nothing succeeded; a success is the last test made. *)
Lemma try_controllers_spec (proxyList controllerList : list string) :
  forall (w : W) (s : Sender) (log : list LogLine) w' s' log' b,
    try_controllers env proxyList controllerList (w, s, log)
    = Returns ((w', s', log'), b) ->
    ClientUUID s' = ClientUUID s
    /\ (b = true -> exists w0, conntest_success env w0 w' s')
    /\ exists done rest,
        norm (plan (Proxy s) proxyList controllerList) = done ++ rest
        /\ norm (tested log') = norm (tested log) ++ done
        /\ (b = false -> rest = []).
Proof.
  induction controllerList as [|C ctrls IH]; intros w s log w' s' log' b H.
  - simpl in H. injection H as <- <- <- <-.
    repeat split; try discriminate.
    exists [], []. simpl. rewrite app_nil_r. auto.
  - simpl in H.
    change (plan (Proxy s) proxyList (C :: ctrls))
      with (map (pair C) (candidates (Proxy s) proxyList)
            ++ plan (List.last (candidates (Proxy s) proxyList) (Proxy s)) proxyList ctrls).
    rewrite norm_app, norm_map_pair. unfold candidates.
    set (cur := Proxy s).
    set (direct := if real_proxy cur then [""] else []).
    set (next := List.last (cur :: direct ++ proxyList) cur).
    rewrite map_cons, map_app.
    destruct (test_and_log_cases w (set_ControllerURL s C) log)
      as [(m & Hm & _)|[(w2 & log2 & Hr & Hlog2 & Hs)|(w2 & Hr)]];
      rewrite ?Hm, ?Hr in H; simpl in H; [discriminate| |].
    + (* the selected proxy works *)
      injection H as <- <- <- <-.
      split; [reflexivity|]. split; [intros _; now exists w|].
      eexists [(strip C, cur)], _. split; [reflexivity|]. split; [|discriminate].
      rewrite Hlog2, norm_app. reflexivity.
    + destruct (try_direct env _) as [[[[w5 s5] log5] b5]|m|m] eqn:Ed;
        [|discriminate|discriminate].
      apply try_direct_spec in Ed.
      destruct Ed as (Hu5 & Hurl5 & Hs5 & done5 & rest5 & Hsplit5 & Hlog5 & Hlast5).
      unfold trimmed in Hu5, Hurl5, Hsplit5, Hlog5, Hlast5.
      simpl in Hu5, Hurl5, Hsplit5, Hlog5, Hlast5.
      rewrite TrimRightSlash_TrimSuffixSlash in Hurl5, Hlog5.
      fold cur in Hsplit5, Hlast5. fold direct in Hsplit5.
      rewrite tested_app, norm_app in Hlog5. simpl in Hlog5.
      destruct b5.
      * (* no proxy works *)
        injection H as <- <- <- <-.
        split; [exact Hu5|]. split; [exact Hs5|].
        exists ((strip C, cur) :: map (pair (strip C)) done5),
               (map (pair (strip C)) rest5 ++ map (pair (strip C)) proxyList
                ++ norm (plan next proxyList ctrls)).
        split; [|split; [|discriminate]].
        -- rewrite Hsplit5, map_app. simpl. rewrite <- !app_assoc. reflexivity.
        -- rewrite Hlog5, <- app_assoc. reflexivity.
      * destruct (Hlast5 eq_refl) as [-> Hp5]. rewrite app_nil_r in Hsplit5.
        destruct (try_proxies env proxyList (w5, s5, log5))
          as [[[[w6 s6] log6] b6]|m|m] eqn:Ep; [|discriminate|discriminate].
        apply try_proxies_spec in Ep.
        destruct Ep as (Hu6 & Hurl6 & Hs6 & done6 & rest6 & Hsplit6 & Hlog6 & Hlast6).
        rewrite Hurl5 in Hlog6. rewrite Hlog5 in Hlog6.
        destruct b6.
        -- (* a proxy of the list works *)
           injection H as <- <- <- <-.
           split; [congruence|]. split; [exact Hs6|].
           exists ((strip C, cur) :: map (pair (strip C)) direct
                   ++ map (pair (strip C)) done6),
                  (map (pair (strip C)) rest6 ++ norm (plan next proxyList ctrls)).
           split; [|split; [|discriminate]].
           ++ rewrite Hsplit6 at 1. rewrite map_app. simpl.
              rewrite <- !app_assoc. reflexivity.
           ++ rewrite Hlog6, Hsplit5, <- !app_assoc. reflexivity.
        -- (* on to the next controller *)
           destruct (Hlast6 eq_refl) as [-> Hp6]. rewrite app_nil_r in Hsplit6.
           apply IH in H. destruct H as (Hu & Hs & done & rest & Hsplit & Hlog & Hrest).
           assert (Hnext : Proxy s6 = next).
           { rewrite Hp6, Hp5. unfold next. rewrite last_cons, last_app.
             unfold direct. destruct (real_proxy cur); reflexivity. }
           rewrite Hnext in Hsplit.
           split; [congruence|]. split; [exact Hs|].
           exists ((strip C, cur) :: map (pair (strip C)) direct
                   ++ map (pair (strip C)) proxyList ++ done), rest.
           split; [|split; [|exact Hrest]].
           ++ rewrite Hsplit. simpl. rewrite <- !app_assoc. reflexivity.
           ++ rewrite Hlog, Hlog6, Hsplit5, <- Hsplit6, <- !app_assoc. reflexivity.
Qed.





End ConnFacts.

Section ConnExamples.
Import Spec comms.



End ConnExamples.

(** ** The adopter's exit path *)

Section AdoptFacts.
Import Store client Spec.
Variable Marshal_plugin : Plugin -> string * error.

Lemma MessageQueueInsert_frame (db : Database) (postString postURI : string) :
  plugins (fst (MessageQueueInsert db postString postURI)) = plugins db
  /\ fault (fst (MessageQueueInsert db postString postURI)) = fault db.
Proof.
  unfold MessageQueueInsert, MessageQueueCreateTable, Prepare.
  destruct (fault db) eqn:Hf; simpl; [auto|].
  rewrite Hf. destruct (max_int64 <? _); simpl; auto.
Qed.

Lemma QueuePluginLog_frame (c : Client) (p : Plugin) :
  plugins (LocalDb (fst (QueuePluginLog Marshal_plugin c p))) = plugins (LocalDb c)
  /\ fault (LocalDb (fst (QueuePluginLog Marshal_plugin c p))) = fault (LocalDb c)
  /\ Offline (fst (QueuePluginLog Marshal_plugin c p)) = Offline c
  /\ (fst (QueuePluginLog Marshal_plugin c p) = c
      \/ exists msg,
          LocalDb (fst (QueuePluginLog Marshal_plugin c p))
          = fst (MessageQueueInsert (LocalDb c) msg "/core/pluginlog/")).
Proof.
  unfold QueuePluginLog.
  destruct (Offline c) eqn:Ho; simpl; [auto|].
  destruct (Marshal_plugin _) as [msg [e|]]; simpl; [auto|].
  pose proof (MessageQueueInsert_frame (LocalDb c) msg "/core/pluginlog/") as [Hp Hf].
  destruct (MessageQueueInsert (LocalDb c) msg "/core/pluginlog/") as [db2 err] eqn:E.
  simpl in *. repeat split; auto. right. exists msg. now rewrite E.
Qed.

Lemma PluginSelectUUID_plugins (db db' : Database) (id : string) :
  plugins db' = plugins db -> fault db' = fault db ->
  snd (PluginSelectUUID db' id) = snd (PluginSelectUUID db id).
Proof.
  intros Hp Hf. unfold PluginSelectUUID, PluginCreateTable, Prepare.
  rewrite Hf. destruct (fault db); simpl; [reflexivity|].
  rewrite Hp. destruct (filter _ (plugins db)); simpl; [reflexivity|].
  destruct (String.eqb _ ""); reflexivity.
Qed.

(** C9.  The exit path of [ResumePlugin] leaves table [plugins] as it
    was: whatever record is stored for any uuid, with its status and its
    process id, is read back unchanged afterwards.  The store is either
    untouched or differs by one [MessageQueueInsert] on [/core/pluginlog/]. *)
Theorem ResumePlugin_exit_leaves_record (c : Client) (now : time.Time) (p : Plugin) :
  let c' := fst (ResumePlugin_exit Marshal_plugin c now p) in
  plugins (LocalDb c') = plugins (LocalDb c)
  /\ (forall id, snd (PluginSelectUUID (LocalDb c') id)
                 = snd (PluginSelectUUID (LocalDb c) id))
  /\ (c' = c
      \/ exists msg,
          LocalDb c' = fst (MessageQueueInsert (LocalDb c) msg "/core/pluginlog/")).
Proof.
  unfold ResumePlugin_exit.
  set (p3 := set_Status _ _ _).
  pose proof (QueuePluginLog_frame c p3) as (Hp & Hf & _ & Hq).
  destruct (QueuePluginLog Marshal_plugin c p3) as [c1 err]. simpl in *.
  repeat split; auto. intros id. now apply PluginSelectUUID_plugins.
Qed.

End AdoptFacts.

(** ** The supervisor *)

Section SupervisorFacts.
Import Store client supervisor Spec.

(** C7 (the failing input).  Plugin A is configured and running as pid
    100; the record of plugin B, running as pid 200, is no longer
    configured.  In the turn of plugin A the supervisor marks B complete but
    kills pid 100, the process of A: the kill reads the record of the turn,
    not the record being removed. *)
Theorem garbage_collect_kills_configured_plugin :
  let p := fst (snd (PluginSelectUUID db_AB "uuid-a")) in
  let '(c', kills) := garbage_collect [pluginA] os_AB p client_AB in
  ProcessID p = 100
  /\ kills = [100]
  /\ ~ In 200 kills
  /\ map (fun r => (uuid r, process_id r, status r, status_message r))
         (plugins (LocalDb c'))
     = [("uuid-a", 100, "running", "running");
        ("uuid-b", 200, "complete", "removed from configuration")].
Proof.
  vm_compute. repeat split; try reflexivity. intros [H|[]]. discriminate.
Qed.

(** C8 (the failing input).  A periodic plugin with a launch frequency of
    9223372037 seconds exited at [t0]; one second later the supervisor
    decides to launch it: the frequency in nanoseconds wraps around to a
    negative [int64]. *)
Theorem decide_periodic_wraps :
  time.Seconds (LaunchFrequency pluginP) = -9223372036709551616
  /\ decide client_P os_AB t1 1 pluginP = Launch
  /\ time.nanos t1 < time.nanos t0 + LaunchFrequency pluginP * 1000000000.
Proof. vm_compute. repeat split; reflexivity. Qed.

End SupervisorFacts.

(** ** Time arithmetic within range *)

Section TimeFacts.
Import Store client supervisor Spec.

Lemma wrap64_small (z : Z) : - 2 ^ 63 <= z < 2 ^ 63 -> time.wrap64 z = z.
Proof.
  intros H. unfold time.wrap64. rewrite Z.mod_small; lia.
Qed.

Lemma addSec_small (t : time.Time) (d : Z) :
  0 <= time.sec t < 2 ^ 40 -> 0 <= d < 2 ^ 40 ->
  time.addSec t d = {| time.sec := time.sec t + d; time.nsec := time.nsec t |}.
Proof.
  intros Ht Hd. unfold time.addSec.
  rewrite wrap64_small by lia.
  destruct (Z.eq_dec d 0) as [->|Hne].
  - rewrite Z.add_0_r, Z.ltb_irrefl. reflexivity.
  - assert (H1 : (time.sec t <? time.sec t + d) = true) by (apply Z.ltb_lt; lia).
    assert (H2 : (0 <? d) = true) by (apply Z.ltb_lt; lia).
    rewrite H1, H2. reflexivity.
Qed.

(** Adding a duration that fits moves the instant by that many
    nanoseconds. *)
Lemma Add_nanos (t : time.Time) (d : Z) :
  wf_time t -> 0 <= d < 2 ^ 63 ->
  time.nanos (time.Add t d) = time.nanos t + d
  /\ 0 <= time.nsec (time.Add t d) < 1000000000.
Proof.
  intros [Hn Hs] Hd. unfold time.Add.
  pose proof (Z.quot_rem' d 1000000000) as Hqr.
  assert (Hr : 0 <= Z.rem d 1000000000 < 1000000000).
  { apply Z.rem_bound_pos; lia. }
  assert (Hq : 0 <= Z.quot d 1000000000 < 2 ^ 34).
  { split; [apply Z.quot_pos; lia|].
    apply Z.quot_lt_upper_bound; lia. }
  destruct (1000000000 <=? time.nsec t + Z.rem d 1000000000) eqn:E1.
  - apply Z.leb_le in E1. rewrite addSec_small by (simpl; lia).
    unfold time.nanos. simpl. lia.
  - apply Z.leb_gt in E1.
    assert (E2 : (time.nsec t + Z.rem d 1000000000 <? 0) = false) by (apply Z.ltb_ge; lia).
    rewrite E2, addSec_small by (simpl; lia).
    unfold time.nanos. simpl. lia.
Qed.

Lemma After_nanos (t u : time.Time) :
  0 <= time.nsec t < 1000000000 -> 0 <= time.nsec u < 1000000000 ->
  time.After t u = true -> time.nanos u < time.nanos t.
Proof.
  intros Ht Hu. unfold time.After, time.nanos. intros H.
  apply orb_true_iff in H. destruct H as [H|H].
  - apply Z.ltb_lt in H. lia.
  - apply andb_true_iff in H. destruct H as [H1 H2].
    apply Z.eqb_eq in H1. apply Z.ltb_lt in H2. lia.
Qed.

(** Below the wrap-around, the periodic branch launches only strictly after
    [last_exit + launch_frequency], and only a plugin that is not running. *)
Lemma periodic_block_launch_in_range
      (running : bool * error) (now : time.Time) (currentManager : Z)
      (plugin p : Plugin) (flags : bool * bool) :
  Mode plugin = "periodic" ->
  0 <= LaunchFrequency plugin <= 9223372036 ->
  wf_time now -> wf_time (LastExit p) ->
  fst flags = false ->
  forall resume, periodic_block running now currentManager plugin p flags = Some (true, resume) ->
  running = (false, None)
  /\ time.nanos (LastExit p) + LaunchFrequency plugin * 1000000000 < time.nanos now.
Proof.
  intros Hm Hf Hnow Hexit Hflags resume. unfold periodic_block. rewrite Hm. simpl.
  destruct running as [[|] [e|]]; try discriminate.
  - destruct (negb _); intros H; inversion H; subst; simpl in *; congruence.
  - destruct (time.After _ _) eqn:E;
      [|intros H; inversion H; subst; simpl in *; congruence].
    intros _. split; [reflexivity|].
    assert (Hd : time.Seconds (LaunchFrequency plugin)
                 = LaunchFrequency plugin * 1000000000).
    { unfold time.Seconds, time.Second. rewrite wrap64_small; lia. }
    rewrite Hd in E.
    destruct (Add_nanos (d := LaunchFrequency plugin * 1000000000) Hexit) as [Ha Hb]; [lia|].
    apply After_nanos in E; [lia | apply Hnow | exact Hb].
Qed.

End TimeFacts.

(** ** The throttler *)

Section ThrottleFacts.
Import throttle Spec.
Variable fl : FloatOps.
Variable runtime_NumCPU : Z.

Lemma cycles_app (a b : list Call) : cycles a -> cycles b -> cycles (a ++ b).
Proof.
  induction 1; simpl; intros Hb; [assumption| |]; constructor; auto.
Qed.

Lemma darwin_ThrottleCpu_cycles (t : darwin.Throttle) (k : darwin.Tick fl) :
  cycles (snd (fst (darwin.ThrottleCpu runtime_NumCPU t k))).
Proof.
  unfold darwin.ThrottleCpu.
  destruct (darwin.percent k) as [pct [e|]]; simpl; [constructor|].
  destruct (darwin.suspend_err k); simpl; [repeat constructor|].
  destruct (darwin.resume_err k); simpl; repeat constructor.
Qed.

Lemma darwin_monitor_loop_cycles (ticks : list (darwin.Tick fl)) :
  forall t calls, cycles calls ->
    cycles (fst (darwin.monitor_loop runtime_NumCPU t ticks calls))
    /\ snd (darwin.monitor_loop runtime_NumCPU t ticks calls) = None.
Proof.
  induction ticks as [|k ticks IH]; intros t calls Hc; simpl; [auto|].
  pose proof (darwin_ThrottleCpu_cycles t k) as Hk.
  destruct (darwin.ThrottleCpu runtime_NumCPU t k) as [[t1 made] e]. simpl in Hk.
  apply IH. now apply cycles_app.
Qed.

Lemma windows_ThrottleCpu_cycles (tt : windows.Throttle fl) (k : windows.Tick fl) :
  cycles (snd (fst (windows.ThrottleCpu runtime_NumCPU tt k))).
Proof.
  unfold windows.ThrottleCpu.
  destruct (windows.proc_time k); simpl; repeat constructor.
Qed.

Lemma windows_monitor_loop_cycles (ticks : list (windows.Tick fl)) :
  forall tt calls, cycles calls ->
    cycles (fst (windows.monitor_loop runtime_NumCPU tt ticks calls))
    /\ snd (windows.monitor_loop runtime_NumCPU tt ticks calls) = None.
Proof.
  induction ticks as [|k ticks IH]; intros tt calls Hc; simpl; [auto|].
  pose proof (windows_ThrottleCpu_cycles tt k) as Hk.
  destruct (windows.ThrottleCpu runtime_NumCPU tt k) as [[tt1 made] e]. simpl in Hk.
  apply IH. now apply cycles_app.
Qed.

(** C6, as the code has it.  On both platforms [MonitorCpu] returns [nil]
    when the value sent on [quit] is received and makes no call on the
    process at that point: with the value already pending it makes no call
    at all.  The calls it made before consist of complete cycles, every
    successful suspend being followed in the same [ThrottleCpu] by the sleep
    and a resume call.  On Windows a failure to open the process returns
    the error before any call. *)
Theorem MonitorCpu_returns_without_final_resume (pid cpuLimit : Z) :
  (forall ticks : list (darwin.Tick fl),
      cycles (fst (darwin.MonitorCpu runtime_NumCPU ticks pid cpuLimit))
      /\ snd (darwin.MonitorCpu runtime_NumCPU ticks pid cpuLimit) = None)
  /\ darwin.MonitorCpu (fl := fl) runtime_NumCPU [] pid cpuLimit = ([], None)
  /\ (forall ticks : list (windows.Tick fl),
         cycles (fst (windows.MonitorCpu runtime_NumCPU None ticks pid cpuLimit))
         /\ snd (windows.MonitorCpu runtime_NumCPU None ticks pid cpuLimit) = None)
  /\ windows.MonitorCpu (fl := fl) runtime_NumCPU None [] pid cpuLimit = ([], None)
  /\ (forall e ticks,
         windows.MonitorCpu (fl := fl) runtime_NumCPU (Some e) ticks pid cpuLimit
         = ([], Some e)).
Proof.
  repeat split; try reflexivity.
  - apply darwin_monitor_loop_cycles. constructor.
  - apply darwin_monitor_loop_cycles. constructor.
  - apply windows_monitor_loop_cycles. constructor.
  - apply windows_monitor_loop_cycles. constructor.
Qed.

End ThrottleFacts.

Section ThrottleExamples.
Import throttle Spec.

(** C6, as stated, fails: when the value is sent on [quit] before the
    first pass of the loop, [MonitorCpu] returns without having made any
    call on the process, so no resume is issued, on either platform. *)
Lemma MonitorCpu_no_final_resume :
  ~ ends_with_resume (fst (darwin.MonitorCpu (fl := unit_floats) 8 [] 4242 10))
  /\ ~ ends_with_resume (fst (windows.MonitorCpu (fl := unit_floats) 8 None [] 4242 10)).
Proof.
  split; intros (pre & ok & H); simpl in H; destruct pre; discriminate.
Qed.

End ThrottleExamples.

Section TriggerExample.
Import Store Spec.

(** The trigger's delete with an offset of 2 in place of 20000: of the
    rowids 7, 3, 5 the two largest remain. *)
Example delete_offset_two :
  map rowid
      (Sql.delete_where_le rowid
         (Sql.scalar_at rowid 2 (Sql.order_by_desc rowid (message_queue queue3)))
         (message_queue queue3))
  = [7; 5].
Proof. reflexivity. Qed.

End TriggerExample.

Section AdoptRemarks.
Import Store client Spec.

(** The polling loop reloads [p] from the store, and the store has no
    column for the CPU limit: after one turn of the loop [p.CPULimit] is 0,
    so the exit path finds nothing to cancel. *)
Remark ResumePlugin_poll_clears_CPULimit
       (c : Client) (os : OS) (currentPID : Z) (p : Plugin) (now : time.Time) :
  let '(c1, p1, _) := ResumePlugin_poll c os currentPID p in
  CPULimit p1 = 0
  /\ snd (ResumePlugin_exit marshal_plugin c1 now p1) = false.
Proof.
  assert (H : forall db id, CPULimit (fst (snd (PluginSelectUUID db id))) = 0).
  { intros db id. unfold PluginSelectUUID, PluginCreateTable, Prepare.
    destruct (fault db); simpl; [reflexivity|].
    destruct (filter _ (plugins db)); simpl; [reflexivity|].
    destruct (String.eqb _ ""); reflexivity. }
  unfold ResumePlugin_poll.
  pose proof (H (LocalDb c) (UUID p)) as Hp.
  destruct (PluginSelectUUID (LocalDb c) (UUID p)) as [db1 [p1 [e|]]]; simpl in Hp.
  - unfold ResumePlugin_exit. rewrite Hp. simpl.
    split; [reflexivity|]. destruct (QueuePluginLog _ _ _); reflexivity.
  - destruct (IsRunning _ os p1) as [c2 [r [e|]]];
      unfold ResumePlugin_exit; rewrite Hp; simpl;
      (split; [reflexivity|]); destruct (QueuePluginLog _ _ _); reflexivity.
Qed.

(** By contrast the exit path of [LaunchBinary] does rewrite the record:
    status [complete] and a cleared process id. *)
Example LaunchBinary_exit_writes_record :
  map (fun r => (uuid r, process_id r, status r))
      (plugins (LocalDb (fst (LaunchBinary_exit marshal_plugin client_AB t1
                                (fst (snd (PluginSelectUUID db_AB "uuid-a")))
                                None ""))))
  = [("uuid-a", 0, "complete"); ("uuid-b", 200, "running")].
Proof. reflexivity. Qed.

(** The adopter's exit path on the same store leaves both records alone
    and queues one message. *)
Example ResumePlugin_exit_on_AB :
  let db' := LocalDb (fst (ResumePlugin_exit marshal_plugin client_AB t1
                             (fst (snd (PluginSelectUUID db_AB "uuid-a"))))) in
  map (fun r => (uuid r, process_id r, status r)) (plugins db')
  = [("uuid-a", 100, "running"); ("uuid-b", 200, "running")]
  /\ map post_string (message_queue db')
     = ["{plugin_uuid:uuid-a,status:exited after monitoring resumed}"].
Proof. split; reflexivity. Qed.

End AdoptRemarks.

(** * Further properties of the store and the drainer *)

Section StrictFacts.
Variable Row : Type.
Variable key : Row -> Z.

Abbreviation strictly := (StronglySorted (fun a b : Row => key a < key b)).

Lemma insert_row_front (r : Row) (l : list Row) :
  Forall (fun x => key r < key x) l -> Sql.insert_row key r l = r :: l.
Proof.
  destruct 1 as [|x l Hx _]; simpl; [reflexivity|].
  assert (H : (key r <=? key x) = true) by (apply Z.leb_le; lia).
  now rewrite H.
Qed.

Lemma order_by_strictly (l : list Row) : strictly l -> Sql.order_by key l = l.
Proof.
  induction 1 as [|x l Hs IH Hall]; simpl; [reflexivity|].
  rewrite IH. now apply insert_row_front.
Qed.

Lemma strictly_app_inv (l1 l2 : list Row) :
  strictly (l1 ++ l2) ->
  strictly l1 /\ strictly l2
  /\ forall a b, In a l1 -> In b l2 -> key a < key b.
Proof.
  induction l1 as [|x l1 IH]; simpl; intros Hs.
  - repeat split; [constructor | assumption | contradiction].
  - apply StronglySorted_inv in Hs. destruct Hs as [Hs Hall].
    destruct (IH Hs) as (H1 & H2 & H3).
    apply Forall_app in Hall. destruct Hall as [Ha Hb].
    repeat split; [constructor; assumption | assumption |].
    intros a b [<-|Ha'] Hb'; [|now apply H3].
    rewrite Forall_forall in Hb. now apply Hb.
Qed.

Lemma strictly_app (l1 l2 : list Row) :
  strictly l1 -> strictly l2 ->
  (forall a b, In a l1 -> In b l2 -> key a < key b) ->
  strictly (l1 ++ l2).
Proof.
  induction 1 as [|x l1 Hs IH Hall]; simpl; intros H2 Hlt; [assumption|].
  constructor.
  - apply IH; [assumption|]. intros; apply Hlt; [now right | assumption].
  - apply Forall_app. split; [assumption|].
    apply Forall_forall. intros b Hb. apply Hlt; [now left | assumption].
Qed.

Lemma strictly_filter (f : Row -> bool) (l : list Row) :
  strictly l -> strictly (filter f l).
Proof.
  induction 1 as [|x l Hs IH Hall]; simpl; [constructor|].
  destruct (f x); [|assumption]. constructor; [assumption|].
  rewrite Forall_forall in *. intros y Hy. apply filter_In in Hy. now apply Hall.
Qed.

Lemma strictly_skipn (n : nat) (l : list Row) : strictly l -> strictly (skipn n l).
Proof.
  intros Hs. rewrite <- (firstn_skipn n l) in Hs.
  now apply strictly_app_inv in Hs.
Qed.

Lemma filter_all (f : Row -> bool) (l : list Row) :
  (forall x, In x l -> f x = true) -> filter f l = l.
Proof.
  induction l as [|x l IH]; simpl; intros H; [reflexivity|].
  rewrite (H x (or_introl eq_refl)), IH; [reflexivity|].
  intros; apply H; now right.
Qed.

Lemma filter_none (f : Row -> bool) (l : list Row) :
  (forall x, In x l -> f x = false) -> filter f l = [].
Proof.
  induction l as [|x l IH]; simpl; intros H; [reflexivity|].
  rewrite (H x (or_introl eq_refl)). apply IH. intros; apply H; now right.
Qed.

(** In a strictly ordered table the rows above a pivot are the rows after
    it. *)
Lemma filter_above_pivot (l1 l2 : list Row) (p : Row) :
  strictly (l1 ++ p :: l2) ->
  filter (fun r => negb (key r <=? key p)) (l1 ++ p :: l2) = l2.
Proof.
  intros Hs. destruct (strictly_app_inv _ _ Hs) as (_ & H2 & Hlt).
  apply StronglySorted_inv in H2. destruct H2 as [_ Hall].
  rewrite Forall_forall in Hall.
  rewrite filter_app. simpl.
  rewrite filter_none.
  - assert (E : (key p <=? key p) = true) by (apply Z.leb_le; lia).
    rewrite E. simpl. apply filter_all.
    intros x Hx. apply negb_true_iff, Z.leb_gt. now apply Hall.
  - intros x Hx. apply negb_false_iff, Z.leb_le.
    specialize (Hlt x p Hx (or_introl eq_refl)). lia.
Qed.

(** On a strictly ordered table the trigger's delete keeps exactly the
    last [n] rows. *)
Lemma delete_offset_exact (n : nat) (q : list Row) :
  strictly q ->
  Sql.delete_where_le key (Sql.scalar_at key n (Sql.order_by_desc key q)) q
  = skipn (List.length q - n) q.
Proof.
  intros Hs. unfold Sql.scalar_at, Sql.order_by_desc.
  rewrite (order_by_strictly Hs).
  destruct (nth_error (rev q) n) as [p|] eqn:E; simpl.
  - destruct (nth_error_split _ _ E) as (a & b & Hrev & Hlen).
    assert (Hq : q = rev b ++ p :: rev a).
    { rewrite <- (rev_involutive q), Hrev, rev_app_distr. simpl.
      now rewrite <- app_assoc. }
    rewrite Hq in Hs |- *. rewrite (filter_above_pivot _ _ _ Hs).
    assert (Hl : (List.length (rev b ++ p :: rev a) - n = List.length (rev b ++ [p]))%nat).
    { rewrite !length_app. simpl. rewrite !length_rev. lia. }
    rewrite Hl.
    change (rev b ++ p :: rev a) with (rev b ++ [p] ++ rev a).
    rewrite app_assoc, skipn_app, Nat.sub_diag, skipn_all. reflexivity.
  - apply nth_error_None in E. rewrite length_rev in E.
    replace (List.length q - n)%nat with 0%nat by lia. reflexivity.
Qed.

Lemma delete_in_prefix (l1 l2 : list Row) :
  strictly (l1 ++ l2) ->
  Sql.delete_where_in key (map key l1) (l1 ++ l2) = l2.
Proof.
  intros Hs. unfold Sql.delete_where_in.
  destruct (strictly_app_inv _ _ Hs) as (_ & _ & Hlt).
  rewrite filter_app, filter_none, filter_all; [reflexivity| |].
  - intros x Hx. apply negb_true_iff. unfold Sql.key_in.
    destruct (existsb _ _) eqn:E; [|reflexivity].
    apply existsb_exists in E. destruct E as (z & Hz & Ez).
    apply in_map_iff in Hz. destruct Hz as (y & <- & Hy).
    apply Z.eqb_eq in Ez. specialize (Hlt y x Hy Hx). lia.
  - intros x Hx. apply negb_false_iff. unfold Sql.key_in.
    apply existsb_exists. exists (key x). split; [now apply in_map | apply Z.eqb_refl].
Qed.

(** Deleting the rowids of the first [k] rows of a strictly ordered table
    leaves the rows after them. *)
Lemma delete_in_firstn (k : nat) (q : list Row) :
  strictly q ->
  Sql.delete_where_in key (map key (firstn k q)) q = skipn k q.
Proof.
  intros Hs. rewrite <- (firstn_skipn k q) in Hs.
  pose proof (delete_in_prefix _ _ Hs) as H.
  now rewrite (firstn_skipn k q) in H.
Qed.

End StrictFacts.

Section QueueInvariant.
Import Store Spec Inv.

Lemma filter_split_length {A} (f : A -> bool) (l : list A) :
  (List.length (filter f l) + List.length (filter (fun x => negb (f x)) l)
   = List.length l)%nat.
Proof.
  induction l as [|x l IH]; simpl; [reflexivity|].
  destruct (f x); simpl; lia.
Qed.

(** X1.  On a healthy connection [MessageQueueDelete] with at least one
    rowid returns without error; the table keeps, in order, exactly the rows
    whose rowid is not in the list; the count returned is the number of rows
    that were in the list; table [plugins] is not touched. *)
Theorem MessageQueueDelete_removes_named (db : Database) (rowIds : list Z) :
  rowIds <> [] -> fault db = None ->
  exists db',
    MessageQueueDelete db rowIds
    = Returns (db', (len (filter (Sql.key_in rowid rowIds) (message_queue db)), None))
    /\ message_queue db'
       = filter (fun r => negb (Sql.key_in rowid rowIds r)) (message_queue db)
    /\ (forall r, In r (message_queue db')
                  <-> In r (message_queue db) /\ ~ In (rowid r) rowIds)
    /\ plugins db' = plugins db.
Proof.
  intros Hne Hf.
  unfold MessageQueueDelete, MessageQueueCreateTable, Prepare, strings.Repeat.
  rewrite Hf. simpl.
  assert (Hlen : (len rowIds - 1 <? 0) = false).
  { apply Z.ltb_ge. destruct rowIds; [congruence|]. unfold len. simpl List.length. lia. }
  rewrite Hlen, Hf.
  exists (set_message_queue (set_rolling_queue db true)
            (Sql.delete_where_in rowid rowIds (message_queue db))).
  split; [|split; [reflexivity|split; [|reflexivity]]].
  - unfold Sql.rows_affected, Sql.delete_where_in, len. simpl.
    pose proof (filter_split_length (Sql.key_in rowid rowIds) (message_queue db)) as H.
    do 3 f_equal. lia.
  - intros r. simpl. unfold Sql.delete_where_in. rewrite filter_In.
    unfold Sql.key_in. split; intros [Hin Hk]; (split; [assumption|]).
    + intros Hr. apply negb_true_iff in Hk.
      assert (existsb (Z.eqb (rowid r)) rowIds = true).
      { apply existsb_exists. exists (rowid r). split; [assumption|apply Z.eqb_refl]. }
      congruence.
    + apply negb_true_iff. destruct (existsb _ _) eqn:E; [|reflexivity].
      apply existsb_exists in E. destruct E as (z & Hz & Ez).
      apply Z.eqb_eq in Ez. subst z. contradiction.
Qed.

Lemma MessageQueueDelete_removes_named_witness :
  exists db',
    MessageQueueDelete queue_sorted3 [3; 7; 9] = Returns (db', (2, None))
    /\ map rowid (message_queue db') = [5].
Proof.
  destruct (@MessageQueueDelete_removes_named queue_sorted3 [3; 7; 9])
    as (db' & Hrun & Hq & _).
  - discriminate.
  - reflexivity.
  - exists db'. split; [exact Hrun|]. rewrite Hq. reflexivity.
Defined.

Lemma queue_wf_snoc (q : list QueueEntry) (postString postURI : string) :
  queue_wf q ->
  queue_wf (q ++ [{| post_string := postString; post_uri := postURI;
                     rowid := Sql.next_rowid rowid q |}]).
Proof.
  intros [Hs Hpos]. split.
  - apply strictly_app; [assumption | repeat constructor |].
    intros a b Ha [<-|[]]. simpl. now apply next_rowid_fresh.
  - apply Forall_app. split; [assumption|]. constructor; [|constructor]. simpl.
    destruct q as [|x q]; simpl; [lia|].
    destruct (max_key_ge rowid x q) as [H _].
    apply Forall_inv in Hpos. lia.
Qed.

Lemma queue_wf_skipn (n : nat) (q : list QueueEntry) : queue_wf q -> queue_wf (skipn n q).
Proof.
  intros [Hs Hpos]. split; [now apply strictly_skipn|].
  rewrite <- (firstn_skipn n q) in Hpos. now apply Forall_app in Hpos.
Qed.

Lemma queue_wf_filter (f : QueueEntry -> bool) (q : list QueueEntry) :
  queue_wf q -> queue_wf (filter f q).
Proof.
  intros [Hs Hpos]. split; [now apply strictly_filter|].
  rewrite Forall_forall in *. intros x Hx. apply filter_In in Hx. now apply Hpos.
Qed.

Lemma rolling_queue_body_exact (q : list QueueEntry) :
  queue_wf q ->
  rolling_queue_body q = skipn (List.length q - rolling_limit) q.
Proof. intros [Hs _]. unfold rolling_queue_body. now apply delete_offset_exact. Qed.

Lemma MessageQueueInsert_cases (db : Database) (postString postURI : string) :
  (snd (MessageQueueInsert db postString postURI) <> None
   /\ message_queue (fst (MessageQueueInsert db postString postURI)) = message_queue db)
  \/ (MessageQueueInsert db postString postURI =
      (set_message_queue (set_rolling_queue db true)
         (rolling_queue_body
            (message_queue db ++
               [{| post_string := postString; post_uri := postURI;
                   rowid := Sql.next_rowid rowid (message_queue db) |}])),
       None)).
Proof.
  destruct (snd (MessageQueueInsert db postString postURI)) eqn:E.
  - left. split; [discriminate|]. apply MessageQueueInsert_failed. rewrite E. discriminate.
  - right. destruct (MessageQueueInsert db postString postURI) as [db' e] eqn:E'.
    simpl in E. subst e. destruct (MessageQueueInsert_inv _ _ _ E') as [Hf Hid].
    rewrite <- E'. now apply MessageQueueInsert_ok.
Qed.

(** X2.  A table with rowids from 1 up in strictly increasing order stays
    so under every operation of the queue: insert (with its trigger),
    delete, select and vacuum; select and vacuum leave the rows as they
    are. *)
Theorem queue_wf_preserved (db : Database) :
  queue_wf (message_queue db) ->
  (forall postString postURI,
      queue_wf (message_queue (fst (MessageQueueInsert db postString postURI))))
  /\ (forall rowIds db' r,
         MessageQueueDelete db rowIds = Returns (db', r) ->
         queue_wf (message_queue db'))
  /\ (forall uri, message_queue (fst (MessageQueueSelectURI db uri)) = message_queue db)
  /\ message_queue (fst (Vacuum db)) = message_queue db.
Proof.
  intros Hwf. split; [|split; [|split]].
  - intros ps pu. destruct (MessageQueueInsert_cases db ps pu) as [[_ ->]| ->];
      [assumption|]. simpl.
    rewrite rolling_queue_body_exact by now apply queue_wf_snoc.
    now apply queue_wf_skipn, queue_wf_snoc.
  - intros rowIds db' r.
    unfold MessageQueueDelete, MessageQueueCreateTable, Prepare.
    destruct (fault db) eqn:Hf.
    + intros H; injection H as <- _. assumption.
    + simpl. destruct (strings.Repeat _ _); try discriminate.
      rewrite Hf. intros H; injection H as <- _. simpl.
      now apply queue_wf_filter.
  - intros uri. destruct (fault db) eqn:Hf.
    + now rewrite (MessageQueueSelectURI_fault db uri Hf).
    + now rewrite (MessageQueueSelectURI_ok db uri Hf).
  - reflexivity.
Qed.

Lemma queue_sorted3_wf : queue_wf (message_queue queue_sorted3).
Proof.
  split; simpl.
  - repeat constructor; simpl; lia.
  - repeat constructor; simpl; lia.
Defined.

Lemma queue_wf_preserved_witness :
  queue_wf (message_queue (fst (MessageQueueInsert queue_sorted3 "m4" "/core/pluginlog/")))
  /\ map rowid (message_queue (fst (MessageQueueInsert queue_sorted3 "m4" "/core/pluginlog/")))
     = [3; 5; 7; 8].
Proof.
  split; [|vm_compute; reflexivity].
  destruct (queue_wf_preserved queue_sorted3 queue_sorted3_wf) as [H _]. apply H.
Defined.

(** X3.  On a well-formed table a successful insert leaves exactly the
    newest rows: the old table with the new row appended, less its first
    [length + 1 - 20000] rows. *)
Theorem MessageQueueInsert_keeps_newest
        (db db' : Database) (postString postURI : string) :
  queue_wf (message_queue db) ->
  MessageQueueInsert db postString postURI = (db', None) ->
  message_queue db'
  = skipn (List.length (message_queue db) + 1 - Z.to_nat 20000)
          (message_queue db ++
             [{| post_string := postString; post_uri := postURI;
                 rowid := Sql.next_rowid rowid (message_queue db) |}]).
Proof.
  intros Hwf H. destruct (MessageQueueInsert_inv _ _ _ H) as [Hf Hid].
  rewrite (MessageQueueInsert_ok db postString postURI Hf Hid) in H.
  injection H as <-. simpl.
  rewrite rolling_queue_body_exact by now apply queue_wf_snoc.
  rewrite length_app. reflexivity.
Qed.

Lemma MessageQueueInsert_keeps_newest_witness :
  map post_string
      (message_queue (fst (MessageQueueInsert queue_sorted3 "m4" "/core/pluginlog/")))
  = ["m1"; ""; "m3"; "m4"].
Proof.
  rewrite (@MessageQueueInsert_keeps_newest queue_sorted3
             (fst (MessageQueueInsert queue_sorted3 "m4" "/core/pluginlog/"))
             "m4" "/core/pluginlog/" queue_sorted3_wf).
  - vm_compute. reflexivity.
  - vm_compute. reflexivity.
Defined.

Lemma select_oldest_wf (q : list QueueEntry) :
  queue_wf q -> select_oldest q = firstn 100 q.
Proof.
  intros [Hs _]. unfold select_oldest, Sql.limit. now rewrite order_by_strictly.
Qed.

Lemma nonzero_rowids (l : list QueueEntry) :
  Forall (fun e => 1 <= rowid e) l -> filter nonzero (map rowid l) = map rowid l.
Proof.
  induction 1 as [|x l Hx _ IH]; simpl; [reflexivity|].
  unfold nonzero at 1. assert (E : (rowid x =? 0) = false) by (apply Z.eqb_neq; lia).
  rewrite E. simpl. now rewrite IH.
Qed.

Lemma selected_wf (db : Database) (uri : string) :
  queue_wf (message_queue db) -> fault db = None ->
  selected db uri
  = (filter nonempty (map post_string (firstn 100 (message_queue db))),
     map rowid (firstn 100 (message_queue db))).
Proof.
  intros Hwf Hf. rewrite (selected_ok db uri Hf), (select_oldest_wf Hwf).
  rewrite nonzero_rowids; [reflexivity|].
  destruct Hwf as [_ Hpos].
  rewrite <- (firstn_skipn 100 (message_queue db)) in Hpos.
  now apply Forall_app in Hpos.
Qed.

(** X4.  First in, first out: on a healthy, well-formed table
    [MessageQueueSelectURI] returns the rowids of the first 100 rows in
    table order, none left out, and their non-empty payloads in the same
    order; the number of rowids is the smaller of 100 and the row count. *)
Theorem MessageQueueSelectURI_fifo (db : Database) (uri : string) :
  queue_wf (message_queue db) -> fault db = None ->
  selected db uri
  = (filter nonempty (map post_string (firstn 100 (message_queue db))),
     map rowid (firstn 100 (message_queue db)))
  /\ List.length (snd (selected db uri))
     = Nat.min 100 (List.length (message_queue db))
  /\ select_error db uri = None.
Proof.
  intros Hwf Hf. rewrite (selected_wf db uri Hwf Hf). cbn [fst snd].
  split; [reflexivity|]. split.
  - now rewrite length_map, length_firstn.
  - unfold select_error. now rewrite (MessageQueueSelectURI_ok db uri Hf).
Qed.

Lemma MessageQueueSelectURI_fifo_witness :
  selected queue_sorted3 "/core/pluginlog/" = (["m1"; "m3"], [3; 5; 7]).
Proof.
  destruct (@MessageQueueSelectURI_fifo queue_sorted3 "/core/pluginlog/"
              queue_sorted3_wf eq_refl) as [H _].
  rewrite H. reflexivity.
Defined.

End QueueInvariant.

Section DrainTurns.
Import Store Spec Inv.
Variable W : Type.
Variable env : comms.Env W.
Variable Marshal_strings : list string -> string * error.

(** X5.  A successful turn removes exactly the batch.  On a healthy,
    well-formed table with a message in the batch, when the messages are
    marshalled and [Send] reports no error, the turn returns, the table is
    left without its first 100 rows (empty when it had fewer), table
    [plugins] is untouched, and the pause is one second when the batch had
    100 messages and the poll time (after a vacuum) otherwise. *)
Theorem drain_once_removes_batch
        (w w1 : W) (s : comms.Sender) (db : Database) (msgBytes resp : string) :
  queue_wf (message_queue db) -> fault db = None ->
  fst (selected db pluginlog) <> [] ->
  Marshal_strings (fst (selected db pluginlog)) = (msgBytes, None) ->
  comms.Send env w s msgBytes pluginlog = Returns (w1, (resp, None)) ->
  exists db',
    drainer.drain_once env Marshal_strings w s db
    = Returns (w1, db',
               if 100 <=? len (fst (selected db pluginlog))
               then drainer.SleepOneSecond else drainer.SleepPollTime)
    /\ message_queue db' = skipn 100 (message_queue db)
    /\ plugins db' = plugins db.
Proof.
  intros Hwf Hf Hmsgs Hm Hsend.
  pose proof (selected_wf db pluginlog Hwf Hf) as Hsel.
  unfold drainer.drain_once. fold pluginlog.
  unfold selected in Hsel, Hmsgs, Hm |- *.
  destruct (MessageQueueSelectURI db pluginlog) as [db1 [[messages rowIds] serr]] eqn:E.
  rewrite (MessageQueueSelectURI_ok db pluginlog Hf) in E.
  injection E as <- Hmsg Hrow _.
  cbn [fst snd] in Hsel, Hmsgs, Hm |- *.
  apply pair_equal_spec in Hsel. destruct Hsel as [Hs1 Hs2].
  assert (Hne : rowIds <> []).
  { rewrite Hs2. intros Hnil. apply Hmsgs. rewrite Hs1.
    apply map_eq_nil in Hnil. now rewrite Hnil. }
  assert (Hlen : (len messages =? 0) = false).
  { apply Z.eqb_neq. unfold len. destruct messages; [congruence|]. simpl List.length. lia. }
  rewrite Hlen, Hm, Hsend.
  rewrite (remove_messages_ok (set_rolling_queue db true) Hf Hne).
  exists (set_message_queue (set_rolling_queue db true)
            (Sql.delete_where_in rowid rowIds (message_queue db))).
  split; [destruct (100 <=? len messages); reflexivity|].
  split; [|reflexivity].
  simpl. rewrite Hs2. apply delete_in_firstn. apply Hwf.
Qed.

(** X6.  A turn that selects no message makes no request and deletes
    nothing: the world and the rows are as before, the pause is the poll
    time, and the next turn selects the same.  This covers the empty queue,
    a failing connection, and a batch in which every payload is empty: such
    a batch is never posted and never removed. *)
Theorem drain_once_idle (w : W) (s : comms.Sender) (db : Database) :
  fst (selected db pluginlog) = [] ->
  exists db',
    drainer.drain_once env Marshal_strings w s db = Returns (w, db', drainer.SleepPollTime)
    /\ message_queue db' = message_queue db
    /\ selected db' pluginlog = selected db pluginlog.
Proof.
  intros Hnone. unfold drainer.drain_once. fold pluginlog.
  unfold selected in Hnone |- *.
  destruct (fault db) as [e|] eqn:Hf.
  - rewrite (MessageQueueSelectURI_fault db pluginlog Hf). simpl.
    exists db. repeat split.
    now rewrite (MessageQueueSelectURI_fault db pluginlog Hf).
  - rewrite (MessageQueueSelectURI_ok db pluginlog Hf) in Hnone |- *.
    cbn [fst snd] in Hnone |- *. rewrite Hnone. simpl.
    exists (set_rolling_queue db true). repeat split.
    rewrite (MessageQueueSelectURI_ok (set_rolling_queue db true) pluginlog Hf).
    cbn [fst snd]. simpl message_queue. now rewrite Hnone.
Qed.

End DrainTurns.

Section DrainTurnExamples.
Import Store Spec Inv.

Lemma drain_once_removes_batch_witness :
  exists db',
    drainer.drain_once env_accepts marshal_list tt sender0 queue_sorted3
    = Returns (tt, db', drainer.SleepPollTime)
    /\ message_queue db' = [].
Proof.
  destruct (@drain_once_removes_batch unit env_accepts marshal_list tt tt sender0
              queue_sorted3 "[m1,m3]" "{}" queue_sorted3_wf eq_refl)
    as (db' & Hrun & Hq & _).
  - vm_compute. discriminate.
  - reflexivity.
  - reflexivity.
  - exists db'. split; [exact Hrun | exact Hq].
Defined.

Lemma drain_once_idle_witness :
  exists db',
    drainer.drain_once env_accepts marshal_list tt sender0 queue_blank
    = Returns (tt, db', drainer.SleepPollTime)
    /\ map rowid (message_queue db') = [1; 2].
Proof.
  destruct (@drain_once_idle unit env_accepts marshal_list tt sender0 queue_blank eq_refl)
    as (db' & Hrun & Hq & _).
  exists db'. split; [exact Hrun|]. rewrite Hq. reflexivity.
Defined.

End DrainTurnExamples.

(** * The plugin table *)

Section PluginTable.
Import Store Spec Inv PluginSpec.

Lemma persisted_row (p : Plugin) (id : Z) :
  plugin_of_row (row_of_plugin p id) = persisted p.
Proof. reflexivity. Qed.

Lemma PluginInsert_ok (db : Database) (p : Plugin) :
  fault db = None ->
  PluginInsert db p
  = (set_plugins db
       (if existsb (has_uuid (UUID p)) (plugins db)
        then upsert_rows p (plugins db)
        else upsert_rows p (plugins db)
             ++ [row_of_plugin p (Sql.next_rowid plugin_rowid (plugins db))]),
     None).
Proof.
  intros Hf. unfold PluginInsert, PluginCreateTable, Prepare. rewrite Hf.
  reflexivity.
Qed.

Lemma upsert_rows_absent (p : Plugin) (t : list PluginRow) :
  existsb (has_uuid (UUID p)) t = false -> upsert_rows p t = t.
Proof.
  unfold upsert_rows, has_uuid. induction t as [|r t IH]; simpl; [reflexivity|].
  intros H. apply orb_false_iff in H. destruct H as [H1 H2].
  now rewrite H1, IH.
Qed.

Lemma upsert_rows_uuid (p : Plugin) (t : list PluginRow) :
  map uuid (upsert_rows p t) = map uuid t.
Proof.
  unfold upsert_rows. induction t as [|r t IH]; simpl; [reflexivity|].
  rewrite IH. destruct (String.eqb (uuid r) (UUID p)) eqn:E; [|reflexivity].
  apply String.eqb_eq in E. simpl. now rewrite E.
Qed.

Lemma filter_upsert_same (p : Plugin) (t : list PluginRow) :
  filter (has_uuid (UUID p)) (upsert_rows p t)
  = map (fun r => row_of_plugin p (plugin_rowid r)) (filter (has_uuid (UUID p)) t).
Proof.
  unfold upsert_rows, has_uuid. induction t as [|r t IH]; simpl; [reflexivity|].
  destruct (String.eqb (uuid r) (UUID p)) eqn:E; simpl.
  - rewrite String.eqb_refl. simpl. now rewrite IH.
  - rewrite E. exact IH.
Qed.

Lemma filter_upsert_other (p : Plugin) (id : string) (t : list PluginRow) :
  id <> UUID p ->
  filter (has_uuid id) (upsert_rows p t) = filter (has_uuid id) t.
Proof.
  intros Hne. unfold upsert_rows, has_uuid.
  induction t as [|r t IH]; simpl; [reflexivity|].
  destruct (String.eqb (uuid r) (UUID p)) eqn:E; simpl.
  - apply String.eqb_eq in E.
    assert (H1 : String.eqb (UUID p) id = false) by (apply String.eqb_neq; congruence).
    assert (H2 : String.eqb (uuid r) id = false) by (apply String.eqb_neq; congruence).
    now rewrite H1, H2.
  - now rewrite IH.
Qed.

Lemma existsb_filter_nil {A} (f : A -> bool) (l : list A) :
  existsb f l = false <-> filter f l = [].
Proof.
  induction l as [|x l IH]; simpl; [tauto|].
  destruct (f x); simpl; [split; discriminate | exact IH].
Qed.

Lemma PluginSelectUUID_ok (db : Database) (id : string) :
  fault db = None ->
  PluginSelectUUID db id
  = (db, (match filter (has_uuid id) (plugins db) with
          | [] => zeroPlugin
          | r :: _ =>
              if String.eqb (uuid r) ""
              then set_LastStart (set_LastExit (plugin_of_row r) time.zero) time.zero
              else plugin_of_row r
          end, None)).
Proof.
  intros Hf. unfold PluginSelectUUID, PluginCreateTable, Prepare, has_uuid.
  rewrite Hf. cbv beta iota.
  destruct (filter _ (plugins db)) as [|r l]; [reflexivity|].
  simpl. destruct (String.eqb (uuid r) ""); reflexivity.
Qed.

Lemma select_after_insert (db : Database) (p : Plugin) :
  fault db = None -> UUID p <> "" ->
  snd (PluginSelectUUID (fst (PluginInsert db p)) (UUID p)) = (persisted p, None).
Proof.
  intros Hf Hid. rewrite (PluginInsert_ok db p Hf). cbn [fst snd].
  rewrite PluginSelectUUID_ok by exact Hf. cbn [fst snd]. f_equal.
  simpl plugins.
  assert (Hne : String.eqb (UUID p) "" = false) by now apply String.eqb_neq.
  destruct (existsb (has_uuid (UUID p)) (plugins db)) eqn:E.
  - rewrite filter_upsert_same.
    destruct (filter (has_uuid (UUID p)) (plugins db)) as [|r l] eqn:Ef.
    + apply existsb_filter_nil in Ef. congruence.
    + simpl. now rewrite Hne.
  - rewrite filter_app, filter_upsert_same.
    apply existsb_filter_nil in E. rewrite E. simpl.
    unfold has_uuid at 1. simpl. rewrite String.eqb_refl. simpl. now rewrite Hne.
Qed.

(** X7.  Insert, then look up.  On a healthy connection [PluginInsert]
    reports no error, and [PluginSelectUUID] of the uuid just written
    returns the written columns (name, mode, process name and id, manager,
    status, message, both instants), the fields that are not columns being
    zero; the message queue is not touched. *)
Theorem PluginInsert_then_select (db : Database) (p : Plugin) :
  fault db = None -> UUID p <> "" ->
  snd (PluginInsert db p) = None
  /\ snd (PluginSelectUUID (fst (PluginInsert db p)) (UUID p)) = (persisted p, None)
  /\ message_queue (fst (PluginInsert db p)) = message_queue db.
Proof.
  intros Hf Hid. split; [|split].
  - now rewrite (PluginInsert_ok db p Hf).
  - now apply select_after_insert.
  - now rewrite (PluginInsert_ok db p Hf).
Qed.

Lemma PluginInsert_then_select_witness :
  snd (PluginSelectUUID (fst (PluginInsert db_AB pluginQ)) "uuid-q")
  = (persisted pluginQ, None)
  /\ CPULimit (persisted pluginQ) = 0
  /\ CurrentManager (persisted pluginQ) = 7.
Proof.
  destruct (@PluginInsert_then_select db_AB pluginQ eq_refl) as (_ & H & _).
  - discriminate.
  - split; [exact H|]. split; reflexivity.
Defined.

(** X8.  [PluginInsert] is an upsert by uuid.  On a healthy connection the
    lookup of every other uuid answers as before; the uuids of the table are
    as before, with the written uuid added at the end when it was absent;
    so a table with distinct uuids keeps distinct uuids and grows by at most
    one row. *)
Theorem PluginInsert_upsert (db : Database) (p : Plugin) :
  fault db = None ->
  (forall id, id <> UUID p ->
              snd (PluginSelectUUID (fst (PluginInsert db p)) id)
              = snd (PluginSelectUUID db id))
  /\ map uuid (plugins (fst (PluginInsert db p)))
     = (if existsb (has_uuid (UUID p)) (plugins db) then map uuid (plugins db)
        else map uuid (plugins db) ++ [UUID p])
  /\ (plugins_wf (plugins db) -> plugins_wf (plugins (fst (PluginInsert db p)))).
Proof.
  intros Hf. rewrite (PluginInsert_ok db p Hf). cbn [fst].
  assert (Huuid : map uuid (plugins (set_plugins db
            (if existsb (has_uuid (UUID p)) (plugins db)
             then upsert_rows p (plugins db)
             else upsert_rows p (plugins db)
                  ++ [row_of_plugin p (Sql.next_rowid plugin_rowid (plugins db))])))
          = (if existsb (has_uuid (UUID p)) (plugins db) then map uuid (plugins db)
             else map uuid (plugins db) ++ [UUID p])).
  { simpl plugins. destruct (existsb _ _).
    - apply upsert_rows_uuid.
    - rewrite map_app, upsert_rows_uuid. reflexivity. }
  split; [|split; [exact Huuid|]].
  - intros id Hne. rewrite !PluginSelectUUID_ok by exact Hf. cbn [fst snd].
    f_equal. simpl plugins.
    destruct (existsb (has_uuid (UUID p)) (plugins db)).
    + now rewrite filter_upsert_other.
    + rewrite filter_app, filter_upsert_other by exact Hne.
      unfold has_uuid at 2. simpl.
      assert (H1 : String.eqb (UUID p) id = false) by (apply String.eqb_neq; congruence).
      rewrite H1, app_nil_r. reflexivity.
  - unfold plugins_wf. rewrite Huuid. intros Hnd.
    destruct (existsb (has_uuid (UUID p)) (plugins db)) eqn:E; [assumption|].
    apply NoDup_app; [assumption | repeat constructor; intros [] |].
    intros u Hu [<-|[]].
    apply in_map_iff in Hu. destruct Hu as (r & Hr & Hin).
    assert (existsb (has_uuid (UUID p)) (plugins db) = true).
    { apply existsb_exists. exists r. split; [assumption|].
      unfold has_uuid. now apply String.eqb_eq. }
    congruence.
Qed.

Lemma PluginInsert_upsert_witness :
  map uuid (plugins (fst (PluginInsert db_AB pluginQ))) = ["uuid-a"; "uuid-b"; "uuid-q"]
  /\ plugins_wf (plugins (fst (PluginInsert db_AB pluginQ))).
Proof.
  destruct (@PluginInsert_upsert db_AB pluginQ eq_refl) as (_ & Hu & Hwf).
  split; [rewrite Hu; reflexivity|].
  apply Hwf. unfold plugins_wf. simpl.
  repeat constructor; simpl; intuition discriminate.
Defined.

(** X9.  The lookup contract.  On a healthy connection [PluginSelectUUID]
    reports no error; for a non-empty uuid it returns a plugin of that uuid
    when a row has it and the zero plugin, whose uuid is empty, when none
    has; it changes nothing in the store. *)
Theorem PluginSelectUUID_contract (db : Database) (id : string) :
  fault db = None -> id <> "" ->
  fst (PluginSelectUUID db id) = db
  /\ snd (snd (PluginSelectUUID db id)) = None
  /\ (In id (map uuid (plugins db)) ->
      UUID (fst (snd (PluginSelectUUID db id))) = id)
  /\ (~ In id (map uuid (plugins db)) ->
      fst (snd (PluginSelectUUID db id)) = zeroPlugin).
Proof.
  intros Hf Hid. rewrite PluginSelectUUID_ok by exact Hf. cbn [fst snd].
  split; [reflexivity|]. split; [reflexivity|].
  destruct (filter (has_uuid id) (plugins db)) as [|r l] eqn:Ef.
  - split; [|reflexivity]. intros Hin. exfalso.
    apply in_map_iff in Hin. destruct Hin as (r & Hr & Hin).
    assert (H : In r (filter (has_uuid id) (plugins db))).
    { apply filter_In. split; [assumption|]. unfold has_uuid. now apply String.eqb_eq. }
    now rewrite Ef in H.
  - assert (Hr : In r (filter (has_uuid id) (plugins db))) by (rewrite Ef; now left).
    apply filter_In in Hr. destruct Hr as [Hin Hu].
    unfold has_uuid in Hu. apply String.eqb_eq in Hu.
    assert (Hne : String.eqb (uuid r) "" = false) by (apply String.eqb_neq; congruence).
    rewrite Hne. split; [intros _; exact Hu|].
    intros Hn. exfalso. apply Hn. apply in_map_iff. exists r. auto.
Qed.

Lemma PluginSelectUUID_contract_witness :
  UUID (fst (snd (PluginSelectUUID db_AB "uuid-b"))) = "uuid-b"
  /\ fst (snd (PluginSelectUUID db_AB "uuid-z")) = zeroPlugin.
Proof.
  split.
  - destruct (@PluginSelectUUID_contract db_AB "uuid-b" eq_refl) as (_ & _ & H & _).
    + discriminate.
    + apply H. simpl. auto.
  - destruct (@PluginSelectUUID_contract db_AB "uuid-z" eq_refl) as (_ & _ & _ & H).
    + discriminate.
    + apply H. simpl. intuition discriminate.
Defined.

End PluginTable.

(** * Plugin status and the supervisor's decisions *)

Section StatusFacts.
Import Store client Spec Inv PluginSpec.

Lemma find_pid_some (l : list (Z * string)) (pid q : Z) (exe : string) :
  find_pid l pid = Some (q, exe) -> q = pid /\ In (pid, exe) l.
Proof.
  induction l as [|[q' exe'] l IH]; simpl; [discriminate|].
  destruct (q' =? pid) eqn:E.
  - intros H; injection H as <- <-. apply Z.eqb_eq in E. subst. auto.
  - intros H. destruct (IH H). auto.
Qed.

(** X10.  [IsRunning] answers true exactly when the record stored for the
    plugin's uuid is read without error, has status [running], a non-zero
    process id and a non-empty process name, and the process table, read
    without error, holds a process of that id whose executable name is the
    stored name.  It never answers true together with an error, and the
    process it vouches for is in the table.  The store is not changed. *)
Theorem IsRunning_characterised (c : Client) (os : OS) (p : Plugin) :
  let stored := fst (snd (PluginSelectUUID (LocalDb c) (UUID p))) in
  (fst (snd (IsRunning c os p)) = true
   <-> snd (snd (PluginSelectUUID (LocalDb c) (UUID p))) = None
       /\ Status stored = "running"
       /\ ProcessID stored <> 0
       /\ ProcessName stored <> ""
       /\ ps_error os = None
       /\ exists q, find_pid (processes os) (ProcessID stored)
                    = Some (q, ProcessName stored))
  /\ (fst (snd (IsRunning c os p)) = true ->
      snd (snd (IsRunning c os p)) = None
      /\ In (ProcessID stored, ProcessName stored) (processes os))
  /\ fst (IsRunning c os p) = c.
Proof.
  intros stored. subst stored. unfold IsRunning.
  assert (Hdb : fst (PluginSelectUUID (LocalDb c) (UUID p)) = LocalDb c).
  { unfold PluginSelectUUID, PluginCreateTable, Prepare.
    destruct (fault (LocalDb c)); simpl; [reflexivity|].
    destruct (filter _ _); [reflexivity|].
    simpl. destruct (String.eqb _ ""); reflexivity. }
  destruct (PluginSelectUUID (LocalDb c) (UUID p)) as [db1 [sp [e|]]].
  { simpl in *. subst db1. repeat split; try discriminate.
    - intros (H & _). discriminate.
    - destruct c; reflexivity. }
  simpl in Hdb. subst db1. cbn [fst snd].
  assert (Hc : set_LocalDb c (LocalDb c) = c) by (destruct c; reflexivity).
  rewrite Hc.
  destruct (String.eqb (Status sp) "running") eqn:Es; cbn [negb].
  2:{ apply String.eqb_neq in Es. cbn [fst snd].
      repeat split; try discriminate. intros (_ & H & _). contradiction. }
  apply String.eqb_eq in Es.
  destruct (ProcessID sp =? 0) eqn:Ep; cbn [orb].
  { apply Z.eqb_eq in Ep. cbn [fst snd].
    repeat split; try discriminate. intros (_ & _ & H & _). contradiction. }
  apply Z.eqb_neq in Ep.
  destruct (String.eqb (ProcessName sp) "") eqn:En.
  { apply String.eqb_eq in En. cbn [fst snd].
    repeat split; try discriminate. intros (_ & _ & _ & H & _). contradiction. }
  apply String.eqb_neq in En.
  unfold FindProcess.
  destruct (ps_error os) as [e|] eqn:Eps.
  { cbn [fst snd]. repeat split; try discriminate.
    intros (_ & _ & _ & _ & H & _). discriminate. }
  destruct (find_pid (processes os) (ProcessID sp)) as [[q exe]|] eqn:Ef.
  2:{ cbn [fst snd]. repeat split; try discriminate.
      intros (_ & _ & _ & _ & _ & q & H). discriminate. }
  destruct (String.eqb exe (ProcessName sp)) eqn:Ee; cbn [negb fst snd].
  - apply String.eqb_eq in Ee. subst exe.
    destruct (find_pid_some _ _ Ef) as [-> Hin].
    repeat split; auto. eauto.
  - apply String.eqb_neq in Ee.
    repeat split; try discriminate.
    intros (_ & _ & _ & _ & _ & q' & H). congruence.
Qed.

Lemma IsRunning_no_error (c : Client) (os : OS) (p : Plugin) :
  fault (LocalDb c) = None -> snd (snd (IsRunning c os p)) = None.
Proof.
  intros Hf. unfold IsRunning. rewrite (PluginSelectUUID_ok _ _ Hf). cbv beta iota.
  destruct (negb _); [reflexivity|].
  destruct (_ || _); [reflexivity|].
  destruct (FindProcess os _) as [[[q exe]|] [e|]]; try reflexivity.
  destruct (negb _); reflexivity.
Qed.

End StatusFacts.

Section DecisionFacts.
Import Store client supervisor Spec Inv PluginSpec SupervisorSpec.

Lemma decide_blocks (c : Client) (os : OS) (now : time.Time) (currentManager : Z)
      (plugin : Plugin) :
  fault (LocalDb c) = None ->
  decide c os now currentManager plugin
  = match oneshot_block plugin (stored c plugin) (false, false) with
    | None => Continue
    | Some f1 =>
        match persistent_block (is_running c os plugin, None) currentManager
                               plugin (stored c plugin) f1 with
        | None => Continue
        | Some f2 =>
            match periodic_block (is_running c os plugin, None) now currentManager
                                 plugin (stored c plugin) f2 with
            | None => Continue
            | Some (true, _) => Launch
            | Some (false, true) => Resume
            | Some (false, false) => Neither
            end
        end
    end.
Proof.
  intros Hf. unfold decide, stored, is_running.
  pose proof (IsRunning_no_error c os plugin Hf) as Herr.
  rewrite (PluginSelectUUID_ok _ _ Hf). cbv beta iota. cbn [fst snd].
  assert (Hc : set_LocalDb c (LocalDb c) = c) by (destruct c; reflexivity).
  rewrite Hc.
  change (IsRunning c os (set_ProcessID plugin _)) with (IsRunning c os plugin).
  destruct (IsRunning c os plugin) as [c1 [r e]]. simpl in Herr. subst e.
  reflexivity.
Qed.

(** X11.  The decision for one-shot and persistent plugins, on a healthy
    connection.  A one-shot plugin is launched exactly when its stored
    status is empty, or is [error] and it is configured to retry; with
    status [error] and no retry the rest of the turn is skipped; with any
    other status nothing is done.  A persistent plugin is launched exactly
    when it is not running, adopted exactly when it is running under another
    manager, and left alone when this agent manages it.  A plugin of any
    other mode than the three is never launched or adopted. *)
Theorem decide_table (c : Client) (os : OS) (now : time.Time) (currentManager : Z)
        (plugin : Plugin) :
  fault (LocalDb c) = None ->
  (Mode plugin = "oneshot" ->
   decide c os now currentManager plugin
   = if String.eqb (Status (stored c plugin)) "" then Launch
     else if String.eqb (Status (stored c plugin)) "error"
          then (if RetryFailure plugin then Launch else Continue)
          else Neither)
  /\ (Mode plugin = "persistent" ->
      decide c os now currentManager plugin
      = if negb (is_running c os plugin) then Launch
        else if CurrentManager (stored c plugin) =? currentManager then Neither
             else Resume)
  /\ (Mode plugin <> "oneshot" -> Mode plugin <> "persistent" ->
      Mode plugin <> "periodic" ->
      decide c os now currentManager plugin = Neither).
Proof.
  intros Hf. rewrite (decide_blocks c os now currentManager plugin Hf).
  unfold oneshot_block, persistent_block, periodic_block.
  split; [|split].
  - intros ->. simpl.
    destruct (String.eqb (Status (stored c plugin)) ""); [reflexivity|].
    destruct (String.eqb (Status (stored c plugin)) "error"); [|reflexivity].
    destruct (RetryFailure plugin); reflexivity.
  - intros ->. simpl.
    destruct (is_running c os plugin); simpl; [|reflexivity].
    destruct (CurrentManager (stored c plugin) =? currentManager); reflexivity.
  - intros H1 H2 H3.
    apply String.eqb_neq in H1, H2, H3. now rewrite H1, H2, H3.
Qed.

Lemma decide_table_witness :
  decide pluginA_stored_foreign os_AB t1 4711 pluginA = Resume
  /\ decide pluginA_stored_foreign os_AB t1 1 pluginA = Neither.
Proof.
  destruct (@decide_table pluginA_stored_foreign os_AB t1 4711 pluginA eq_refl)
    as (_ & H1 & _).
  destruct (@decide_table pluginA_stored_foreign os_AB t1 1 pluginA eq_refl)
    as (_ & H2 & _).
  rewrite (H1 eq_refl), (H2 eq_refl). split; reflexivity.
Defined.

Lemma After_nanos_iff (t u : time.Time) :
  0 <= time.nsec t < 1000000000 -> 0 <= time.nsec u < 1000000000 ->
  time.After t u = (time.nanos u <? time.nanos t).
Proof.
  intros Ht Hu. unfold time.After, time.nanos.
  destruct (time.sec u <? time.sec t) eqn:E1; simpl.
  - apply Z.ltb_lt in E1. symmetry. apply Z.ltb_lt. lia.
  - apply Z.ltb_ge in E1. destruct (time.sec t =? time.sec u) eqn:E2; simpl.
    + apply Z.eqb_eq in E2. rewrite E2.
      destruct (time.nsec u <? time.nsec t) eqn:E3; symmetry.
      * apply Z.ltb_lt in E3. apply Z.ltb_lt. lia.
      * apply Z.ltb_ge in E3. apply Z.ltb_ge. lia.
    + apply Z.eqb_neq in E2. symmetry. apply Z.ltb_ge. lia.
Qed.

(** X12.  The decision for a periodic plugin whose launch frequency is
    between 0 and 9223372036 seconds (so that its nanoseconds fit an
    [int64]), on a healthy connection and with well-formed instants: it is
    launched exactly when it is not running and the current time is
    strictly later than [last_exit + launch_frequency]; it is adopted
    exactly when it is running under another manager. *)
Theorem decide_periodic_in_range
        (c : Client) (os : OS) (now : time.Time) (currentManager : Z) (plugin : Plugin) :
  fault (LocalDb c) = None ->
  Mode plugin = "periodic" ->
  0 <= LaunchFrequency plugin <= 9223372036 ->
  wf_time now -> wf_time (LastExit (stored c plugin)) ->
  decide c os now currentManager plugin
  = if negb (is_running c os plugin) then
      (if time.nanos (LastExit (stored c plugin))
          + LaunchFrequency plugin * 1000000000 <? time.nanos now
       then Launch else Neither)
    else if CurrentManager (stored c plugin) =? currentManager then Neither
         else Resume.
Proof.
  intros Hf Hm Hfreq Hnow Hexit.
  rewrite (decide_blocks c os now currentManager plugin Hf).
  unfold oneshot_block, persistent_block, periodic_block. rewrite Hm. simpl.
  destruct (is_running c os plugin); simpl.
  - destruct (CurrentManager (stored c plugin) =? currentManager); reflexivity.
  - assert (Hd : time.Seconds (LaunchFrequency plugin)
                 = LaunchFrequency plugin * 1000000000).
    { unfold time.Seconds, time.Second. rewrite wrap64_small; lia. }
    rewrite Hd.
    destruct (Add_nanos (d := LaunchFrequency plugin * 1000000000) Hexit) as [Ha Hb]; [lia|].
    rewrite After_nanos_iff; [|apply Hnow|exact Hb].
    rewrite Ha. destruct (_ <? _); reflexivity.
Qed.

Lemma decide_periodic_in_range_witness :
  decide client_P os_AB t5 1 pluginP10 = Neither
  /\ decide client_P os_AB t11 1 pluginP10 = Launch.
Proof.
  assert (Hwf : forall s, 0 <= s < 2 ^ 40 -> wf_time {| time.sec := s; time.nsec := 0 |}).
  { intros s Hs. split; simpl; lia. }
  split.
  - rewrite (@decide_periodic_in_range client_P os_AB t5 1 pluginP10 eq_refl eq_refl).
    + reflexivity.
    + simpl. lia.
    + apply Hwf. lia.
    + apply Hwf. lia.
  - rewrite (@decide_periodic_in_range client_P os_AB t11 1 pluginP10 eq_refl eq_refl).
    + reflexivity.
    + simpl. lia.
    + apply Hwf. lia.
    + apply Hwf. lia.
Defined.

End DecisionFacts.

(** * The supervisor's sweep *)

Section SweepFacts.
Import Store client supervisor Spec Inv PluginSpec SweepSpec.
Variable config : list Plugin.
Variable os : OS.
Variable p : Plugin.

Lemma PluginInsert_present (db : Database) (q : Plugin) :
  fault db = None -> In (UUID q) (map uuid (plugins db)) ->
  PluginInsert db q = (set_plugins db (upsert_rows q (plugins db)), None).
Proof.
  intros Hf Hin. rewrite (PluginInsert_ok db q Hf).
  assert (E : existsb (has_uuid (UUID q)) (plugins db) = true).
  { apply in_map_iff in Hin. destruct Hin as (r & Hr & Hin).
    apply existsb_exists. exists r. split; [assumption|].
    unfold has_uuid. now apply String.eqb_eq. }
  now rewrite E.
Qed.

Lemma collect_rows (L : list Plugin) :
  forall (c : Client) (kills : list Z),
    fault (LocalDb c) = None ->
    (forall rp, In rp L -> In (UUID rp) (map uuid (plugins (LocalDb c)))) ->
    plugins (LocalDb (fst (collect config os p L c kills)))
    = map (sweep_all config L) (plugins (LocalDb c))
    /\ message_queue (LocalDb (fst (collect config os p L c kills)))
       = message_queue (LocalDb c).
Proof.
  induction L as [|rp L IH]; intros c kills Hf Hin.
  - simpl. split; [|reflexivity]. symmetry. apply map_id.
  - cbn [collect sweep_all]. fold (done rp).
    destruct (found_in config rp) eqn:Efound; cbn [negb].
    + destruct (IH c kills Hf) as [H1 H2].
      { intros; apply Hin; now right. }
      rewrite H1, H2. split; [|reflexivity].
      apply map_ext. intros r. unfold sweep_step. now rewrite Efound.
    + rewrite (PluginInsert_present (LocalDb c) (done rp) Hf)
        by (apply (Hin rp); now left).
      match goal with
      | |- context [collect config os p L ?c1 ?k1] =>
          destruct (IH c1 k1) as [H1 H2]
      end.
      { exact Hf. }
      { intros rp' Hrp'. simpl. rewrite upsert_rows_uuid. apply Hin. now right. }
      rewrite H1, H2. simpl. split; [|reflexivity].
      unfold upsert_rows. rewrite map_map. apply map_ext.
      intros r. unfold sweep_step. now rewrite Efound.
Qed.

Lemma swept_row (r0 r : PluginRow) :
  plugin_rowid r = plugin_rowid r0 ->
  row_of_plugin (done (conv r0)) (plugin_rowid r) = swept r0.
Proof. intros ->. destruct r0; reflexivity. Qed.

Lemma sweep_all_row (L : list Plugin) (r0 : PluginRow) :
  (forall rp, In rp L -> UUID rp = uuid r0 -> rp = conv r0) ->
  forall r, uuid r = uuid r0 -> plugin_rowid r = plugin_rowid r0 ->
    sweep_all config L r
    = if existsb (fun rp => String.eqb (UUID rp) (uuid r0)) L
         && negb (found_in config (conv r0))
      then swept r0 else r.
Proof.
  induction L as [|rp L IH]; intros Hconv r Hu Hid; [reflexivity|].
  assert (HL : forall rp', In rp' L -> UUID rp' = uuid r0 -> rp' = conv r0).
  { intros; apply Hconv; [now right | assumption]. }
  cbn [sweep_all existsb]. unfold sweep_step.
  destruct (String.eqb (UUID rp) (uuid r0)) eqn:E; cbn [orb].
  - apply String.eqb_eq in E.
    assert (Hrp : rp = conv r0) by (apply Hconv; [now left | assumption]).
    subst rp. destruct (found_in config (conv r0)) eqn:Ef.
    + rewrite (IH HL r Hu Hid), ?Ef, andb_false_r. reflexivity.
    + rewrite Hu. change (UUID (conv r0)) with (uuid r0).
      rewrite String.eqb_refl, (swept_row r0 r Hid).
      rewrite (IH HL (swept r0) eq_refl eq_refl), ?Ef.
      destruct (existsb _ L); reflexivity.
  - assert (E' : String.eqb (uuid r) (UUID rp) = false).
    { apply String.eqb_neq. apply String.eqb_neq in E. congruence. }
    rewrite E'. destruct (found_in config rp); apply (IH HL r Hu Hid).
Qed.

Lemma uuid_injective (t : list PluginRow) (r r' : PluginRow) :
  plugins_wf t -> In r t -> In r' t -> uuid r = uuid r' -> r = r'.
Proof.
  unfold plugins_wf. induction t as [|x t IH]; simpl; intros Hnd Hr Hr' Hu; [contradiction|].
  apply NoDup_cons_iff in Hnd. destruct Hnd as [Hx Hnd].
  destruct Hr as [<-|Hr], Hr' as [<-|Hr']; auto.
  - exfalso. apply Hx. rewrite Hu. now apply in_map.
  - exfalso. apply Hx. rewrite <- Hu. now apply in_map.
Qed.

Lemma PluginSelectStatus_running (db : Database) :
  fault db = None ->
  PluginSelectStatus db "running"
  = (db, (map conv (filter running_row (plugins db)), None)).
Proof.
  intros Hf. unfold PluginSelectStatus, PluginCreateTable, Prepare. rewrite Hf.
  cbv beta iota. do 2 f_equal.
  change ("%" ++ "running" ++ "%")%string with "%running%".
  unfold running_row. fold conv.
  induction (plugins db) as [|r t IH]; simpl; [reflexivity|].
  destruct (Sql.like (status r) "%running%"); simpl; [|exact IH].
  destruct (String.eqb (uuid r) ""); simpl; now rewrite IH.
Qed.

(** X13.  What the sweep writes.  On a healthy connection and a table with
    distinct uuids, one sweep rewrites exactly the rows whose status is like
    [%running%], whose uuid is not empty and is the uuid of no configured
    plugin: each gets status [complete], message [removed from
    configuration] and a cleared current manager, its other columns and its
    rowid staying as they were.  Every other row, and the message queue, is
    left as it was. *)
Theorem garbage_collect_rows (c : Client) :
  fault (LocalDb c) = None -> plugins_wf (plugins (LocalDb c)) ->
  plugins (LocalDb (fst (garbage_collect config os p c)))
  = map (fun r => if to_sweep config r then swept r else r) (plugins (LocalDb c))
  /\ message_queue (LocalDb (fst (garbage_collect config os p c)))
     = message_queue (LocalDb c).
Proof.
  intros Hf Hwf. unfold garbage_collect.
  rewrite (PluginSelectStatus_running (LocalDb c) Hf).
  assert (Hc : set_LocalDb c (LocalDb c) = c) by (destruct c; reflexivity).
  rewrite Hc.
  destruct (collect_rows (map conv (filter running_row (plugins (LocalDb c)))) c [] Hf)
    as [H1 H2].
  { intros rp Hrp. apply in_map_iff in Hrp. destruct Hrp as (r & <- & Hr).
    apply filter_In in Hr. apply in_map_iff. exists r. split; [reflexivity|tauto]. }
  rewrite H1, H2. split; [|reflexivity].
  apply map_ext_in. intros r Hr.
  rewrite (@sweep_all_row _ r); try reflexivity.
  - unfold to_sweep. fold (running_row r).
    change (found_in config (conv r))
      with (existsb (fun plugin => String.eqb (UUID plugin) (uuid r)) config).
    assert (E : existsb (fun rp => String.eqb (UUID rp) (uuid r))
                  (map conv (filter running_row (plugins (LocalDb c))))
                = running_row r).
    { destruct (running_row r) eqn:Er.
      - apply existsb_exists. exists (conv r). split; [|apply String.eqb_refl].
        apply in_map, filter_In. auto.
      - destruct (existsb _ _) eqn:Ee; [|reflexivity].
        apply existsb_exists in Ee. destruct Ee as (rp & Hrp & Hu).
        apply in_map_iff in Hrp. destruct Hrp as (r' & <- & Hr').
        apply filter_In in Hr'. destruct Hr' as [Hin' Hrun'].
        apply String.eqb_eq in Hu.
        assert (r' = r) by (eapply uuid_injective; eauto).
        subst r'. congruence. }
    rewrite E. reflexivity.
  - intros rp Hrp Hu. apply in_map_iff in Hrp. destruct Hrp as (r' & <- & Hr').
    apply filter_In in Hr'. destruct Hr' as [Hin' _].
    f_equal. eapply uuid_injective; eauto.
Qed.

Lemma collect_kills (L : list Plugin) :
  forall (c : Client) (kills : list Z),
    Forall (fun k => k = ProcessID p /\ In (k, ProcessName p) (processes os)) kills ->
    Forall (fun k => k = ProcessID p /\ In (k, ProcessName p) (processes os))
           (snd (collect config os p L c kills)).
Proof.
  induction L as [|rp L IH]; intros c kills Hk; simpl; [assumption|].
  destruct (found_in config rp); simpl; [now apply IH|].
  destruct (PluginInsert (LocalDb c) _) as [db1 e].
  apply IH. unfold kill_target.
  destruct (negb (ProcessID rp =? 0)); [|assumption].
  unfold FindProcess. destruct (ps_error os); simpl; [assumption|].
  destruct (find_pid (processes os) (ProcessID p)) as [[q exe]|] eqn:Ef; [|assumption].
  destruct (String.eqb exe (ProcessName p)) eqn:Ee; [|assumption].
  apply String.eqb_eq in Ee. subst exe.
  destruct (find_pid_some _ _ Ef) as [-> Hin].
  apply Forall_app. split; [assumption|]. repeat constructor. assumption.
Qed.

(** X14.  What the sweep kills.  Every process killed during the sweep of a
    turn has the process id stored for the plugin of that turn (the record
    [p] loaded at the top of the turn) and is a live process whose
    executable name is the name stored in that record; no other process is
    ever killed, whichever records are removed. *)
Theorem garbage_collect_kills (c : Client) :
  Forall (fun k => k = ProcessID p /\ In (k, ProcessName p) (processes os))
         (snd (garbage_collect config os p c)).
Proof.
  unfold garbage_collect.
  destruct (PluginSelectStatus (LocalDb c) "running") as [db1 [L [e|]]]; simpl.
  - constructor.
  - apply collect_kills. constructor.
Qed.

End SweepFacts.

Section SweepExamples.
Import Store client supervisor Spec Inv PluginSpec SweepSpec.

Lemma garbage_collect_rows_witness :
  map (fun r => (uuid r, status r, current_manager r))
      (plugins (LocalDb (fst (garbage_collect [pluginA] os_AB zeroPlugin client_AB))))
  = [("uuid-a", "running", 1); ("uuid-b", "complete", 0)].
Proof.
  destruct (@garbage_collect_rows [pluginA] os_AB zeroPlugin client_AB eq_refl) as [H _].
  - unfold plugins_wf. simpl. repeat constructor; simpl; intuition discriminate.
  - rewrite H. reflexivity.
Defined.

End SweepExamples.

(** * Status updates *)

Section UpdateFacts.
Import Store client Spec Inv PluginSpec.
Variable Marshal_plugin : Plugin -> string * error.

Lemma rolling_queue_body_incl (q : list QueueEntry) (r : QueueEntry) :
  In r (rolling_queue_body q) -> In r q.
Proof.
  unfold rolling_queue_body, Sql.delete_where_le.
  destruct (Sql.scalar_at _ _ _); [|auto].
  intros H. now apply filter_In in H.
Qed.

(** X15.  [UpdateStatus] writes the record and mirrors it.  On a healthy
    connection, for a plugin with a uuid: the record read back afterwards
    has the written columns, the current manager included.  Offline nothing
    is queued.  Online, when the copy is marshalled and the call reports no
    error, the queue holds one new row, addressed to [/core/pluginlog/],
    whose payload is the marshalling of the plugin with its current manager
    set to 0, and holds otherwise only rows it held before. *)
Theorem UpdateStatus_mirrors (c : Client) (p : Plugin) (msg : string) :
  fault (LocalDb c) = None -> UUID p <> "" ->
  let c' := fst (UpdateStatus Marshal_plugin c p) in
  let new := {| post_string := msg; post_uri := "/core/pluginlog/";
                rowid := Sql.next_rowid rowid (message_queue (LocalDb c)) |} in
  snd (PluginSelectUUID (LocalDb c') (UUID p)) = (persisted p, None)
  /\ (Offline c = true ->
      snd (UpdateStatus Marshal_plugin c p) = None
      /\ message_queue (LocalDb c') = message_queue (LocalDb c))
  /\ (Offline c = false ->
      Marshal_plugin (set_CurrentManager p 0) = (msg, None) ->
      snd (UpdateStatus Marshal_plugin c p) = None ->
      In new (message_queue (LocalDb c'))
      /\ forall r, In r (message_queue (LocalDb c')) ->
                   In r (message_queue (LocalDb c)) \/ r = new).
Proof.
  intros Hf Hid c' new. subst c'.
  pose proof (select_after_insert (LocalDb c) p Hf Hid) as Hread.
  unfold UpdateStatus.
  rewrite (PluginInsert_ok (LocalDb c) p Hf) in *. cbn [fst snd] in *.
  set (db1 := set_plugins (LocalDb c) _) in *.
  cbv zeta. cbn [Offline set_LocalDb].
  destruct (Offline c) eqn:Ho; cbn [negb].
  - cbn [fst snd LocalDb set_LocalDb]. split; [exact Hread|]. split; [auto|discriminate].
  - destruct (Marshal_plugin (set_CurrentManager p 0)) as [m [e|]] eqn:Em.
    + cbn [fst snd LocalDb set_LocalDb]. split; [exact Hread|]. split; [discriminate|].
      intros _ H. discriminate.
    + cbn [LocalDb set_LocalDb].
      pose proof (MessageQueueInsert_frame db1 m "/core/pluginlog/") as [Hp Hfa].
      pose proof (MessageQueueInsert_cases db1 m "/core/pluginlog/") as Hcases.
      destruct (MessageQueueInsert db1 m "/core/pluginlog/") as [db2 err] eqn:Ei.
      cbn [fst snd LocalDb set_LocalDb] in *.
      split; [|split; [discriminate|]].
      * rewrite (PluginSelectUUID_plugins db1 db2 (UUID p) Hp Hfa). exact Hread.
      * intros _ Hmsg Herr. injection Hmsg as <-. subst err.
        destruct Hcases as [[Hbad _]|Hok]; [congruence|].
        injection Hok as ->. simpl message_queue.
        change (message_queue db1) with (message_queue (LocalDb c)).
        fold new. split.
        -- apply rolling_queue_body_keeps_new.
           intros r Hr. simpl. now apply next_rowid_fresh.
        -- intros r Hr. apply rolling_queue_body_incl in Hr.
           apply in_app_or in Hr. destruct Hr as [Hr|[<-|[]]]; auto.
Qed.

End UpdateFacts.

Section UpdateExamples.
Import Store client Spec Inv PluginSpec.

Lemma UpdateStatus_mirrors_witness :
  map post_string (message_queue (LocalDb (fst (UpdateStatus marshal_plugin client_AB pluginQ))))
  = ["{plugin_uuid:uuid-q,status:running}"]
  /\ CurrentManager
       (fst (snd (PluginSelectUUID
                    (LocalDb (fst (UpdateStatus marshal_plugin client_AB pluginQ)))
                    "uuid-q"))) = 7.
Proof.
  destruct (@UpdateStatus_mirrors marshal_plugin client_AB pluginQ
              "{plugin_uuid:uuid-q,status:running}" eq_refl)
    as (Hread & _ & _).
  - discriminate.
  - split; [vm_compute; reflexivity|].
    change (UUID pluginQ) with "uuid-q" in Hread. rewrite Hread. reflexivity.
Defined.

End UpdateExamples.

(** * Transport: what counts as an answer *)

Section AnswerFacts.
Import comms transport.
Variable W : Type.
Variable env : Env W.

Lemma answer_ok (r : W * DoResult) (w1 : W) (resp : string) :
  answer env r = (w1, (resp, None))
  <-> exists st b m,
      r = (w1, Response 200 st (BodyBytes b))
      /\ Unmarshal env b = inl m
      /\ VerifyResponse env (lookup m "jsonString") (lookup m "SIGNATURE") = true
      /\ resp = lookup m "jsonString".
Proof.
  unfold answer. destruct r as [w2 [e|code st [e|b]]].
  - split; [discriminate | intros (st & b & m & H & _); discriminate].
  - split; [discriminate | intros (st' & b & m & H & _); discriminate].
  - destruct (code =? 200) eqn:Ec; cbn [negb].
    + apply Z.eqb_eq in Ec. subst code.
      destruct (Unmarshal env b) as [m|e] eqn:Eu.
      * destruct (VerifyResponse env _ _) eqn:Ev.
        -- split.
           ++ intros H. injection H as <- <-. exists st, b, m. auto.
           ++ intros (st' & b' & m' & H & Hu & _ & ->).
              injection H as <- <- <-. rewrite Eu in Hu. injection Hu as <-. reflexivity.
        -- split; [discriminate|].
           intros (st' & b' & m' & H & Hu & Hv & _).
           injection H as <- <- <-. rewrite Eu in Hu. injection Hu as <-. congruence.
      * split; [discriminate|].
        intros (st' & b' & m' & H & Hu & _). injection H as <- <- <-. congruence.
    + apply Z.eqb_neq in Ec. split; [discriminate|].
      intros (st' & b' & m' & H & _). injection H as _ Hc _. congruence.
Qed.

Lemma answer_error (r : W * DoResult) (w1 : W) (resp e : string) :
  answer env r = (w1, (resp, Some e)) -> resp = "".
Proof.
  unfold answer. destruct r as [w2 [e'|code st [e'|b]]].
  - intros H; now injection H as _ <- _.
  - intros H; now injection H as _ <- _.
  - destruct (negb _); [intros H; now injection H as _ <- _|].
    destruct (Unmarshal env b); [|intros H; now injection H as _ <- _].
    destruct (VerifyResponse env _ _); [discriminate|].
    intros H; now injection H as _ <- _.
Qed.

Lemma Send_answer (w : W) (s : Sender) (message uri payloadJSON : string) :
  Marshal_envelope env (Sign env message) message = (payloadJSON, None) ->
  NewRequest_error env (request_url s uri) = None ->
  Send env w s message uri
  = Returns (answer env (Do env w (post_request s uri payloadJSON))).
Proof.
  intros Hm Hn. unfold Send. rewrite Hm. fold (request_url s uri). rewrite Hn.
  fold (post_request s uri payloadJSON). unfold answer.
  destruct (Do env w (post_request s uri payloadJSON)) as [w1 [e|code st [e|b]]];
    try reflexivity.
  destruct (negb _); [reflexivity|].
  destruct (Unmarshal env b); [|reflexivity].
  destruct (VerifyResponse env _ _); reflexivity.
Qed.

(** X16.  [Send] reports success only for a verified answer.  It returns a
    response without error exactly when the envelope was marshalled, the
    request could be built, the POST was answered with status 200 and a
    readable body that decodes to an envelope whose signature verifies; the
    response is then the envelope's [jsonString].  Whenever it returns an
    error the response is empty. *)
Theorem Send_success_is_verified
        (w w1 : W) (s : Sender) (message uri resp : string) :
  (Send env w s message uri = Returns (w1, (resp, None))
   <-> exists payloadJSON st b m,
       Marshal_envelope env (Sign env message) message = (payloadJSON, None)
       /\ NewRequest_error env (request_url s uri) = None
       /\ Do env w (post_request s uri payloadJSON)
          = (w1, Response 200 st (BodyBytes b))
       /\ Unmarshal env b = inl m
       /\ VerifyResponse env (lookup m "jsonString") (lookup m "SIGNATURE") = true
       /\ resp = lookup m "jsonString")
  /\ (forall e, Send env w s message uri = Returns (w1, (resp, Some e)) -> resp = "").
Proof.
  destruct (Marshal_envelope env (Sign env message) message) as [pj [me|]] eqn:Em.
  - unfold Send. rewrite Em. split.
    + split; [discriminate|]. intros (pj' & st & b & m & H & _). discriminate.
    + intros e H. now injection H as _ <- _.
  - destruct (NewRequest_error env (request_url s uri)) as [ne|] eqn:En.
    + unfold Send. rewrite Em. fold (request_url s uri). rewrite En. split.
      * split; [discriminate|]. intros (pj' & st & b & m & _ & H & _). discriminate.
      * discriminate.
    + rewrite (Send_answer w s message uri Em En). split.
      * split.
        -- intros H. injection H as H. apply answer_ok in H.
           destruct H as (st & b & m & H1 & H2 & H3 & H4).
           exists pj, st, b, m. repeat split; assumption || reflexivity.
        -- intros (pj' & st & b & m & H0 & _ & H1 & H2 & H3 & H4).
           injection H0 as <-. f_equal. apply answer_ok. exists st, b, m. auto.
      * intros e H. injection H as H. now apply answer_error in H.
Qed.

(** X17.  [Get] applies the same test to its answer: it returns a response
    without error exactly when the request could be built and the GET was
    answered with status 200 and an envelope whose signature verifies;
    whenever it returns an error the response is empty; and it ends the
    process exactly when the request cannot be built. *)
Theorem Get_success_is_verified (w w1 : W) (s : Sender) (uri resp : string) :
  (Get env w s uri = Returns (w1, (resp, None))
   <-> exists st b m,
       NewRequest_error env (request_url s uri) = None
       /\ Do env w (get_request s uri) = (w1, Response 200 st (BodyBytes b))
       /\ Unmarshal env b = inl m
       /\ VerifyResponse env (lookup m "jsonString") (lookup m "SIGNATURE") = true
       /\ resp = lookup m "jsonString")
  /\ (forall e, Get env w s uri = Returns (w1, (resp, Some e)) -> resp = "")
  /\ ((exists m, Get env w s uri = Fatal m)
      <-> NewRequest_error env (request_url s uri) <> None).
Proof.
  unfold Get. destruct (NewRequest_error env (request_url s uri)) as [ne|] eqn:En.
  - split; [|split].
    + split; [discriminate|]. intros (st & b & m & H & _). discriminate.
    + discriminate.
    + split; [intros _; discriminate | intros _; eauto].
  - split; [|split].
    + split.
      * intros H. injection H as H. apply answer_ok in H.
        destruct H as (st & b & m & H1 & H2 & H3 & H4). exists st, b, m.
        repeat split; assumption || reflexivity.
      * intros (st & b & m & _ & H1 & H2 & H3 & H4).
        f_equal. apply answer_ok. exists st, b, m. auto.
    + intros e H. injection H as H. now apply answer_error in H.
    + split; [intros (m & H); discriminate | intros H; congruence].
Qed.

Variable DecodeString : string -> string + string.

(** X18.  [GetResource] hands out content only from a verified answer: when
    it returns bytes without error, [Send] of the empty message to
    [/core/resource/<hash>/] returned a response without error, that
    response decodes to a map, and the bytes are the base-64 decoding of its
    [content] entry.  Whenever it returns an error the bytes are empty. *)
Theorem GetResource_content_is_verified
        (w w1 : W) (s : Sender) (resourceHash content : string) :
  (GetResource env DecodeString w s resourceHash = Returns (w1, (content, None)) ->
   exists respString m,
     Send env w s "" ("/core/resource/" ++ resourceHash ++ "/")
     = Returns (w1, (respString, None))
     /\ Unmarshal env respString = inl m
     /\ DecodeString (lookup m "content") = inl content)
  /\ (forall e, GetResource env DecodeString w s resourceHash
                = Returns (w1, (content, Some e)) -> content = "").
Proof.
  unfold GetResource.
  destruct (Send env w s "" _) as [[w2 [rs [e|]]]|m|m]; try (split; discriminate).
  - split; [discriminate|]. intros e' H. now injection H as _ <- _.
  - destruct (Unmarshal env rs) as [m|e] eqn:Eu.
    + destruct (DecodeString (lookup m "content")) as [ct|e] eqn:Ed.
      * split; [|discriminate]. intros H. injection H as <- <-. eauto.
      * split; [discriminate|]. intros e' H. now injection H as _ <- _.
    + split; [discriminate|]. intros e' H. now injection H as _ <- _.
Qed.

End AnswerFacts.

Section AnswerExamples.
Import comms transport.

Example GetResource_fetches :
  GetResource env_resource decode_hi 0%nat Spec.sender0 "abc"
  = Returns (1%nat, ("hi", None)).
Proof. reflexivity. Qed.

End AnswerExamples.

(** * Endpoint failover: how many checks *)

Section ConnBound.
Import Spec comms.
Variable W : Type.
Variable env : Env W.

Lemma plan_length (cur : string) (proxyList controllerList : list string) :
  (List.length (plan cur proxyList controllerList)
   <= List.length controllerList * (List.length proxyList + 2))%nat.
Proof.
  revert cur. induction controllerList as [|C ctrls IH]; intros cur; [simpl; lia|].
  cbn [plan]. rewrite length_app, length_map.
  specialize (IH (List.last (candidates cur proxyList) cur)).
  assert (Hc : (List.length (candidates cur proxyList) <= List.length proxyList + 2)%nat).
  { unfold candidates. cbn [List.length]. rewrite length_app.
    destruct (real_proxy cur); cbn [List.length]; lia. }
  change (List.length (C :: ctrls)) with (S (List.length ctrls)).
  rewrite Nat.mul_succ_l. lia.
Qed.

Lemma UpdateConnection_log (proxyList controllerList : list string)
      (w : W) (s : Sender) (log : list LogLine) w' s' log' b :
  UpdateConnection env proxyList controllerList (w, s, log) = Returns ((w', s', log'), b) ->
  exists s1, try_controllers env proxyList controllerList (w, s, log)
             = Returns ((w', s1, log'), b).
Proof.
  unfold UpdateConnection.
  destruct (try_controllers env proxyList controllerList (w, s, log))
    as [[[[w1 s1] log1] [|]]|m|m]; intros H; try discriminate;
    injection H as <- <- <- <-; eauto.
Qed.

(** X19.  [UpdateConnection] makes a bounded number of checks: when it
    returns, the log has grown by at most
    [controllers * (proxies + 2)] tested pairs.  With an empty controller
    list it makes no check and returns false with world, sender and log as
    they were. *)
Theorem UpdateConnection_check_bound
        (proxyList controllerList : list string)
        (w : W) (s : Sender) (log : list LogLine) w' s' log' b :
  UpdateConnection env proxyList controllerList (w, s, log) = Returns ((w', s', log'), b) ->
  (List.length (tested log')
   <= List.length (tested log)
      + List.length controllerList * (List.length proxyList + 2))%nat
  /\ UpdateConnection env proxyList [] (w, s, log) = Returns ((w, s, log), false).
Proof.
  intros H. split.
  - apply UpdateConnection_log in H. destruct H as (s1 & H).
    apply try_controllers_spec in H.
    destruct H as (_ & _ & done & rest & Hsplit & Hlog & _).
    apply (f_equal (@List.length _)) in Hsplit, Hlog.
    unfold norm in Hsplit, Hlog.
    rewrite ?length_app, ?length_map in Hsplit.
    rewrite ?length_app, ?length_map in Hlog.
    pose proof (plan_length (Proxy s) proxyList controllerList). lia.
  - unfold UpdateConnection. simpl. destruct s; reflexivity.
Qed.

End ConnBound.

Section ConnBoundExamples.
Import Spec comms.

Lemma UpdateConnection_check_bound_witness :
  exists w' s' log',
    UpdateConnection env_down ["http://P1"; "http://P2"] ["https://A"; "https://B/"]
                     (tt, sender_old, [])
    = Returns ((w', s', log'), false)
    /\ (List.length (tested log') <= 8)%nat.
Proof.
  eexists _, _, _. split; [vm_compute; reflexivity|].
  refine (proj1 (@UpdateConnection_check_bound unit env_down
                   ["http://P1"; "http://P2"] ["https://A"; "https://B/"]
                   tt sender_old [] _ _ _ false _)).
  vm_compute. reflexivity.
Defined.

End ConnBoundExamples.

(** * Proxy discovery *)

Section ProxyFacts.
Import proxies.

Lemma substring_prefix (pre s : string) :
  String.substring 0 (String.length pre) s = pre -> strings.HasPrefix s pre = true.
Proof.
  revert s. induction pre as [|c pre IH]; intros s; [destruct s; reflexivity|].
  destruct s as [|d s]; simpl; [discriminate|].
  intros H. injection H as -> H. rewrite Ascii.eqb_refl. now apply IH.
Qed.

Lemma substring_full (s : string) : String.substring 0 (String.length s) s = s.
Proof. induction s as [|c s IH]; simpl; [reflexivity | now rewrite IH]. Qed.

Lemma HasPrefix_split (pre s : string) :
  strings.HasPrefix s pre = true -> exists rest, s = (pre ++ rest)%string.
Proof.
  revert s. induction pre as [|c pre IH]; intros s.
  - intros _. now exists s.
  - destruct s as [|d s]; simpl; [discriminate|]. intros H.
    apply andb_true_iff in H. destruct H as [Hc H].
    apply Ascii.eqb_eq in Hc. subst d.
    destruct (IH _ H) as (rest & ->). now exists rest.
Qed.

Lemma HasPrefix_app (pre s : string) : strings.HasPrefix (pre ++ s) pre = true.
Proof.
  induction pre as [|c pre IH]; simpl; [destruct s; reflexivity|].
  now rewrite Ascii.eqb_refl.
Qed.

Lemma substring_app (pre rest : string) :
  String.substring 0 (String.length pre) (pre ++ rest) = pre.
Proof.
  induction pre as [|c pre IH]; simpl; [destruct rest; reflexivity|].
  now rewrite IH.
Qed.

Lemma length_zero (s : string) : String.length s = 0%nat -> s = "".
Proof. destruct s; [reflexivity | discriminate]. Qed.

Lemma format_posix_panics (v : string) :
  String.length v = 7%nat -> v <> "http://" ->
  format_posix v = Panics "runtime error: slice bounds out of range".
Proof.
  intros Hl Hne.
  assert (Hs : String.substring 0 7 v = v) by (rewrite <- Hl; apply substring_full).
  assert (E : String.eqb v "http://" = false) by now apply String.eqb_neq.
  unfold format_posix, slice_to. rewrite Hl, Hs. simpl. rewrite E. reflexivity.
Qed.

Lemma format_posix_blank : format_posix "" = Returns None.
Proof. reflexivity. Qed.

Lemma format_posix_passes (v : string) :
  v <> "" -> passes v ->
  exists r, format_posix v = Returns (Some r)
            /\ (r = v \/ r = http_prefix v) /\ prefixed r.
Proof.
  intros Hne Hp. unfold format_posix.
  destruct (Nat.eqb (String.length v) 0) eqn:E0.
  { apply Nat.eqb_eq, length_zero in E0. contradiction. }
  destruct (Nat.ltb (String.length v) 7) eqn:E7.
  { exists (http_prefix v). repeat split; auto. left. apply HasPrefix_app. }
  apply Nat.ltb_ge in E7. unfold slice_to.
  assert (L7 : Nat.leb 7 (String.length v) = true) by now apply Nat.leb_le.
  rewrite L7.
  destruct (String.eqb (String.substring 0 7 v) "http://") eqn:Eh; cbn [negb].
  { exists v. repeat split; auto. left.
    apply String.eqb_eq in Eh. apply substring_prefix. exact Eh. }
  assert (L8 : Nat.leb 8 (String.length v) = true).
  { apply Nat.leb_le. destruct Hp as [Hp| ->]; [lia|]. discriminate. }
  rewrite L8.
  destruct (String.eqb (String.substring 0 8 v) "https://") eqn:Es; cbn [negb].
  - exists v. repeat split; auto. right.
    apply String.eqb_eq in Es. apply substring_prefix. exact Es.
  - exists (http_prefix v). repeat split; auto. left. apply HasPrefix_app.
Qed.

Lemma format_posix_not_fatal (v m : string) : format_posix v <> Fatal m.
Proof.
  unfold format_posix, slice_to.
  destruct (Nat.eqb _ 0); [discriminate|].
  destruct (Nat.ltb _ 7); [discriminate|].
  destruct (Nat.leb 7 _); [|discriminate].
  destruct (negb _); [|discriminate].
  destruct (Nat.leb 8 _); [|discriminate].
  destruct (negb _); discriminate.
Qed.

Lemma dedupe_In (l : list string) (x : string) : In x (dedupe l) <-> In x l.
Proof.
  induction l as [|y l IH]; simpl; [tauto|].
  destruct (existsb (String.eqb y) l) eqn:E; simpl; rewrite IH; [|tauto].
  split; [auto|]. intros [<-|H]; [|assumption].
  apply existsb_exists in E. destruct E as (z & Hz & Ez).
  apply String.eqb_eq in Ez. now subst.
Qed.

Lemma format_all_panics (keys : list string) :
  forall acc v, In v keys -> String.length v = 7%nat -> v <> "http://" ->
    exists m, format_all keys acc = Panics m.
Proof.
  induction keys as [|k keys IH]; intros acc v Hin Hl Hne; [contradiction|].
  simpl. destruct (format_posix k) as [[r|]|m|m] eqn:E.
  - destruct Hin as [->|Hin]; [|eauto].
    rewrite (format_posix_panics Hl Hne) in E. discriminate.
  - destruct Hin as [->|Hin]; [|eauto].
    rewrite (format_posix_panics Hl Hne) in E. discriminate.
  - eauto.
  - exfalso. eapply format_posix_not_fatal. exact E.
Qed.

(** X20.  The POSIX [FindProxies] panics when one of the four variables
    holds a value of exactly seven bytes other than [http://] (such as
    [px:8080]), in whatever order the map is ranged over: the test
    [Proxy[:8]] is made on a string of seven bytes. *)
Theorem FindProxies_seven_bytes_panics
        (getenv : string -> string) (range : list string -> list string) (v : string) :
  (forall l, Permutation (range l) l) ->
  In v (env_values getenv) -> String.length v = 7%nat -> v <> "http://" ->
  exists m, FindProxies getenv range = Panics m.
Proof.
  intros Hperm Hin Hl Hne. unfold FindProxies. fold (env_values getenv).
  eapply format_all_panics; [|exact Hl|exact Hne].
  apply (Permutation_in _ (Permutation_sym (Hperm _))).
  now apply dedupe_In.
Qed.

Lemma FindProxies_seven_bytes_panics_witness :
  FindProxies env_seven (fun l => l)
  = Panics "runtime error: slice bounds out of range".
Proof.
  destruct (@FindProxies_seven_bytes_panics env_seven (fun l => l) "px:8080")
    as (m & Hm).
  - intros l. apply Permutation_refl.
  - simpl. auto.
  - reflexivity.
  - discriminate.
  - reflexivity.
Defined.

Lemma format_all_passes (keys : list string) :
  forall acc, (forall k, In k keys -> passes k) ->
    exists out, format_all keys acc = Returns (acc ++ out)
      /\ Forall prefixed out
      /\ (forall r, In r out ->
            exists v, In v keys /\ v <> "" /\ (r = v \/ r = http_prefix v))
      /\ List.length out = List.length (filter nonblank keys).
Proof.
  induction keys as [|k keys IH]; intros acc Hp.
  - exists []. simpl. rewrite app_nil_r. repeat split; auto. intros r [].
  - simpl. destruct (Nat.eqb (String.length k) 0) eqn:E0.
    + apply Nat.eqb_eq, length_zero in E0. subst k. rewrite format_posix_blank.
      destruct (IH acc) as (out & Hrun & Hpre & Hsrc & Hlen).
      { intros; apply Hp; now right. }
      exists out. repeat split; auto.
      intros r Hr. destruct (Hsrc r Hr) as (v & Hv & H). exists v. split; [now right|exact H].
    + assert (Hk : k <> "") by (intros ->; discriminate).
      destruct (format_posix_passes Hk (Hp k (or_introl eq_refl)))
        as (r & -> & Hr & Hpr).
      destruct (IH (acc ++ [r])) as (out & Hrun & Hpre & Hsrc & Hlen).
      { intros; apply Hp; now right. }
      exists (r :: out). rewrite Hrun, <- app_assoc. split; [reflexivity|].
      split; [now constructor|]. split.
      * intros r' [<-|Hr'].
        -- exists k. split; [now left|]. auto.
        -- destruct (Hsrc r' Hr') as (v & Hv & H). exists v. split; [now right|exact H].
      * unfold nonblank at 1. rewrite E0. simpl. now rewrite Hlen.
Qed.

(** X21.  When none of the four variables holds such a seven-byte value,
    the POSIX [FindProxies] returns, whatever the order of the map; every
    proxy returned begins with [http://] or [https://] and is one of the
    non-blank values, as it is or with [http://] put in front; and there is
    one proxy for each distinct non-blank value. *)
Theorem FindProxies_prefixed
        (getenv : string -> string) (range : list string -> list string) :
  (forall l, Permutation (range l) l) ->
  (forall v, In v (env_values getenv) -> passes v) ->
  exists out,
    FindProxies getenv range = Returns out
    /\ Forall prefixed out
    /\ (forall r, In r out ->
          exists v, In v (env_values getenv) /\ v <> ""
                    /\ (r = v \/ r = http_prefix v))
    /\ List.length out
       = List.length (filter nonblank (dedupe (env_values getenv))).
Proof.
  intros Hperm Hp. unfold FindProxies. fold (env_values getenv).
  destruct (format_all_passes (range (dedupe (env_values getenv))) [])
    as (out & Hrun & Hpre & Hsrc & Hlen).
  { intros k Hk. apply Hp, dedupe_In.
    apply (Permutation_in _ (Hperm _) Hk). }
  exists out. split; [exact Hrun|]. split; [exact Hpre|]. split.
  - intros r Hr. destruct (Hsrc r Hr) as (v & Hv & H). exists v. split; [|exact H].
    apply dedupe_In. apply (Permutation_in _ (Hperm _) Hv).
  - rewrite Hlen. apply Permutation_length, filter_perm, Hperm.
Qed.

Lemma FindProxies_prefixed_witness :
  FindProxies env_posix (fun l => l)
  = Returns ["http://proxy.corp:3128"; "https://secure.corp:3129"].
Proof.
  destruct (@FindProxies_prefixed env_posix (fun l => l)) as (out & Hrun & _).
  - intros l. apply Permutation_refl.
  - intros v [<-|[<-|[<-|[<-|[]]]]]; left; discriminate.
  - reflexivity.
Defined.

(** X22.  The formatting of the Windows [FindProxies] never panics and
    always yields a proxy that begins with [http://]: the value as it is
    when it already begins so, and with [http://] put in front otherwise,
    also when the value begins with [https://]. *)
Theorem format_windows_prefixed (v : string) :
  exists r, format_windows v = Returns r
    /\ strings.HasPrefix r "http://" = true
    /\ (strings.HasPrefix v "http://" = true -> r = v)
    /\ (strings.HasPrefix v "http://" = false -> r = http_prefix v)
    /\ (strings.HasPrefix v "https://" = true -> r = http_prefix v).
Proof.
  assert (Hsh : strings.HasPrefix v "https://" = true ->
                strings.HasPrefix v "http://" = false).
  { intros H. apply HasPrefix_split in H. destruct H as (rest & ->). reflexivity. }
  assert (Hcore : exists r, format_windows v = Returns r
            /\ strings.HasPrefix r "http://" = true
            /\ (strings.HasPrefix v "http://" = true -> r = v)
            /\ (strings.HasPrefix v "http://" = false -> r = http_prefix v)).
  { unfold format_windows.
    destruct (Nat.ltb (String.length v) 7) eqn:E7.
    - exists (http_prefix v). repeat split; auto; [apply HasPrefix_app|].
      intros H. apply HasPrefix_split in H. destruct H as (rest & ->).
      apply Nat.ltb_lt in E7. simpl in E7. lia.
    - apply Nat.ltb_ge in E7. unfold slice_to.
      assert (L7 : Nat.leb 7 (String.length v) = true) by now apply Nat.leb_le.
      rewrite L7.
      destruct (String.eqb (String.substring 0 7 v) "http://") eqn:Eh; cbn [negb].
      + apply String.eqb_eq in Eh.
        assert (Hv : strings.HasPrefix v "http://" = true)
          by (apply substring_prefix; exact Eh).
        exists v. repeat split; auto. congruence.
      + exists (http_prefix v). repeat split; auto; [apply HasPrefix_app|].
        intros H. apply HasPrefix_split in H. destruct H as (rest & ->).
        pose proof (substring_app "http://" rest) as Hsub.
        change (String.length "http://") with 7%nat in Hsub.
        rewrite Hsub in Eh. discriminate. }
  destruct Hcore as (r & H1 & H2 & H3 & H4).
  exists r. repeat split; auto.
Qed.

Lemma format_windows_prefixed_witness :
  format_windows "https://secure.corp:3129" = Returns "http://https://secure.corp:3129".
Proof.
  destruct (format_windows_prefixed "https://secure.corp:3129")
    as (r & Hrun & _ & _ & _ & H).
  rewrite Hrun, (H eq_refl). reflexivity.
Defined.

End ProxyFacts.

(** * LIKE patterns *)

Section LikeFacts.

Lemma like_percent_here (pat s : list ascii) :
  Sql.like_list pat s = true -> Sql.like_list ("%"%char :: pat) s = true.
Proof.
  intros H. destruct s as [|c s]; simpl; rewrite H; reflexivity.
Qed.

Lemma like_percent_skip (pat : list ascii) (c : ascii) (s : list ascii) :
  Sql.like_list ("%"%char :: pat) s = true ->
  Sql.like_list ("%"%char :: pat) (c :: s) = true.
Proof.
  simpl. intros H. rewrite H. apply orb_true_r.
Qed.

Lemma like_percent_any (s : list ascii) : Sql.like_list ["%"%char] s = true.
Proof.
  induction s as [|c s IH]; [reflexivity|]. now apply like_percent_skip.
Qed.

(** A pattern followed by [%] matches every string that begins with the
    pattern's own bytes. *)
Lemma like_prefix_list (p rest : list ascii) :
  Sql.like_list (p ++ ["%"%char]) (p ++ rest) = true.
Proof.
  induction p as [|c p IH]; [apply like_percent_any|].
  change ((c :: p) ++ ["%"%char]) with (c :: (p ++ ["%"%char])).
  change ((c :: p) ++ rest) with (c :: (p ++ rest)).
  destruct (Ascii.eqb c "%") eqn:E.
  - apply Ascii.eqb_eq in E. subst c.
    apply like_percent_skip, like_percent_here, IH.
  - simpl. rewrite E, IH, Ascii.eqb_refl, orb_true_r. reflexivity.
Qed.

(** A pattern between two [%] matches every string that contains the
    pattern's own bytes. *)
Lemma like_infix_list (pre p post : list ascii) :
  Sql.like_list ("%"%char :: p ++ ["%"%char]) (pre ++ p ++ post) = true.
Proof.
  induction pre as [|c pre IH].
  - change ([] ++ p ++ post) with (p ++ post).
    apply like_percent_here, like_prefix_list.
  - change ((c :: pre) ++ p ++ post) with (c :: (pre ++ p ++ post)).
    now apply like_percent_skip.
Qed.

Lemma list_ascii_app (a b : string) :
  list_ascii_of_string (a ++ b) = list_ascii_of_string a ++ list_ascii_of_string b.
Proof. induction a as [|c a IH]; simpl; [reflexivity | now rewrite IH]. Qed.

Lemma like_prefix (x p : string) :
  strings.HasPrefix x p = true -> Sql.like x (p ++ "%") = true.
Proof.
  intros H. apply HasPrefix_split in H. destruct H as (rest & ->).
  unfold Sql.like. rewrite !list_ascii_app. apply like_prefix_list.
Qed.

Lemma Contains_split (x s : string) :
  strings.Contains x s = true -> exists pre post, x = (pre ++ s ++ post)%string.
Proof.
  induction x as [|c x IH]; cbn [strings.Contains]; intros H.
  - rewrite orb_false_r in H. apply HasPrefix_split in H.
    destruct H as (rest & ->). now exists "", rest.
  - apply orb_true_iff in H. destruct H as [H|H].
    + apply HasPrefix_split in H. destruct H as (rest & ->). now exists "", rest.
    + destruct (IH H) as (pre & post & ->). now exists (String c pre), post.
Qed.

Lemma like_infix (x s : string) :
  strings.Contains x s = true -> Sql.like x ("%" ++ s ++ "%") = true.
Proof.
  intros H. apply Contains_split in H. destruct H as (pre & post & ->).
  unfold Sql.like. rewrite !list_ascii_app. apply like_infix_list.
Qed.

End LikeFacts.

(** * The key store *)

Section KeyStoreFacts.
Import Store keystore.

Lemma has_key_true (k : string) (r : KeyRow) : has_key k r = true <-> key r = k.
Proof. unfold has_key. apply String.eqb_eq. Qed.

Lemma has_key_false (k : string) (r : KeyRow) : has_key k r = false <-> key r <> k.
Proof. unfold has_key. apply String.eqb_neq. Qed.

Lemma upd_keys (k d : string) (t : list KeyRow) : map key (updated_rows k d t) = map key t.
Proof.
  induction t as [|r t IH]; [reflexivity|].
  unfold updated_rows in *. cbn [map]. rewrite IH. f_equal.
  destruct (has_key k r); reflexivity.
Qed.

Lemma upd_absent (k d : string) (t : list KeyRow) :
  existsb (has_key k) t = false -> updated_rows k d t = t.
Proof.
  induction t as [|r t IH]; [reflexivity|].
  cbn [existsb]. intros H. apply orb_false_iff in H. destruct H as [Hr Ht].
  unfold updated_rows in *. cbn [map]. rewrite Hr, (IH Ht). reflexivity.
Qed.

Lemma upd_other (k k' d : string) (t : list KeyRow) :
  k' <> k -> filter (has_key k') (updated_rows k d t) = filter (has_key k') t.
Proof.
  intros Hk. induction t as [|r t IH]; [reflexivity|].
  unfold updated_rows in *. cbn [map filter]. rewrite IH.
  destruct (has_key k r) eqn:Er; [|reflexivity].
  apply has_key_true in Er.
  assert (H1 : has_key k' r = false) by (apply has_key_false; congruence).
  assert (H2 : has_key k' {| key := key r; data := d; key_rowid := key_rowid r |} = false)
    by (apply has_key_false; cbn; congruence).
  rewrite H1, H2. reflexivity.
Qed.

Lemma upd_present (k d : string) (t : list KeyRow) :
  existsb (has_key k) t = true ->
  exists r rest, filter (has_key k) (updated_rows k d t) = r :: rest /\ data r = d.
Proof.
  induction t as [|r t IH]; [discriminate|].
  cbn [existsb]. intros H. unfold updated_rows in *. cbn [map filter].
  destruct (has_key k r) eqn:Er.
  - assert (H2 : has_key k {| key := key r; data := d; key_rowid := key_rowid r |} = true)
      by (apply has_key_true; cbn; now apply has_key_true).
    rewrite H2. eexists _, _. split; reflexivity.
  - rewrite Er. cbn [orb] in H. apply IH, H.
Qed.

Lemma filter_absent (k : string) (t : list KeyRow) :
  existsb (has_key k) t = false -> filter (has_key k) t = [].
Proof.
  induction t as [|r t IH]; [reflexivity|].
  cbn [existsb filter]. intros H. apply orb_false_iff in H. destruct H as [Hr Ht].
  rewrite Hr. apply IH, Ht.
Qed.

Lemma existsb_has_key (k : string) (t : list KeyRow) :
  existsb (has_key k) t = true <-> In k (map key t).
Proof.
  rewrite existsb_exists, in_map_iff. split.
  - intros (r & Hr & E). exists r. split; [now apply has_key_true | exact Hr].
  - intros (r & E & Hr). exists r. split; [exact Hr | now apply has_key_true].
Qed.

Lemma KeyStoreSelect_ok (db : KDatabase) (k : string) :
  fault (base db) = None ->
  KeyStoreSelect db k =
  match filter (has_key k) (key_store db) with
  | [] => ("", None)
  | r :: _ => (data r, None)
  end.
Proof.
  intros Hf. unfold KeyStoreSelect, KeyStoreCreateTable, Prepare. rewrite Hf.
  reflexivity.
Qed.

Lemma KeyStoreInsert_ok (db : KDatabase) (k d : string) :
  fault (base db) = None ->
  KeyStoreInsert db k d =
  (set_key_store db
     (if existsb (has_key k) (key_store db) then updated_rows k d (key_store db)
      else updated_rows k d (key_store db)
           ++ [{| key := k; data := d;
                  key_rowid := Sql.next_rowid key_rowid (key_store db) |}]),
   None).
Proof.
  intros Hf. unfold KeyStoreInsert, KeyStoreCreateTable, Prepare. rewrite Hf.
  reflexivity.
Qed.

Lemma KeyStoreDelete_ok (db : KDatabase) (k : string) :
  fault (base db) = None ->
  KeyStoreDelete db k =
  (set_key_store db (filter (fun r => negb (has_key k r)) (key_store db)),
   (Sql.rows_affected (key_store db)
      (filter (fun r => negb (has_key k r)) (key_store db)) =? 1, None)).
Proof.
  intros Hf. unfold KeyStoreDelete, KeyStoreCreateTable, Prepare. rewrite Hf.
  reflexivity.
Qed.

Lemma unique_key_count (k : string) (t : list KeyRow) :
  keys_wf t ->
  List.length (filter (has_key k) t) = if existsb (has_key k) t then 1%nat else 0%nat.
Proof.
  unfold keys_wf. induction t as [|r t IH]; [reflexivity|].
  cbn [map]. intros Hn. inversion Hn as [|x l Hnot Hnd]; subst.
  cbn [filter existsb]. destruct (has_key k r) eqn:Er.
  - cbn [orb List.length]. apply has_key_true in Er.
    destruct (existsb (has_key k) t) eqn:Et.
    + apply existsb_has_key in Et. congruence.
    + rewrite (filter_absent _ _ Et). reflexivity.
  - cbn [orb]. apply IH, Hnd.
Qed.

Lemma filter_keys_sub (f : KeyRow -> bool) (t : list KeyRow) :
  keys_wf t -> keys_wf (filter f t).
Proof.
  unfold keys_wf. induction t as [|r t IH]; [trivial|].
  cbn [map filter]. intros Hn. inversion Hn as [|x l Hnot Hnd]; subst.
  destruct (f r); [|now apply IH].
  cbn [map]. constructor; [|now apply IH].
  intros Hin. apply Hnot. apply in_map_iff in Hin. destruct Hin as (x & E & Hx).
  apply in_map_iff. exists x. split; [exact E|]. apply filter_In in Hx. tauto.
Qed.

Lemma filter_filter_other (k k' : string) (t : list KeyRow) :
  k' <> k ->
  filter (has_key k') (filter (fun r => negb (has_key k r)) t) = filter (has_key k') t.
Proof.
  intros Hk. induction t as [|r t IH]; [reflexivity|].
  cbn [filter]. destruct (has_key k r) eqn:Er; cbn [negb filter]; rewrite IH.
  - apply has_key_true in Er.
    assert (H1 : has_key k' r = false) by (apply has_key_false; congruence).
    rewrite H1. reflexivity.
  - reflexivity.
Qed.

Lemma filter_filter_same (k : string) (t : list KeyRow) :
  filter (has_key k) (filter (fun r => negb (has_key k r)) t) = [].
Proof.
  induction t as [|r t IH]; [reflexivity|].
  cbn [filter]. destruct (has_key k r) eqn:Er; cbn [negb filter]; [exact IH|].
  rewrite Er. exact IH.
Qed.

(** X23.  On a healthy store [KeyStoreInsert] reports no error; the value
    read back with [KeyStoreSelect] under the same key is the value just
    written, whether the key was new or not; every other key reads as
    before; the key column stays free of duplicates; and the other tables
    are not touched. *)
Theorem KeyStoreInsert_then_select (db : KDatabase) (k d : string) :
  fault (base db) = None ->
  snd (KeyStoreInsert db k d) = None /\
  KeyStoreSelect (fst (KeyStoreInsert db k d)) k = (d, None) /\
  (forall k', k' <> k ->
     KeyStoreSelect (fst (KeyStoreInsert db k d)) k' = KeyStoreSelect db k') /\
  (keys_wf (key_store db) -> keys_wf (key_store (fst (KeyStoreInsert db k d)))) /\
  base (fst (KeyStoreInsert db k d)) = base db.
Proof.
  intros Hf. rewrite (KeyStoreInsert_ok db k d Hf). cbn [fst snd].
  split; [reflexivity|].
  assert (Hf' : forall t, fault (base (set_key_store db t)) = None) by (intros; exact Hf).
  split; [|split; [|split; [|reflexivity]]].
  - rewrite (KeyStoreSelect_ok _ k (Hf' _)). cbn [set_key_store key_store].
    destruct (existsb (has_key k) (key_store db)) eqn:Ex.
    + destruct (upd_present k d _ Ex) as (r & rest & -> & ->). reflexivity.
    + rewrite (upd_absent k d _ Ex), filter_app, (filter_absent _ _ Ex).
      cbn [filter app]. 
      assert (H2 : has_key k {| key := k; data := d;
                   key_rowid := Sql.next_rowid key_rowid (key_store db) |} = true)
        by (now apply has_key_true).
      rewrite H2. reflexivity.
  - intros k' Hk. rewrite (KeyStoreSelect_ok _ k' (Hf' _)), (KeyStoreSelect_ok _ k' Hf).
    cbn [set_key_store key_store].
    destruct (existsb (has_key k) (key_store db)) eqn:Ex.
    + rewrite (upd_other d (key_store db) Hk). reflexivity.
    + rewrite filter_app, (upd_other d (key_store db) Hk). cbn [filter].
      assert (H2 : has_key k' {| key := k; data := d;
                   key_rowid := Sql.next_rowid key_rowid (key_store db) |} = false)
        by (apply has_key_false; cbn; congruence).
      rewrite H2, app_nil_r. reflexivity.
  - unfold keys_wf. cbn [set_key_store key_store]. intros Hn.
    destruct (existsb (has_key k) (key_store db)) eqn:Ex.
    + rewrite upd_keys. exact Hn.
    + rewrite map_app, upd_keys. cbn [map].
      apply NoDup_app; [exact Hn | constructor; [intros [] | constructor] |].
      intros x Hx [<-|[]]. cbn [key] in Hx.
      apply existsb_has_key in Hx. congruence.
Qed.

Lemma KeyStoreInsert_then_select_witness :
  snd (KeyStoreInsert kdb0 "client/uuid" "c-2") = None /\
  KeyStoreSelect (fst (KeyStoreInsert kdb0 "client/uuid" "c-2")) "client/uuid"
  = ("c-2", None).
Proof.
  destruct (KeyStoreInsert_then_select kdb0 "client/uuid" "c-2" eq_refl)
    as (H1 & H2 & _).
  split; [exact H1 | exact H2].
Defined.

(** X24.  On a healthy store whose key column is free of duplicates,
    [KeyStoreDelete] answers true exactly when the key was stored; after it
    the key reads as the empty string, every other key reads as before, and
    the key column is still free of duplicates. *)
Theorem KeyStoreDelete_contract (db : KDatabase) (k : string) :
  fault (base db) = None ->
  keys_wf (key_store db) ->
  snd (KeyStoreDelete db k) = (existsb (has_key k) (key_store db), None) /\
  KeyStoreSelect (fst (KeyStoreDelete db k)) k = ("", None) /\
  (forall k', k' <> k ->
     KeyStoreSelect (fst (KeyStoreDelete db k)) k' = KeyStoreSelect db k') /\
  keys_wf (key_store (fst (KeyStoreDelete db k))).
Proof.
  intros Hf Hwf. rewrite (KeyStoreDelete_ok db k Hf). cbn [fst snd].
  assert (Hf' : forall t, fault (base (set_key_store db t)) = None) by (intros; exact Hf).
  split; [|split; [|split]].
  - f_equal. unfold Sql.rows_affected, len.
    pose proof (filter_split_length (has_key k) (key_store db)) as Hl.
    rewrite (unique_key_count k Hwf) in Hl.
    destruct (existsb (has_key k) (key_store db)); [apply Z.eqb_eq | apply Z.eqb_neq]; lia.
  - rewrite (KeyStoreSelect_ok _ k (Hf' _)). cbn [set_key_store key_store].
    rewrite filter_filter_same. reflexivity.
  - intros k' Hk. rewrite (KeyStoreSelect_ok _ k' (Hf' _)), (KeyStoreSelect_ok _ k' Hf).
    cbn [set_key_store key_store]. rewrite (filter_filter_other (key_store db) Hk).
    reflexivity.
  - cbn [set_key_store key_store]. now apply filter_keys_sub.
Qed.

Lemma kdb0_wf : keys_wf (key_store kdb0).
Proof.
  unfold keys_wf. cbn.
  repeat constructor; cbn; intuition discriminate.
Qed.

Lemma KeyStoreDelete_contract_witness :
  snd (KeyStoreDelete kdb0 "initialized") = (true, None) /\
  KeyStoreSelect (fst (KeyStoreDelete kdb0 "initialized")) "initialized" = ("", None).
Proof.
  destruct (KeyStoreDelete_contract kdb0 "initialized" eq_refl kdb0_wf)
    as (H1 & H2 & _).
  split; [exact H1 | exact H2].
Defined.

Lemma like_prefix_exact (p : string) :
  no_wildcard p = true ->
  forall x, Sql.like x (p ++ "%") = strings.HasPrefix (strings.ToLower x) (strings.ToLower p).
Proof.
  unfold no_wildcard, Sql.like.
  induction p as [|c p IH]; intros Hp x.
  - cbn [String.append list_ascii_of_string strings.ToLower].
    rewrite like_percent_any. destruct (strings.ToLower x); reflexivity.
  - cbn [list_ascii_of_string forallb] in Hp. apply andb_true_iff in Hp.
    destruct Hp as [Hc Hp]. apply negb_true_iff, orb_false_iff in Hc.
    destruct Hc as [Hc1 Hc2].
    cbn [String.append list_ascii_of_string strings.ToLower Sql.like_list].
    rewrite Hc1, Hc2. destruct x as [|e x].
    + reflexivity.
    + cbn [list_ascii_of_string strings.ToLower strings.HasPrefix orb].
      fold (Sql.like_list (list_ascii_of_string (p ++ "%")) (list_ascii_of_string x)).
      rewrite (IH Hp x). reflexivity.
Qed.

(** X25.  On a healthy store [KeyStoreGetSubkeys] reports no error and
    returns only keys that are stored; it returns every stored key that
    begins with the prefix; and for a prefix without [%] and [_] a key is
    returned exactly when it begins with the prefix once both are put in
    lower case, the comparison of [LIKE]. *)
Theorem KeyStoreGetSubkeys_characterised (db : KDatabase) (prefix : string) :
  fault (base db) = None ->
  snd (KeyStoreGetSubkeys db prefix) = None /\
  (forall x, In x (fst (KeyStoreGetSubkeys db prefix)) -> In x (map key (key_store db))) /\
  (forall x, In x (map key (key_store db)) ->
     strings.HasPrefix x prefix = true ->
     In x (fst (KeyStoreGetSubkeys db prefix))) /\
  (no_wildcard prefix = true ->
   forall x, In x (fst (KeyStoreGetSubkeys db prefix)) <->
             In x (map key (key_store db)) /\
             strings.HasPrefix (strings.ToLower x) (strings.ToLower prefix) = true).
Proof.
  intros Hf. unfold KeyStoreGetSubkeys, KeyStoreCreateTable, Prepare. rewrite Hf.
  cbn [fst snd]. split; [reflexivity|].
  assert (Hin : forall x,
    In x (map key (filter (fun r => Sql.like (key r) (prefix ++ "%")%string) (key_store db)))
    <-> In x (map key (key_store db)) /\ Sql.like x (prefix ++ "%") = true).
  { intros x. rewrite !in_map_iff. split.
    - intros (r & <- & Hr). apply filter_In in Hr. destruct Hr as [Hr Hl].
      split; [exists r; split; [reflexivity | exact Hr] | exact Hl].
    - intros ((r & <- & Hr) & Hl). exists r. split; [reflexivity|].
      apply filter_In. split; assumption. }
  split; [|split].
  - intros x Hx. apply Hin in Hx. tauto.
  - intros x Hx Hp. apply Hin. split; [exact Hx | now apply like_prefix].
  - intros Hp x. rewrite Hin, (like_prefix_exact prefix Hp x). reflexivity.
Qed.

Lemma KeyStoreGetSubkeys_characterised_witness :
  snd (KeyStoreGetSubkeys kdb0 "client/") = None /\
  In "client/hostname" (fst (KeyStoreGetSubkeys kdb0 "client/")).
Proof.
  destruct (KeyStoreGetSubkeys_characterised kdb0 "client/" eq_refl)
    as (H1 & _ & H3 & _).
  split; [exact H1|].
  apply H3; [cbn; tauto | reflexivity].
Defined.

End KeyStoreFacts.

(** * Plugins by status *)

Section PluginStatusFacts.
Import Store.

(** X26.  On a healthy store [PluginSelectStatus] returns, for every stored
    plugin with a uuid whose status contains the text asked for, that
    plugin's record with [CurrentManager] zero. *)
Theorem PluginSelectStatus_complete (db : Database) (st : string) (r : PluginRow) :
  fault db = None ->
  In r (plugins db) ->
  strings.Contains (status r) st = true ->
  UUID (plugin_of_row r) <> "" ->
  snd (snd (PluginSelectStatus db st)) = None /\
  In (set_CurrentManager (plugin_of_row r) 0) (fst (snd (PluginSelectStatus db st))).
Proof.
  intros Hf Hr Hc Hu.
  unfold PluginSelectStatus, PluginCreateTable, Prepare. rewrite Hf.
  cbn [fst snd]. split; [reflexivity|].
  apply filter_In. split.
  - apply (in_map (fun r => set_CurrentManager (plugin_of_row r) 0)).
    apply filter_In. split; [exact Hr | now apply like_infix].
  - apply negb_true_iff, String.eqb_neq. exact Hu.
Qed.

End PluginStatusFacts.

Section PluginStatusExamples.
Import Store Spec.

Lemma PluginSelectStatus_complete_witness :
  In (set_CurrentManager (plugin_of_row rowA) 0)
     (fst (snd (PluginSelectStatus db_AB "running"))).
Proof.
  apply (PluginSelectStatus_complete db_AB "running" rowA eq_refl).
  - cbn. tauto.
  - reflexivity.
  - cbn. discriminate.
Defined.

End PluginStatusExamples.

(** * The life of a plugin process *)

Section LifecycleFacts.
Import Store client lifecycle PluginSpec.
Variable Marshal_plugin : Plugin -> string * error.

Lemma UpdateStatus_fault (c : Client) (p : Plugin) :
  fault (LocalDb (fst (UpdateStatus Marshal_plugin c p))) = fault (LocalDb c).
Proof.
  unfold UpdateStatus.
  assert (Hi : fault (fst (PluginInsert (LocalDb c) p)) = fault (LocalDb c)).
  { unfold PluginInsert, PluginCreateTable, Prepare.
    destruct (fault (LocalDb c)) eqn:Hf; cbn; rewrite ?Hf; cbn; rewrite ?Hf;
      reflexivity. }
  destruct (PluginInsert (LocalDb c) p) as [db1 [e|]]; cbn [fst] in Hi.
  - exact Hi.
  - cbv zeta. cbn [Offline set_LocalDb].
    destruct (negb (Offline c)); [|exact Hi].
    destruct (Marshal_plugin (set_CurrentManager p 0)) as [m [e|]]; [exact Hi|].
    cbn [LocalDb set_LocalDb].
    pose proof (MessageQueueInsert_frame db1 m "/core/pluginlog/") as [_ Hfa].
    destruct (MessageQueueInsert db1 m "/core/pluginlog/") as [db2 err].
    cbn [fst LocalDb set_LocalDb] in *. congruence.
Qed.

Lemma UpdateStatus_stored (c : Client) (p : Plugin) :
  fault (LocalDb c) = None -> UUID p <> "" ->
  snd (PluginSelectUUID (LocalDb (fst (UpdateStatus Marshal_plugin c p))) (UUID p))
  = (persisted p, None).
Proof.
  intros Hf Hid.
  pose proof (select_after_insert (LocalDb c) p Hf Hid) as Hread.
  unfold UpdateStatus.
  rewrite (PluginInsert_ok (LocalDb c) p Hf) in *. cbn [fst snd] in *.
  set (db1 := set_plugins (LocalDb c) _) in *.
  cbv zeta. cbn [Offline set_LocalDb].
  destruct (negb (Offline c)); [|exact Hread].
  destruct (Marshal_plugin (set_CurrentManager p 0)) as [m [e|]]; [exact Hread|].
  cbn [LocalDb set_LocalDb].
  pose proof (MessageQueueInsert_frame db1 m "/core/pluginlog/") as [Hp Hfa].
  destruct (MessageQueueInsert db1 m "/core/pluginlog/") as [db2 err].
  cbn [fst snd LocalDb set_LocalDb] in *.
  rewrite (PluginSelectUUID_plugins db1 db2 (UUID p) Hp Hfa). exact Hread.
Qed.

Lemma IsRunning_not_running (c : Client) (os : OS) (p sp : Plugin) :
  snd (PluginSelectUUID (LocalDb c) (UUID p)) = (sp, None) ->
  Status sp <> "running" \/ ProcessID sp = 0 ->
  snd (IsRunning c os p) = (false, None).
Proof.
  intros Hs Hno. unfold IsRunning.
  destruct (PluginSelectUUID (LocalDb c) (UUID p)) as [db1 [sp' e]].
  cbn [snd] in Hs. injection Hs as -> ->.
  destruct (String.eqb (Status sp) "running") eqn:Er; cbn [negb]; [|reflexivity].
  destruct Hno as [Hno|Hno]; [apply String.eqb_eq in Er; contradiction|].
  rewrite Hno. reflexivity.
Qed.

Lemma IsRunning_live (c : Client) (os : OS) (p sp : Plugin) (q : Z) :
  snd (PluginSelectUUID (LocalDb c) (UUID p)) = (sp, None) ->
  Status sp = "running" -> ProcessID sp <> 0 -> ProcessName sp <> "" ->
  ps_error os = None ->
  find_pid (processes os) (ProcessID sp) = Some (q, ProcessName sp) ->
  snd (IsRunning c os p) = (true, None).
Proof.
  intros Hs Hst Hpid Hname Hps Hfind. unfold IsRunning.
  destruct (PluginSelectUUID (LocalDb c) (UUID p)) as [db1 [sp' e]].
  cbn [snd] in Hs. injection Hs as -> ->.
  rewrite Hst. cbn [String.eqb Ascii.eqb Bool.eqb negb andb].
  apply Z.eqb_neq in Hpid. apply String.eqb_neq in Hname.
  rewrite Hpid, Hname. cbn [orb].
  unfold FindProcess. rewrite Hps, Hfind, String.eqb_refl. reflexivity.
Qed.

Lemma SetError_stored (c : Client) (now : time.Time) (p : Plugin) (msg : list string) :
  fault (LocalDb c) = None -> UUID p <> "" ->
  snd (PluginSelectUUID (LocalDb (SetError Marshal_plugin c now p msg)) (UUID p))
  = (persisted (set_LastExit (set_Status p "error" (error_text p msg)) now), None).
Proof.
  intros Hf Hid. unfold SetError. cbv zeta.
  apply (UpdateStatus_stored c
           (set_LastExit (set_Status p "error" (error_text p msg)) now) Hf Hid).
Qed.

(** X27.  [ResumePlugin], up to the point where it reports that monitoring
    is resumed.  When the process table is read but holds no process of the
    stored pid, the call panics on a nil process.  When it holds one, with a
    name, and the store is healthy, the record is written as running under
    the new manager with that process's name, and [IsRunning] then answers
    true.  When the table cannot be read, the record is written with status
    [error], the function returns, and [IsRunning] then answers false. *)
Theorem ResumePlugin_begin_contract
        (c : Client) (os : OS) (now : time.Time) (manager : Z) (p : Plugin) :
  (ps_error os = None -> find_pid (processes os) (ProcessID p) = None ->
   ResumePlugin_begin Marshal_plugin c os now manager p = Panics nil_dereference)
  /\ (fault (LocalDb c) = None -> UUID p <> "" -> ProcessID p <> 0 ->
      ps_error os = None ->
      forall q exe, find_pid (processes os) (ProcessID p) = Some (q, exe) ->
      exe <> "" ->
      exists c' p',
        ResumePlugin_begin Marshal_plugin c os now manager p = Returns (c', Some p')
        /\ snd (PluginSelectUUID (LocalDb c') (UUID p)) = (persisted p', None)
        /\ Status p' = "running" /\ StatusMessage p' = "resuming control"
        /\ CurrentManager p' = manager /\ ProcessName p' = exe
        /\ ProcessID p' = ProcessID p
        /\ snd (IsRunning c' os p) = (true, None))
  /\ (fault (LocalDb c) = None -> UUID p <> "" ->
      forall e, ps_error os = Some e ->
      exists c',
        ResumePlugin_begin Marshal_plugin c os now manager p = Returns (c', None)
        /\ Status (fst (snd (PluginSelectUUID (LocalDb c') (UUID p)))) = "error"
        /\ snd (IsRunning c' os p) = (false, None)).
Proof.
  unfold ResumePlugin_begin, FindProcess. cbv zeta.
  cbn [ProcessID set_CurrentManager set_Status].
  split; [|split].
  - intros Hps Hfind. rewrite Hps, Hfind. reflexivity.
  - intros Hf Hid Hpid Hps q exe Hfind Hexe. rewrite Hps, Hfind.
    set (p3 := set_ProcessName _ exe).
    pose proof (UpdateStatus_stored c p3 Hf Hid) as Hst.
    exists (fst (UpdateStatus Marshal_plugin c p3)), p3.
    repeat split; try reflexivity; try exact Hst.
    apply (IsRunning_live _ os p (sp := persisted p3) (q := q)); try assumption;
      try reflexivity.
  - intros Hf Hid e Hps. rewrite Hps.
    set (p2 := set_CurrentManager _ manager).
    pose proof (SetError_stored c now p2
                  ["unable to get plugin process information"; e] Hf Hid) as Hst.
    eexists. split; [reflexivity|].
    change (UUID p) with (UUID p2). rewrite Hst. split; [reflexivity|].
    apply (IsRunning_not_running _ os p2 Hst). left. cbn. discriminate.
Qed.

(** X28.  [LaunchBinary], from the start of the process to the first
    report.  When the process table is read but no longer holds the new
    process, the call panics on a nil process.  When it holds it, with a
    name, and the store is healthy, the record is written as running with
    the new pid, that name, the start time and the manager, and [IsRunning]
    then answers true.  When the table cannot be read, the record is written
    with status [error] and [IsRunning] then answers false. *)
Theorem LaunchBinary_started_contract
        (c : Client) (os : OS) (now : time.Time) (manager pid : Z) (p : Plugin) :
  (ps_error os = None -> find_pid (processes os) pid = None ->
   LaunchBinary_started Marshal_plugin c os now manager pid p = Panics nil_dereference)
  /\ (fault (LocalDb c) = None -> UUID p <> "" -> pid <> 0 ->
      ps_error os = None ->
      forall q exe, find_pid (processes os) pid = Some (q, exe) ->
      exe <> "" ->
      exists c' p',
        LaunchBinary_started Marshal_plugin c os now manager pid p
        = Returns (c', Some p')
        /\ snd (PluginSelectUUID (LocalDb c') (UUID p)) = (persisted p', None)
        /\ Status p' = "running" /\ ProcessID p' = pid /\ ProcessName p' = exe
        /\ LastStart p' = now /\ CurrentManager p' = manager
        /\ snd (IsRunning c' os p) = (true, None))
  /\ (fault (LocalDb c) = None -> UUID p <> "" ->
      forall e, ps_error os = Some e ->
      exists c',
        LaunchBinary_started Marshal_plugin c os now manager pid p = Returns (c', None)
        /\ Status (fst (snd (PluginSelectUUID (LocalDb c') (UUID p)))) = "error"
        /\ snd (IsRunning c' os p) = (false, None)).
Proof.
  unfold LaunchBinary_started, FindProcess. cbv zeta.
  split; [|split].
  - intros Hps Hfind. rewrite Hps, Hfind. reflexivity.
  - intros Hf Hid Hpid Hps q exe Hfind Hexe. rewrite Hps, Hfind.
    set (p4 := set_CurrentManager _ manager).
    pose proof (UpdateStatus_stored c p4 Hf Hid) as Hst.
    exists (fst (UpdateStatus Marshal_plugin c p4)), p4.
    repeat split; try reflexivity; try exact Hst.
    apply (IsRunning_live _ os p (sp := persisted p4) (q := q)); try assumption;
      try reflexivity.
  - intros Hf Hid e Hps. rewrite Hps.
    set (p1 := set_ProcessID _ pid).
    pose proof (SetError_stored c now p1
                  ["unable to get plugin process information"; e] Hf Hid) as Hst.
    eexists. split; [reflexivity|].
    change (UUID p) with (UUID p1). rewrite Hst. split; [reflexivity|].
    apply (IsRunning_not_running _ os p1 Hst). left. cbn. discriminate.
Qed.

(** X29.  The end of [LaunchBinary].  On a healthy store, once the process
    has been waited for, the stored record has status [complete], or
    [error] with the text of the wait error and of the error stream, process
    id 0 and the exit time; [IsRunning] answers false afterwards whatever the
    process table holds; and a value is sent to the throttler exactly when
    the plugin has a CPU limit. *)
Theorem LaunchBinary_exit_contract
        (c : Client) (os : OS) (now : time.Time) (p : Plugin)
        (waitErr : error) (errMsg : string) :
  fault (LocalDb c) = None -> UUID p <> "" ->
  let c' := fst (LaunchBinary_exit Marshal_plugin c now p waitErr errMsg) in
  let sp := fst (snd (PluginSelectUUID (LocalDb c') (UUID p))) in
  snd (snd (PluginSelectUUID (LocalDb c') (UUID p))) = None
  /\ (Status sp, StatusMessage sp)
     = match waitErr with
       | Some e => ("error", (e ++ " : " ++ errMsg)%string)
       | None => ("complete", "complete")
       end
  /\ ProcessID sp = 0 /\ LastExit sp = now
  /\ snd (IsRunning c' os p) = (false, None)
  /\ (snd (LaunchBinary_exit Marshal_plugin c now p waitErr errMsg) = true
      <-> 0 < CPULimit p).
Proof.
  intros Hf Hid. unfold LaunchBinary_exit. cbv zeta.
  destruct waitErr as [e|].
  all: set (p2 := set_ProcessID _ 0).
  all: pose proof (UpdateStatus_stored c p2 Hf Hid) as Hst.
  all: destruct (UpdateStatus Marshal_plugin c p2) as [c1 e1]; cbn [fst snd] in *.
  all: change (UUID p2) with (UUID p) in Hst; rewrite Hst; cbn [fst snd].
  all: split; [reflexivity|]; split; [reflexivity|].
  all: split; [reflexivity|]; split; [reflexivity|]; split.
  all: try apply Z.ltb_lt.
  all: apply (IsRunning_not_running c1 os p Hst); right; reflexivity.
Qed.

End LifecycleFacts.

Section LifecycleExamples.
Import Store client lifecycle PluginSpec Spec.

Lemma ResumePlugin_begin_contract_witness :
  ResumePlugin_begin marshal_plugin client_AB
    {| processes := [(1, "agent")]; ps_error := None |} t0 2 pluginA_live
  = Panics nil_dereference.
Proof.
  apply (ResumePlugin_begin_contract marshal_plugin client_AB
           {| processes := [(1, "agent")]; ps_error := None |} t0 2 pluginA_live);
    reflexivity.
Defined.

Lemma LaunchBinary_started_contract_witness :
  exists c' p',
    LaunchBinary_started marshal_plugin client_AB os_AB t0 2 100 pluginA
    = Returns (c', Some p')
    /\ snd (IsRunning c' os_AB pluginA) = (true, None).
Proof.
  destruct (LaunchBinary_started_contract marshal_plugin client_AB os_AB t0 2 100 pluginA)
    as (_ & H & _).
  destruct (H eq_refl) with (q := 100) (exe := "a.exe")
    as (c' & p' & H1 & _ & _ & _ & _ & _ & _ & H2);
    try reflexivity; try discriminate.
  exists c', p'. split; [exact H1 | exact H2].
Defined.

Lemma LaunchBinary_exit_contract_witness :
  snd (IsRunning
         (fst (LaunchBinary_exit marshal_plugin client_AB t0 pluginA_live None ""))
         os_AB pluginA_live)
  = (false, None).
Proof.
  destruct (LaunchBinary_exit_contract marshal_plugin client_AB os_AB t0 pluginA_live
              None "" eq_refl)
    as (_ & _ & _ & _ & H & _).
  - discriminate.
  - exact H.
Defined.

End LifecycleExamples.

Section AnswerWitnesses.
Import comms transport.

Lemma Send_success_is_verified_witness :
  Send env_resource 0%nat Spec.sender0 "msg" "/core/pluginlog/"
  = Returns (1%nat, ("inner", None)).
Proof.
  apply (proj2 (proj1 (@Send_success_is_verified nat env_resource 0%nat 1%nat
                         Spec.sender0 "msg" "/core/pluginlog/" "inner"))).
  exists "msg", "200 OK", "envelope", [("jsonString", "inner"); ("SIGNATURE", "c2ln")].
  repeat split; reflexivity.
Defined.

Lemma Get_success_is_verified_witness :
  Get env_resource 0%nat Spec.sender0 "/core/checkin/"
  = Returns (1%nat, ("inner", None)).
Proof.
  apply (proj2 (proj1 (@Get_success_is_verified nat env_resource 0%nat 1%nat
                         Spec.sender0 "/core/checkin/" "inner"))).
  exists "200 OK", "envelope", [("jsonString", "inner"); ("SIGNATURE", "c2ln")].
  repeat split; reflexivity.
Defined.

Lemma GetResource_content_is_verified_witness :
  exists respString m,
    Send env_resource 0%nat Spec.sender0 "" "/core/resource/abc/"
    = Returns (1%nat, (respString, None))
    /\ Unmarshal env_resource respString = inl m
    /\ decode_hi (lookup m "content") = inl "hi".
Proof.
  apply (proj1 (@GetResource_content_is_verified nat env_resource decode_hi
                  0%nat 1%nat Spec.sender0 "abc" "hi")).
  reflexivity.
Defined.

End AnswerWitnesses.

Section StatusWitnesses.
Import Store client Spec.

Lemma IsRunning_characterised_witness :
  snd (snd (IsRunning client_AB os_AB pluginA)) = None
  /\ In (100, "a.exe") (processes os_AB).
Proof.
  destruct (IsRunning_characterised client_AB os_AB pluginA) as (_ & H & _).
  exact (H eq_refl).
Defined.

End StatusWitnesses.
